(** * ClipCode: the chunking engine, embedded and verified

    A shallow embedding of the TypeScript sources
    [tokenizer.ts], [errors.ts], [split.ts], [chunk.ts], [chunk-file.ts],
    [repository-scanner.ts] and [batch-processor.ts].

    Conventions.
    - A JavaScript string is the list of its code units; the model keeps the
      code units below 256, so a string is a [list ascii].
    - JavaScript numbers that hold line numbers, token counts and budgets are
      integers of [Z].
    - A function that can throw returns a [Result]; [Throw e] carries the
      class of the thrown error and its message.
    - What the sources import from other packages (tiktoken's [get_encoding]
      and [encode], tree-sitter's [parse], Node's [fs] and [path]) is taken
      as a parameter. *)

From Stdlib Require Import Ascii String.
From Stdlib Require Import List ZArith Lia Bool.
From Stdlib Require Import DecimalString.
From Stdlib Require PrimFloat Uint63.
From Stdlib Require Import Sorting.Sorted Sorting.Permutation.
Import ListNotations.
Open Scope Z_scope.

Set Implicit Arguments.

(* ================================================================== *)
(** * JavaScript strings *)
(* ================================================================== *)

Definition jsstring := list ascii.

(** A string literal of the sources. *)
Definition str (s : String.string) : jsstring :=
  String.list_ascii_of_string s.

Definition jslength (s : jsstring) : Z := Z.of_nat (List.length s).

Definition ascii_eqb (a b : ascii) : bool := Ascii.eqb a b.

Fixpoint jsstring_eqb (a b : jsstring) : bool :=
  match a, b with
  | [], [] => true
  | x :: a', y :: b' => ascii_eqb x y && jsstring_eqb a' b'
  | _, _ => false
  end.

(** [WhiteSpace] and [LineTerminator] of ECMAScript among the code units
    below 256: TAB, LF, VT, FF, CR, SP and NBSP.  These are what
    [String.prototype.trim] strips. *)
Definition isWhiteSpace (c : ascii) : bool :=
  let n := nat_of_ascii c in
  ((9 <=? n)%nat && (n <=? 13)%nat) || (n =? 32)%nat || (n =? 160)%nat.

Fixpoint trimStart (s : jsstring) : jsstring :=
  match s with
  | [] => []
  | c :: r => if isWhiteSpace c then trimStart r else s
  end.

Definition trimEnd (s : jsstring) : jsstring := rev (trimStart (rev s)).

(** [s.trim()] *)
Definition trim (s : jsstring) : jsstring := trimEnd (trimStart s).

(** [s.trim().length === 0] *)
Definition isBlank (s : jsstring) : bool := jslength (trim s) =? 0.

(** [!s] for a string: the empty string is the only falsy one. *)
Definition falsy (s : jsstring) : bool := jslength s =? 0.

(** [s.split(d)] for a one-character separator: never an empty array. *)
Fixpoint split_on (d : ascii) (s : jsstring) : list jsstring :=
  match s with
  | [] => [[]]
  | c :: r =>
      if ascii_eqb c d then [] :: split_on d r
      else match split_on d r with
           | p :: ps => (c :: p) :: ps
           | [] => [[c]]
           end
  end.

(** [parts.join(d)] *)
Definition join (d : jsstring) (parts : list jsstring) : jsstring :=
  match parts with
  | [] => []
  | p :: rest => p ++ concat (map (fun q => d ++ q) rest)
  end.

Definition newline : ascii := ascii_of_nat 10.
Definition NL : jsstring := [newline].

(** [arr.slice(b, e)] of JavaScript: a negative index counts from the end,
    and both ends are clamped to the array. *)
Definition relIndex (len k : Z) : Z :=
  if k <? 0 then Z.max (len + k) 0 else Z.min k len.

Definition slice {A} (l : list A) (b e : Z) : list A :=
  let len := Z.of_nat (List.length l) in
  let from := relIndex len b in
  let to := relIndex len e in
  firstn (Z.to_nat (to - from)) (skipn (Z.to_nat from) l).

(** [arr.slice(b)] *)
Definition sliceFrom {A} (l : list A) (b : Z) : list A :=
  slice l b (Z.of_nat (List.length l)).

(** [s.charAt(0)] *)
Definition charAt0 (s : jsstring) : jsstring := firstn 1 s.

(** [s.toLowerCase()] on the code units below 256: A-Z, and the Latin-1
    capitals other than the multiplication sign. *)
Definition toLowerChar (c : ascii) : ascii :=
  let n := nat_of_ascii c in
  if ((65 <=? n)%nat && (n <=? 90)%nat)
     || ((192 <=? n)%nat && (n <=? 222)%nat && negb (n =? 215)%nat)
  then ascii_of_nat (n + 32) else c.

Definition toLowerCase (s : jsstring) : jsstring := map toLowerChar s.

Fixpoint startsWith (p s : jsstring) : bool :=
  match p, s with
  | [], _ => true
  | x :: p', y :: s' => ascii_eqb x y && startsWith p' s'
  | _ :: _, [] => false
  end.

(** [s.includes(p)] *)
Fixpoint includes (s p : jsstring) : bool :=
  startsWith p s ||
  match s with
  | [] => false
  | _ :: r => includes r p
  end.

(** The order of [Array.prototype.sort] without a comparator on strings:
    code unit by code unit. *)
Fixpoint jsstring_leb (a b : jsstring) : bool :=
  match a, b with
  | [], _ => true
  | _ :: _, [] => false
  | x :: a', y :: b' =>
      let m := nat_of_ascii x in
      let n := nat_of_ascii y in
      if (m <? n)%nat then true
      else if (n <? m)%nat then false
      else jsstring_leb a' b'
  end.

(* ================================================================== *)
(** * Exceptions ([errors.ts]) *)
(* ================================================================== *)

(** [ErrorType] of [types.ts]. *)
Inductive ErrorType := file_system | parsing | token_processing | database.

(** The classes of the thrown values: a plain [Error], or one of the
    subclasses of [ChunkingError], whose constructor fixes [type]. *)
Inductive ErrorClass :=
  | PlainError
  | FileSystemError
  | ParsingError
  | TokenProcessingError
  | DatabaseError.

Record Exn := mkExn { exnClass : ErrorClass; exnMessage : jsstring }.

(** The [type] field the constructor of each [ChunkingError] subclass sets;
    a plain [Error] has none. *)
Definition exnType (e : Exn) : option ErrorType :=
  match exnClass e with
  | PlainError => None
  | FileSystemError => Some file_system
  | ParsingError => Some parsing
  | TokenProcessingError => Some token_processing
  | DatabaseError => Some database
  end.

Inductive Result (A : Type) : Type :=
  | Ok (a : A)
  | Throw (e : Exn).
Arguments Ok {A} a.
Arguments Throw {A} e.

Definition bind {A B} (c : Result A) (k : A -> Result B) : Result B :=
  match c with
  | Ok a => k a
  | Throw e => Throw e
  end.

(** [try { c } catch (error) { h error }] *)
Definition tryCatch {A} (c : Result A) (h : Exn -> Result A) : Result A :=
  match c with
  | Ok a => Ok a
  | Throw e => h e
  end.

Declare Scope result_scope.
Delimit Scope result_scope with result.
Notation "x <- c ;; k" := (bind c (fun x => k))
  (at level 61, c at next level, right associativity) : result_scope.
Notation "' pat <- c ;; k" :=
  (bind c (fun x => match x with pat => k end))
  (at level 61, pat pattern, c at next level, right associativity)
  : result_scope.
Open Scope result_scope.

Definition isOk {A} (r : Result A) : bool :=
  match r with Ok _ => true | Throw _ => false end.

(* ================================================================== *)
(** * The tokenizer ([tokenizer.ts]) *)
(* ================================================================== *)

(** A property read off a JavaScript object: [undefined], a string, or a
    member inherited from [Object.prototype] (a function, or the prototype
    object itself for [__proto__]); the inherited members are all truthy. *)
Inductive JsValue :=
  | JUndefined
  | JString (s : jsstring)
  | JInherited (name : jsstring).

Definition truthy (v : JsValue) : bool :=
  match v with
  | JUndefined => false
  | JString s => negb (falsy s)
  | JInherited _ => true
  end.

(** [a || b] *)
Definition orElse (a b : JsValue) : JsValue := if truthy a then a else b.

Fixpoint assoc {V} (k : jsstring) (m : list (jsstring * V)) : option V :=
  match m with
  | [] => None
  | (k', v) :: r => if jsstring_eqb k k' then Some v else assoc k r
  end.

(** The members every object literal inherits from [Object.prototype]. *)
Definition Object_prototype_members : list jsstring :=
  map str
    [ "constructor"; "__defineGetter__"; "__defineSetter__"; "hasOwnProperty";
      "__lookupGetter__"; "__lookupSetter__"; "isPrototypeOf";
      "propertyIsEnumerable"; "toString"; "valueOf"; "__proto__";
      "toLocaleString" ]%string.

(** [obj[key]] for an object literal with string values: its own property,
    else what the prototype chain gives. *)
Definition getProperty (obj : list (jsstring * jsstring)) (key : jsstring)
  : JsValue :=
  match assoc key obj with
  | Some v => JString v
  | None =>
      if existsb (jsstring_eqb key) Object_prototype_members
      then JInherited key else JUndefined
  end.

Definition SUPPORTED_MODELS : list (jsstring * jsstring) :=
  [ (str "text-embedding-3-large", str "cl100k_base");
    (str "text-embedding-3-small", str "cl100k_base");
    (str "text-embedding-ada-002", str "cl100k_base");
    (str "gpt-4", str "cl100k_base");
    (str "gpt-3.5-turbo", str "cl100k_base") ].

(** A tiktoken encoder: [encode] gives the tokens of a text, or throws. *)
Definition Encoding := jsstring -> Result (list nat).

Record Tokenizer := mkTokenizer {
  encoding : Encoding;
  modelName : jsstring
}.

(** [new Tokenizer(modelName)]; [get_encoding] is tiktoken's. *)
Definition Tokenizer_new (get_encoding : JsValue -> Result Encoding)
    (modelName : jsstring) : Result Tokenizer :=
  tryCatch
    (let encodingName :=
       orElse (getProperty SUPPORTED_MODELS modelName)
              (JString (str "cl100k_base")) in
     enc <- get_encoding encodingName ;;
     Ok (mkTokenizer enc modelName))
    (fun error =>
       Throw (mkExn TokenProcessingError
                (str "Failed to initialize tokenizer for model " ++ modelName
                 ++ str ": " ++ exnMessage error))).

Definition createTokenizer (get_encoding : JsValue -> Result Encoding)
    (modelName : jsstring) : Result Tokenizer :=
  Tokenizer_new get_encoding modelName.

(** [Tokenizer.countTokens] *)
Definition countTokens (tk : Tokenizer) (text : jsstring) : Result Z :=
  tryCatch
    (if falsy text || isBlank text then Ok 0
     else tokens <- encoding tk text ;;
          Ok (Z.of_nat (List.length tokens)))
    (fun error =>
       Throw (mkExn TokenProcessingError
                (str "Failed to count tokens: " ++ exnMessage error))).

(** [Tokenizer.exceedsLimit] *)
Definition exceedsLimit (tk : Tokenizer) (text : jsstring) (maxTokens : Z)
  : Result bool :=
  n <- countTokens tk text ;;
  Ok (n >? maxTokens).

(* ================================================================== *)
(** * The token-aware splitter ([split.ts]) *)
(* ================================================================== *)

Module CodeSplit.
Record t := mk {
  content : jsstring;
  startLine : Z;
  endLine : Z;
  tokenCount : Z
}.
End CodeSplit.

(** [[' ', ',', ';', '(', ')', '{', '}', '[', ']']] *)
Definition delimiters : list ascii :=
  [ " "; ","; ";"; "("; ")"; "{"; "}"; "["; "]" ]%char.

(** The inner loop of [findBestSplit] over [parts], from index [i] on:
    [isFirst] is [i === 0]; the [else] branch is the [break]. *)
Fixpoint accumulateParts (tk : Tokenizer) (maxTokens : Z) (delimiter : ascii)
    (parts : list jsstring) (isFirst : bool) (currentPart : jsstring)
  : Result jsstring :=
  match parts with
  | [] => Ok currentPart
  | part :: rest =>
      let testPart :=
        if isFirst then part else currentPart ++ [delimiter] ++ part in
      n <- countTokens tk testPart ;;
      if n <=? maxTokens
      then accumulateParts tk maxTokens delimiter rest false testPart
      else Ok currentPart
  end.

(** The outer loop of [findBestSplit] over the delimiters. *)
Fixpoint findBestSplit_loop (tk : Tokenizer) (text : jsstring) (maxTokens : Z)
    (ds : list ascii) (bestSplit : jsstring) : Result jsstring :=
  match ds with
  | [] => Ok bestSplit
  | delimiter :: ds' =>
      currentPart <-
        accumulateParts tk maxTokens delimiter (split_on delimiter text)
                        true [] ;;
      findBestSplit_loop tk text maxTokens ds'
        (if jslength currentPart >? jslength bestSplit
         then currentPart else bestSplit)
  end.

Definition findBestSplit (tk : Tokenizer) (text : jsstring) (maxTokens : Z)
    (ds : list ascii) : Result jsstring :=
  findBestSplit_loop tk text maxTokens ds [].

(** The binary search of [findCharacterSplit]; [fuel] bounds the number of
    turns of the [while] loop ([findCharacterSplit_fuel] shows that the
    bound given below is never reached). *)
Fixpoint findCharacterSplit_loop (fuel : nat) (tk : Tokenizer)
    (text : jsstring) (maxTokens : Z) (left right bestLength : Z)
  : Result Z :=
  match fuel with
  | O => Ok bestLength
  | S fuel' =>
      if left <=? right then
        let mid := (left + right) / 2 in
        n <- countTokens tk (slice text 0 mid) ;;
        if n <=? maxTokens
        then findCharacterSplit_loop fuel' tk text maxTokens (mid + 1) right mid
        else findCharacterSplit_loop fuel' tk text maxTokens left (mid - 1)
                                     bestLength
      else Ok bestLength
  end.

Definition findCharacterSplit (tk : Tokenizer) (text : jsstring)
    (maxTokens : Z) : Result jsstring :=
  bestLength <-
    findCharacterSplit_loop (S (S (List.length text))) tk text maxTokens
                            0 (jslength text) 0 ;;
  Ok (slice text 0 bestLength).

(** The choice of [bestSplit] in one turn of the loop of [splitLongLine]:
    by delimiters, else by characters, else one character. *)
Definition nextSplit (tk : Tokenizer) (remainingText : jsstring)
    (maxTokens : Z) : Result jsstring :=
  bestSplit <- findBestSplit tk remainingText maxTokens delimiters ;;
  bestSplit <-
    (if jslength bestSplit =? 0
     then findCharacterSplit tk remainingText maxTokens
     else Ok bestSplit) ;;
  Ok (if jslength bestSplit =? 0 then charAt0 remainingText else bestSplit).

(** The [while (remainingText.length > 0)] loop of [splitLongLine]; every
    turn removes at least one character, so [fuel] above the length of the
    text is never used up ([splitLongLine_fuel]). *)
Fixpoint splitLongLine_loop (fuel : nat) (tk : Tokenizer) (lineNumber : Z)
    (maxTokens : Z) (remainingText : jsstring) (splits : list CodeSplit.t)
  : Result (list CodeSplit.t) :=
  match fuel with
  | O => Ok splits
  | S fuel' =>
      if jslength remainingText >? 0 then
        bestSplit <- nextSplit tk remainingText maxTokens ;;
        tokenCount <- countTokens tk bestSplit ;;
        splitLongLine_loop fuel' tk lineNumber maxTokens
          (sliceFrom remainingText (jslength bestSplit))
          (splits ++ [CodeSplit.mk bestSplit lineNumber lineNumber tokenCount])
      else Ok splits
  end.

Definition splitLongLine (tk : Tokenizer) (line : jsstring) (lineNumber : Z)
    (maxTokens : Z) : Result (list CodeSplit.t) :=
  splitLongLine_loop (S (List.length line)) tk lineNumber maxTokens line [].

(** [flushChunk] pushes onto [chunks]; the model returns the new array. *)
Definition flushChunk (chunks : list CodeSplit.t) (lines : list jsstring)
    (startLine endLine tokenCount : Z) : list CodeSplit.t :=
  if Z.of_nat (List.length lines) =? 0 then chunks
  else
    let content := join NL lines in
    if jslength (trim content) >? 0
    then chunks ++ [CodeSplit.mk content startLine endLine tokenCount]
    else chunks.

(** The variables of the loop of [splitCode]. *)
Record SplitState := mkSplitState {
  splits : list CodeSplit.t;
  currentChunk : list jsstring;
  currentStartLine : Z;
  currentTokenCount : Z
}.

(** One turn of the [for] loop of [splitCode], at index [i]. *)
Definition splitCode_step (tk : Tokenizer) (startLine maxTokens : Z)
    (st : SplitState) (i : Z) (line : jsstring) : Result SplitState :=
  let lineNumber := startLine + i in
  if jslength (trim line) =? 0 then
    Ok (mkSplitState (splits st) (currentChunk st ++ [line])
                     (currentStartLine st) (currentTokenCount st))
  else
    lineTokens <- countTokens tk line ;;
    if lineTokens >? maxTokens then
      let st1 :=
        if Z.of_nat (List.length (currentChunk st)) >? 0 then
          mkSplitState
            (flushChunk (splits st) (currentChunk st) (currentStartLine st)
                        (lineNumber - 1) (currentTokenCount st))
            [] lineNumber 0
        else st in
      lineSplits <- splitLongLine tk line lineNumber maxTokens ;;
      Ok (mkSplitState (splits st1 ++ lineSplits) (currentChunk st1)
                       (lineNumber + 1) (currentTokenCount st1))
    else
      let potentialTokenCount := currentTokenCount st + lineTokens in
      if (potentialTokenCount >? maxTokens)
         && (Z.of_nat (List.length (currentChunk st)) >? 0)
      then
        Ok (mkSplitState
              (flushChunk (splits st) (currentChunk st) (currentStartLine st)
                          (lineNumber - 1) (currentTokenCount st))
              [line] lineNumber lineTokens)
      else
        Ok (mkSplitState (splits st) (currentChunk st ++ [line])
                         (currentStartLine st) potentialTokenCount).

Fixpoint splitCode_loop (tk : Tokenizer) (startLine maxTokens : Z)
    (lines : list jsstring) (i : Z) (st : SplitState) : Result SplitState :=
  match lines with
  | [] => Ok st
  | line :: rest =>
      st' <- splitCode_step tk startLine maxTokens st i line ;;
      splitCode_loop tk startLine maxTokens rest (i + 1) st'
  end.

(** [splitCode({ sourceCode, startLine, maxTokens, tokenizer })] *)
Definition splitCode (tk : Tokenizer) (sourceCode : jsstring)
    (startLine maxTokens : Z) : Result (list CodeSplit.t) :=
  if falsy sourceCode || (jslength (trim sourceCode) =? 0) then Ok []
  else if maxTokens <=? 0 then
    Throw (mkExn TokenProcessingError
                 (str "maxTokens must be greater than 0"))
  else
    let lines := split_on newline sourceCode in
    st <- splitCode_loop tk startLine maxTokens lines 0
            (mkSplitState [] [] startLine 0) ;;
    Ok (if Z.of_nat (List.length (currentChunk st)) >? 0
        then flushChunk (splits st) (currentChunk st) (currentStartLine st)
               (startLine + Z.of_nat (List.length lines) - 1)
               (currentTokenCount st)
        else splits st).

(** An encoder that gives every character one token, used to run the
    splitter on concrete texts. *)
Definition charEncoding : Encoding :=
  fun text => Ok (map nat_of_ascii text).

Definition charTokenizer : Tokenizer :=
  mkTokenizer charEncoding (str "text-embedding-3-large").

(* ================================================================== *)
(** * Sorting as [Array.prototype.sort] does *)
(* ================================================================== *)

(** [arr.sort(cmp)] is stable; for a comparator that is a consistent order
    the result of a stable sort is determined, and it is the one of this
    insertion sort: [x] goes before the first element it does not follow. *)
Fixpoint insertBy {A} (cmp : A -> A -> Z) (x : A) (l : list A) : list A :=
  match l with
  | [] => [x]
  | y :: r => if cmp x y <=? 0 then x :: y :: r else y :: insertBy cmp x r
  end.

Definition sortBy {A} (cmp : A -> A -> Z) (l : list A) : list A :=
  fold_right (insertBy cmp) [] l.

(** The comparison [sort()] uses when it is given none. *)
Definition defaultCompare (a b : jsstring) : Z :=
  if jsstring_eqb a b then 0 else if jsstring_leb a b then -1 else 1.

(* ================================================================== *)
(** * Syntax trees and chunks ([types.ts], [chunk.ts]) *)
(* ================================================================== *)

Record Position := mkPosition { row : Z; column : Z }.

(** A node of the tree-sitter tree, as far as the sources read it. *)
#[warnings="-register-all"]
Inductive SyntaxNode :=
  | SNode (type : jsstring) (startPosition endPosition : Position)
          (text : jsstring) (children : list SyntaxNode).

Module SyntaxNodeFields.
Definition type (n : SyntaxNode) := let 'SNode t _ _ _ _ := n in t.
Definition startPosition (n : SyntaxNode) := let 'SNode _ s _ _ _ := n in s.
Definition endPosition (n : SyntaxNode) := let 'SNode _ _ e _ _ := n in e.
Definition text (n : SyntaxNode) := let 'SNode _ _ _ x _ := n in x.
Definition children (n : SyntaxNode) := let 'SNode _ _ _ _ c := n in c.
End SyntaxNodeFields.

(** [ASTNode & { symbolName?, symbolType?, parentLineage? }] *)
Module ASTNode.
Record t := mk {
  type : jsstring;
  startPosition : Position;
  endPosition : Position;
  text : jsstring;
  symbolName : option jsstring;
  symbolType : option jsstring;
  parentLineage : option (list jsstring)
}.
End ASTNode.

Inductive ChunkType := ast_node | gap | split.

Module ChunkMetadata.
Record t := mk {
  filePath : jsstring;
  language : jsstring;
  symbolName : option jsstring;
  symbolType : option jsstring;
  parentLineage : option (list jsstring);
  chunkType : ChunkType;
  startLine : Z;
  endLine : Z;
  imports : option (list jsstring);
  exports : option (list jsstring)
}.
End ChunkMetadata.

Module FileChunk.
Record t := mk {
  content : jsstring;
  metadata : ChunkMetadata.t;
  startLine : Z;
  endLine : Z;
  tokenCount : Z
}.
End FileChunk.

(** The two grammars of [tree-sitter-typescript]. *)
Inductive Language := TSLang_typescript | TSLang_tsx.

Module ChunkConfig.
Record t := mk {
  language : Language;
  name : jsstring;
  wantedNodes : list jsstring
}.
End ChunkConfig.

Definition tsConfig : ChunkConfig.t :=
  ChunkConfig.mk TSLang_typescript (str "typescript")
    (map str
       [ "function_declaration"; "method_definition"; "class_declaration";
         "interface_declaration"; "type_alias_declaration";
         "enum_declaration"; "namespace_declaration"; "module_declaration";
         "variable_declaration"; "lexical_declaration";
         "import_statement"; "export_statement" ]%string).

Definition tsxConfig : ChunkConfig.t :=
  ChunkConfig.mk TSLang_tsx (ChunkConfig.name tsConfig)
                 (ChunkConfig.wantedNodes tsConfig).

Definition LANG_CONFIG : list (jsstring * ChunkConfig.t) :=
  [ (str ".ts", tsConfig); (str ".tsx", tsxConfig) ].

(* ================================================================== *)
(** * Symbols and the node collector ([chunk-file.ts]) *)
(* ================================================================== *)

Definition isType (s : string) (t : jsstring) : bool := jsstring_eqb t (str s).

(** [node.children.find(child => child.type === ty)] *)
Definition findChild (ty : string) (node : SyntaxNode) : option SyntaxNode :=
  find (fun child => isType ty (SyntaxNodeFields.type child))
       (SyntaxNodeFields.children node).

(** [child?.text] *)
Definition textOf (n : option SyntaxNode) : option jsstring :=
  option_map SyntaxNodeFields.text n.

(** The cases of [extractSymbolName] other than [export_statement]. *)
Definition extractSymbolName_decl (node : SyntaxNode) : option jsstring :=
  let ty := SyntaxNodeFields.type node in
  if isType "function_declaration" ty then textOf (findChild "identifier" node)
  else if isType "class_declaration" ty
          || isType "interface_declaration" ty
          || isType "type_alias_declaration" ty
  then textOf (findChild "type_identifier" node)
  else if isType "method_definition" ty
  then textOf (findChild "property_identifier" node)
  else if isType "arrow_function" ty then None
  else if isType "variable_declaration" ty || isType "lexical_declaration" ty
  then match findChild "variable_declarator" node with
       | Some declarator => textOf (findChild "identifier" declarator)
       | None => None
       end
  else if isType "import_statement" ty
  then match findChild "import_clause" node with
       | Some importClause =>
           match findChild "identifier" importClause with
           | Some defaultImport => Some (SyntaxNodeFields.text defaultImport)
           | None =>
               match findChild "named_imports" importClause with
               | Some namedImports =>
                   match findChild "import_specifier" namedImports with
                   | Some firstSpecifier =>
                       textOf (findChild "identifier" firstSpecifier)
                   | None => None
                   end
               | None => None
               end
           end
       | None => None
       end
  else None.

(** [extractSymbolName]: its one recursive call is on a child that is a
    function, class or interface declaration, a case that does not recurse. *)
Definition extractSymbolName (node : SyntaxNode) : option jsstring :=
  if isType "export_statement" (SyntaxNodeFields.type node) then
    match find (fun child =>
                  let ty := SyntaxNodeFields.type child in
                  isType "export_clause" ty
                  || isType "function_declaration" ty
                  || isType "class_declaration" ty
                  || isType "interface_declaration" ty)
               (SyntaxNodeFields.children node) with
    | Some exportClause =>
        if negb (isType "export_clause" (SyntaxNodeFields.type exportClause))
        then extractSymbolName_decl exportClause
        else None
    | None => None
    end
  else extractSymbolName_decl node.

Definition extractSymbolType (node : SyntaxNode) : jsstring :=
  let ty := SyntaxNodeFields.type node in
  if isType "function_declaration" ty then str "function"
  else if isType "class_declaration" ty then str "class"
  else if isType "interface_declaration" ty then str "interface"
  else if isType "type_alias_declaration" ty then str "type_alias"
  else if isType "method_definition" ty then str "method"
  else if isType "arrow_function" ty then str "arrow_function"
  else if isType "variable_declaration" ty || isType "lexical_declaration" ty
  then str "variable"
  else if isType "export_statement" ty then str "export"
  else if isType "import_statement" ty then str "import"
  else ty.

Definition isContainerNode (nodeType : jsstring) : bool :=
  existsb (jsstring_eqb nodeType)
    (map str [ "class_declaration"; "interface_declaration";
               "namespace_declaration"; "module_declaration";
               "enum_declaration" ]%string).

(** The comparator both sorts of nodes use: by row, then by column. *)
Definition compareNodes (a b : ASTNode.t) : Z :=
  if negb (row (ASTNode.startPosition a) =? row (ASTNode.startPosition b))
  then row (ASTNode.startPosition a) - row (ASTNode.startPosition b)
  else column (ASTNode.startPosition a) - column (ASTNode.startPosition b).

Fixpoint collectTreeNodesWithSymbols (node : SyntaxNode)
    (wantedNodes : list jsstring) (parentLineage : list jsstring)
  : list ASTNode.t :=
  match node with
  | SNode ty sp ep txt children =>
      let here :=
        if existsb (jsstring_eqb ty) wantedNodes then
          [ ASTNode.mk ty (mkPosition (row sp) (column sp))
              (mkPosition (row ep) (column ep)) txt
              (extractSymbolName node) (Some (extractSymbolType node))
              (if Z.of_nat (List.length parentLineage) >? 0
               then Some parentLineage else None) ]
        else [] in
      let newParentLineage :=
        match extractSymbolName node with
        | Some currentSymbolName =>
            if negb (falsy currentSymbolName) && isContainerNode ty
            then parentLineage ++ [currentSymbolName]
            else parentLineage
        | None => parentLineage
        end in
      sortBy compareNodes
        (here ++
         flat_map (fun child =>
                     collectTreeNodesWithSymbols child wantedNodes
                                                 newParentLineage)
                  children)
  end.

(* ================================================================== *)
(** * The compositor and the assembler ([chunk-file.ts]) *)
(* ================================================================== *)

(** [xs.length > 0 ? xs : undefined] *)
Definition nonEmpty {A} (xs : list A) : option (list A) :=
  if Z.of_nat (List.length xs) >? 0 then Some xs else None.

(* ------------------------------------------------------------------ *)
(** ** Paths and the environment *)

(** Node's [path.extname] for POSIX paths: trailing slashes are dropped,
    the base name is what follows the last slash, and the extension
    starts at its last dot, unless that dot is its first character or the
    base name is [".."]. *)
Fixpoint dropSlashes (s : jsstring) : jsstring :=
  match s with
  | c :: r => if ascii_eqb c "/" then dropSlashes r else s
  | [] => []
  end.

Fixpoint takeToSlash (s : jsstring) : jsstring :=
  match s with
  | c :: r => if ascii_eqb c "/" then [] else c :: takeToSlash r
  | [] => []
  end.

(** The reversed extension without its dot, and the reversed rest of the
    base name before that dot; [None] when there is no dot. *)
Fixpoint cutAtDot (revBase : jsstring) : option (jsstring * jsstring) :=
  match revBase with
  | [] => None
  | c :: r =>
      if ascii_eqb c "." then Some ([], r)
      else match cutAtDot r with
           | Some (e, pre) => Some (c :: e, pre)
           | None => None
           end
  end.

Definition extname (path : jsstring) : jsstring :=
  let revBase := takeToSlash (dropSlashes (rev path)) in
  match cutAtDot revBase with
  | None => []
  | Some (revExt, revPre) =>
      if jslength revPre =? 0 then []
      else if jsstring_eqb revBase (str "..") then []
      else "."%char :: rev revExt
  end.

(** What the engine takes from outside the repository: [fs.readFileSync],
    the parser of tree-sitter, [get_encoding] of tiktoken, and, for the
    scan of a repository, whether [fs.promises.stat] finds a directory at
    the root and the files the traversal of [discoverFiles] pushes onto
    [discoveredFiles], in the order it pushes them, when the traversal
    returns.  It need not return: [traverseDirectory] follows a symbolic
    link to a directory by calling itself on the real path and keeps no
    record of the directories it has been in, so a link that leads back
    to a directory above it is followed again and again; [None] stands
    for a traversal that never returns. *)
Record Env := mkEnv {
  readFileSync : jsstring -> Result jsstring;
  parse : Language -> jsstring -> Result SyntaxNode;
  get_encoding : JsValue -> Result Encoding;
  statIsDirectory : jsstring -> Result bool;
  discoveredFiles :
    jsstring -> list jsstring -> list jsstring -> option (list jsstring)
}.

Section Assembler.

(** [extractImportsExports] scans the text with regular expressions and
    cannot throw; its result only fills the [imports] and [exports] of
    the metadata, and it is taken as a parameter. *)
Variable extractImportsExports :
  jsstring -> jsstring -> list jsstring * list jsstring.

(** The chunks of [processASTNodeContent] and [processGapContent] for
    the splits of a unit that is over the budget. *)
Definition splitChunks (filePath language : jsstring)
    (symbolName symbolType : option jsstring)
    (parentLineage : option (list jsstring))
    (imports exports : list jsstring) (splits : list CodeSplit.t)
  : list FileChunk.t :=
  map (fun s =>
         FileChunk.mk (CodeSplit.content s)
           (ChunkMetadata.mk filePath language symbolName symbolType
              parentLineage split (CodeSplit.startLine s)
              (CodeSplit.endLine s) (nonEmpty imports) (nonEmpty exports))
           (CodeSplit.startLine s) (CodeSplit.endLine s)
           (CodeSplit.tokenCount s))
      splits.

Definition processASTNodeContent (node : ASTNode.t)
    (filePath language : jsstring) (maxTokens : Z) (tk : Tokenizer)
  : Result (list FileChunk.t) :=
  let nodeStartLine := row (ASTNode.startPosition node) + 1 in
  let nodeEndLine := row (ASTNode.endPosition node) + 1 in
  let '(imports, exports) :=
    extractImportsExports (ASTNode.text node) (ASTNode.type node) in
  tokenCount <- countTokens tk (ASTNode.text node) ;;
  if tokenCount <=? maxTokens then
    Ok [ FileChunk.mk (ASTNode.text node)
           (ChunkMetadata.mk filePath language (ASTNode.symbolName node)
              (ASTNode.symbolType node) (ASTNode.parentLineage node)
              ast_node nodeStartLine nodeEndLine
              (nonEmpty imports) (nonEmpty exports))
           nodeStartLine nodeEndLine tokenCount ]
  else
    splits <- splitCode tk (ASTNode.text node) nodeStartLine maxTokens ;;
    Ok (splitChunks filePath language (ASTNode.symbolName node)
          (ASTNode.symbolType node) (ASTNode.parentLineage node)
          imports exports splits).

Definition processGapContent (gapContent : jsstring) (startLine endLine : Z)
    (filePath language : jsstring) (maxTokens : Z) (tk : Tokenizer)
  : Result (list FileChunk.t) :=
  let '(imports, exports) := extractImportsExports gapContent (str "gap") in
  tokenCount <- countTokens tk gapContent ;;
  if tokenCount <=? maxTokens then
    Ok [ FileChunk.mk gapContent
           (ChunkMetadata.mk filePath language None None None
              gap startLine endLine (nonEmpty imports) (nonEmpty exports))
           startLine endLine tokenCount ]
  else
    splits <- splitCode tk gapContent startLine maxTokens ;;
    Ok (splitChunks filePath language None None None imports exports splits).

(** The [for] loop of [processFileWithCursor] over the sorted nodes; the
    state is the array [chunks] and the [cursor]. *)
Fixpoint processNodes (sourceLines : list jsstring)
    (filePath language : jsstring) (maxTokens : Z) (tk : Tokenizer)
    (nodes : list ASTNode.t) (chunks : list FileChunk.t) (cursor : Z)
  : Result (list FileChunk.t * Z) :=
  match nodes with
  | [] => Ok (chunks, cursor)
  | node :: rest =>
      let nodeStartLine := row (ASTNode.startPosition node) + 1 in
      let nodeEndLine := row (ASTNode.endPosition node) + 1 in
      chunks1 <-
        (if cursor <? nodeStartLine then
           let gapEndLine := nodeStartLine - 1 in
           let gapContent :=
             join NL (slice sourceLines (cursor - 1) gapEndLine) in
           if jslength (trim gapContent) >? 0 then
             gapChunks <- processGapContent gapContent cursor gapEndLine
                            filePath language maxTokens tk ;;
             Ok (chunks ++ gapChunks)
           else Ok chunks
         else Ok chunks) ;;
      nodeChunks <- processASTNodeContent node filePath language
                      maxTokens tk ;;
      processNodes sourceLines filePath language maxTokens tk rest
                   (chunks1 ++ nodeChunks) (nodeEndLine + 1)
  end.

Definition compareChunks (a b : FileChunk.t) : Z :=
  FileChunk.startLine a - FileChunk.startLine b.

Definition processFileWithCursor (fileContent : jsstring)
    (astNodes : list ASTNode.t) (filePath language : jsstring)
    (maxTokens : Z) (tk : Tokenizer) : Result (list FileChunk.t) :=
  let sourceLines := split_on newline fileContent in
  let sortedNodes := sortBy compareNodes astNodes in
  '(chunks, cursor) <-
    processNodes sourceLines filePath language maxTokens tk sortedNodes
                 [] 1 ;;
  chunks <-
    (if cursor <=? Z.of_nat (List.length sourceLines) then
       let trailingContent := join NL (sliceFrom sourceLines (cursor - 1)) in
       if jslength (trim trailingContent) >? 0 then
         trailingChunks <-
           processGapContent trailingContent cursor
             (Z.of_nat (List.length sourceLines))
             filePath language maxTokens tk ;;
         Ok (chunks ++ trailingChunks)
       else Ok chunks
     else Ok chunks) ;;
  Ok (sortBy compareChunks chunks).

(* ---------------------------------------------------------------- *)
(** ** [chunkFile] *)

(** [chunkFile({ filePath, maxTokens, modelName })].  [extname] gives the
    empty string or a name that starts with a dot, which no member
    inherited from [Object.prototype] has ([extname_not_inherited]), so
    [LANG_CONFIG[fileExtension]] is the own property or [undefined].
    Creating the parser, setting its language and [tokenizer.dispose()] of
    the [finally] block are taken not to throw. *)
Definition chunkFile (env : Env) (filePath : jsstring) (maxTokens : Z)
    (modelName : jsstring) : Result (list FileChunk.t) :=
  tryCatch
    (let fileExtension := extname filePath in
     match assoc fileExtension LANG_CONFIG with
     | None => Ok []
     | Some langConfig =>
         fileContent <-
           tryCatch (readFileSync env filePath)
             (fun error =>
                Throw (mkExn FileSystemError
                         (str "Failed to read file " ++ filePath
                          ++ str ": " ++ exnMessage error))) ;;
         tree <-
           tryCatch (parse env (ChunkConfig.language langConfig) fileContent)
             (fun error =>
                Throw (mkExn ParsingError
                         (str "Failed to parse " ++ filePath
                          ++ str ": " ++ exnMessage error))) ;;
         tokenizer <- createTokenizer (get_encoding env) modelName ;;
         let astNodes :=
           collectTreeNodesWithSymbols tree
             (ChunkConfig.wantedNodes langConfig) [] in
         processFileWithCursor fileContent astNodes filePath
           (ChunkConfig.name langConfig) maxTokens tokenizer
     end)
    (fun error =>
       match exnClass error with
       | FileSystemError | ParsingError => Throw error
       | _ =>
           Throw (mkExn ParsingError
                    (str "Unexpected error processing " ++ filePath
                     ++ str ": " ++ exnMessage error))
       end).

End Assembler.

(* ================================================================== *)
(** * The repository scan ([repository-scanner.ts]) *)
(* ================================================================== *)

(** What awaiting a promise gives: its value, its rejection, or nothing
    when the promise never settles. *)
Inductive Outcome (A : Type) : Type :=
  | Fulfilled (a : A)
  | Rejected (e : Exn)
  | Pending.
Arguments Fulfilled {A} a.
Arguments Rejected {A} e.
Arguments Pending {A}.

(** [discoverFiles]: the traversal records its errors and never throws.
    When it returns, the promise is fulfilled with
    [discoveredFiles.sort()]; when it does not, the promise never
    settles. *)
Definition discoverFiles (env : Env) (rootPath : jsstring)
    (extensions excludePatterns : list jsstring)
  : Outcome (list jsstring) :=
  match discoveredFiles env rootPath extensions excludePatterns with
  | Some found => Fulfilled (sortBy defaultCompare found)
  | None => Pending
  end.

Definition scanRepository (env : Env) (rootPath : jsstring)
    (extensions excludePatterns : list jsstring)
  : Outcome (list jsstring) :=
  match
    tryCatch
      (isDirectory <- statIsDirectory env rootPath ;;
       if negb isDirectory
       then Throw (mkExn PlainError
                     (str "Root path is not a directory: " ++ rootPath))
       else Ok tt)
      (fun error =>
         Throw (mkExn PlainError
                  (str "Cannot access root path " ++ rootPath
                   ++ str ": " ++ exnMessage error)))
  with
  | Throw error => Rejected error
  | Ok _ => discoverFiles env rootPath extensions excludePatterns
  end.

(* ================================================================== *)
(** * The batch orchestrator ([batch-processor.ts]) *)
(* ================================================================== *)

Module ProcessingError.
Record t := mk {
  type : ErrorType;
  filePath : jsstring;
  message : jsstring;
  recoverable : bool
}.
End ProcessingError.

Module FileProcessingResult.
Record t := mk {
  filePath : jsstring;
  chunks : list FileChunk.t;
  error : option ProcessingError.t
}.
End FileProcessingResult.

Module ProcessingStats.
Record t := mk {
  filesProcessed : Z;
  chunksCreated : Z;
  errors : list ProcessingError.t
}.
End ProcessingStats.

Module BatchProcessingResult.
Record t := mk {
  stats : ProcessingStats.t;
  chunks : list FileChunk.t
}.
End BatchProcessingResult.

Module BatchProcessingOptions.
Record t := mk {
  rootPath : jsstring;
  maxTokens : Z;
  modelName : jsstring;
  concurrency : option Z;
  extensions : option (list jsstring);
  excludePatterns : option (list jsstring);
  continueOnError : option bool
}.
End BatchProcessingOptions.

(** [validateBatchOptions(options)]: a check of its own, which neither
    [batchProcessFiles] nor [chunkFile] calls. *)
Definition validateBatchOptions (options : BatchProcessingOptions.t)
  : Result unit :=
  if falsy (BatchProcessingOptions.rootPath options) then
    Throw (mkExn PlainError (str "rootPath is required"))
  else if (BatchProcessingOptions.maxTokens options =? 0)
          || (BatchProcessingOptions.maxTokens options <=? 0) then
    Throw (mkExn PlainError (str "maxTokens must be a positive number"))
  else if falsy (BatchProcessingOptions.modelName options) then
    Throw (mkExn PlainError (str "modelName is required"))
  else if match BatchProcessingOptions.concurrency options with
          | Some c => c <=? 0
          | None => false
          end then
    Throw (mkExn PlainError (str "concurrency must be a positive number"))
  else if match BatchProcessingOptions.extensions options with
          | Some exts => Z.of_nat (List.length exts) =? 0
          | None => false
          end then
    Throw (mkExn PlainError (str "extensions array cannot be empty"))
  else Ok tt.

(** [determineErrorType]: every value the model throws is an [Error]. *)
Definition determineErrorType (error : Exn) : ErrorType :=
  let message := toLowerCase (exnMessage error) in
  if includes message (str "enoent") || includes message (str "eacces")
     || includes message (str "file")
  then file_system
  else if includes message (str "parse") || includes message (str "syntax")
  then parsing
  else if includes message (str "token") || includes message (str "tiktoken")
  then token_processing
  else if includes message (str "chroma") || includes message (str "database")
          || includes message (str "embedding")
  then database
  else parsing.

(** A promise is an object with an identity.  The body of the [async]
    function [processFileWithErrorHandling] has no [await], so its promise
    is settled when the call returns. *)
Record Promise := mkPromise {
  promiseId : nat;
  settled : Result FileProcessingResult.t
}.

(** [Promise.race] over promises that are all settled gives the outcome of
    the first of the array; over an empty array it never settles. *)
Definition race (ps : list Promise) : Outcome FileProcessingResult.t :=
  match ps with
  | [] => Pending
  | p :: _ =>
      match settled p with
      | Ok r => Fulfilled r
      | Throw e => Rejected e
      end
  end.

(** [Promise.all] over settled promises: the values in order, or the first
    rejection. *)
Fixpoint promiseAll (ps : list Promise)
  : Result (list FileProcessingResult.t) :=
  match ps with
  | [] => Ok []
  | p :: rest =>
      r <- settled p ;;
      rs <- promiseAll rest ;;
      Ok (r :: rs)
  end.

(** [arr.findIndex(pred)] *)
Fixpoint findIndex {A} (pred : A -> bool) (l : list A) : Z :=
  match l with
  | [] => -1
  | x :: r =>
      if pred x then 0
      else let i := findIndex pred r in if i <? 0 then -1 else i + 1
  end.

(** [arr.splice(index, 1)] for an index of the array. *)
Definition splice1 {A} (l : list A) (index : Z) : list A :=
  firstn (Z.to_nat index) l ++ skipn (S (Z.to_nat index)) l.

Section Batch.

Variable extractImportsExports :
  jsstring -> jsstring -> list jsstring * list jsstring.
Variable env : Env.

Definition processFileWithErrorHandling (filePath : jsstring)
    (maxTokens : Z) (modelName : jsstring) (continueOnError : bool)
  : Result FileProcessingResult.t :=
  tryCatch
    (chunks <- chunkFile extractImportsExports env filePath maxTokens
                         modelName ;;
     Ok (FileProcessingResult.mk filePath chunks None))
    (fun error =>
       let processingError :=
         ProcessingError.mk (determineErrorType error) filePath
                            (exnMessage error) continueOnError in
       if negb continueOnError then Throw error
       else Ok (FileProcessingResult.mk filePath [] (Some processingError))).

(** The variables of the loop of [processFilesWithConcurrency], and the
    next identity a new promise gets. *)
Record PoolState := mkPoolState {
  results : list FileProcessingResult.t;
  inProgress : list Promise;
  nextId : nat
}.

(** The [for] loop of [processFilesWithConcurrency].
    [Promise.resolve(completed)] wraps the result, which is no promise,
    in a new promise. *)
Fixpoint poolLoop (maxTokens : Z) (modelName : jsstring) (concurrency : Z)
    (continueOnError : bool) (filePaths : list jsstring) (st : PoolState)
  : Outcome PoolState :=
  match filePaths with
  | [] => Fulfilled st
  | filePath :: rest =>
      let start (st1 : PoolState) :=
        let processingPromise :=
          mkPromise (nextId st1)
            (processFileWithErrorHandling filePath maxTokens modelName
                                          continueOnError) in
        poolLoop maxTokens modelName concurrency continueOnError rest
          (mkPoolState (results st1)
                       (inProgress st1 ++ [processingPromise])
                       (S (nextId st1))) in
      if Z.of_nat (List.length (inProgress st)) >=? concurrency then
        match race (inProgress st) with
        | Fulfilled completed =>
            let resolved := mkPromise (nextId st) (Ok completed) in
            let index :=
              findIndex (fun p => Nat.eqb (promiseId p) (promiseId resolved))
                        (inProgress st) in
            start (mkPoolState (results st ++ [completed])
                     (if index >? -1 then splice1 (inProgress st) index
                      else inProgress st)
                     (S (nextId st)))
        | Rejected e => Rejected e
        | Pending => Pending
        end
      else start st
  end.

Definition processFilesWithConcurrency (filePaths : list jsstring)
    (maxTokens : Z) (modelName : jsstring) (concurrency : Z)
    (continueOnError : bool) : Outcome (list FileProcessingResult.t) :=
  match poolLoop maxTokens modelName concurrency continueOnError filePaths
                 (mkPoolState [] [] 0) with
  | Fulfilled st =>
      match promiseAll (inProgress st) with
      | Ok remainingResults => Fulfilled (results st ++ remainingResults)
      | Throw e => Rejected e
      end
  | Rejected e => Rejected e
  | Pending => Pending
  end.

(** The loop of [batchProcessFiles] that aggregates the results. *)
Fixpoint aggregate (rs : list FileProcessingResult.t)
    (allChunks : list FileChunk.t) (errors : list ProcessingError.t)
    (filesProcessed : Z)
  : list FileChunk.t * list ProcessingError.t * Z :=
  match rs with
  | [] => (allChunks, errors, filesProcessed)
  | result :: rest =>
      match FileProcessingResult.error result with
      | Some e => aggregate rest allChunks (errors ++ [e]) filesProcessed
      | None =>
          aggregate rest (allChunks ++ FileProcessingResult.chunks result)
                    errors (filesProcessed + 1)
      end
  end.

Definition orDefault {A} (o : option A) (d : A) : A :=
  match o with Some a => a | None => d end.

(** [batchProcessFiles(options)]; the times it measures are left out. *)
Definition batchProcessFiles (options : BatchProcessingOptions.t)
  : Outcome BatchProcessingResult.t :=
  let rootPath := BatchProcessingOptions.rootPath options in
  let maxTokens := BatchProcessingOptions.maxTokens options in
  let modelName := BatchProcessingOptions.modelName options in
  let concurrency :=
    orDefault (BatchProcessingOptions.concurrency options) 4 in
  let extensions :=
    orDefault (BatchProcessingOptions.extensions options)
              [str ".ts"; str ".tsx"] in
  let excludePatterns :=
    orDefault (BatchProcessingOptions.excludePatterns options) [] in
  let continueOnError :=
    orDefault (BatchProcessingOptions.continueOnError options) true in
  match scanRepository env rootPath extensions excludePatterns with
  | Rejected error =>
      Rejected (mkExn PlainError
                  (str "Failed to scan repository: " ++ exnMessage error))
  | Pending => Pending
  | Fulfilled filePaths =>
      if Z.of_nat (List.length filePaths) =? 0 then
        Fulfilled (BatchProcessingResult.mk (ProcessingStats.mk 0 0 []) [])
      else
        match processFilesWithConcurrency filePaths maxTokens modelName
                                          concurrency continueOnError with
        | Fulfilled results =>
            let '(allChunks, errors, filesProcessed) :=
              aggregate results [] [] 0 in
            Fulfilled
              (BatchProcessingResult.mk
                 (ProcessingStats.mk filesProcessed
                    (Z.of_nat (List.length allChunks)) errors)
                 allChunks)
        | Rejected e => Rejected e
        | Pending => Pending
        end
  end.

End Batch.

(* ================================================================== *)
(** * Spans, coverage and order: the vocabulary of the claims *)
(* ================================================================== *)

Definition nodeStartLine (n : ASTNode.t) : Z :=
  row (ASTNode.startPosition n) + 1.

Definition nodeEndLine (n : ASTNode.t) : Z :=
  row (ASTNode.endPosition n) + 1.

(** The number of lines of a file, and its line [l], counted from 1. *)
Definition totalLines (fileContent : jsstring) : Z :=
  Z.of_nat (List.length (split_on newline fileContent)).

Definition lineAt (fileContent : jsstring) (l : Z) : jsstring :=
  nth (Z.to_nat (l - 1)) (split_on newline fileContent) [].

(** Line [l] lies in the span of one of the chunks. *)
Definition covers (chunks : list FileChunk.t) (l : Z) : Prop :=
  exists c, In c chunks /\ FileChunk.startLine c <= l <= FileChunk.endLine c.

(** The spans are pairwise disjoint, each chunk ending before every later
    one starts. *)
Definition disjointInOrder (chunks : list FileChunk.t) : Prop :=
  StronglySorted (fun a b => FileChunk.endLine a < FileChunk.startLine b)
                 chunks.

(** The nodes follow one another without sharing a line, from line
    [cursor] on and inside a file of [total] lines: no node is nested in
    another or starts on the line where another ends. *)
Fixpoint nodesInOrder (cursor total : Z) (nodes : list ASTNode.t) : Prop :=
  match nodes with
  | [] => True
  | n :: rest =>
      cursor <= nodeStartLine n /\ nodeStartLine n <= nodeEndLine n
      /\ nodeEndLine n <= total
      /\ nodesInOrder (nodeEndLine n + 1) total rest
  end.

Definition notSplit (c : FileChunk.t) : Prop :=
  ChunkMetadata.chunkType (FileChunk.metadata c) <> split.

(** The order of the pairs (path of the file, first line). *)
Definition chunkOrder (a b : FileChunk.t) : Prop :=
  let pa := ChunkMetadata.filePath (FileChunk.metadata a) in
  let pb := ChunkMetadata.filePath (FileChunk.metadata b) in
  (jsstring_leb pa pb = true /\ pa <> pb)
  \/ (pa = pb /\ FileChunk.startLine a <= FileChunk.startLine b).

(* ================================================================== *)
(** * Invariants of the loops, used in the proofs *)
(* ================================================================== *)

(** [p] is what [text] starts with. *)
Definition isPrefix (p text : jsstring) : Prop := exists rest, text = p ++ rest.

(** The promise is fulfilled. *)
Definition settledOk (p : Promise) : Prop := exists r, settled p = Ok r.

(** Some split has been made, or the pending lines hold a line that is
    not blank. *)
Definition pendingText (st : SplitState) : Prop :=
  splits st <> [] \/
  existsb (fun l => negb (isBlank l)) (currentChunk st) = true.

(** What the loop keeps true of the chunks made so far and the cursor:
    the chunks are disjoint and in order, they lie between line 1 and the
    cursor, and every line before the cursor is in a chunk or is blank. *)
Definition covered (sourceLines : list jsstring)
    (chunks : list FileChunk.t) (cursor : Z) : Prop :=
  disjointInOrder chunks /\
  Forall (fun c => 1 <= FileChunk.startLine c
                   /\ FileChunk.startLine c <= FileChunk.endLine c
                   /\ FileChunk.endLine c < cursor) chunks /\
  forall l, 1 <= l < cursor ->
            covers chunks l \/ isBlank (nth (Z.to_nat (l - 1)) sourceLines []) = true.

(** The chunks a result adds to the aggregate. *)
Definition contribution (r : FileProcessingResult.t) : list FileChunk.t :=
  match FileProcessingResult.error r with
  | Some _ => []
  | None => FileProcessingResult.chunks r
  end.

(** The text was measured, and its count is within the budget. *)
Definition measuredWithin (tk : Tokenizer) (maxTokens : Z) (s : jsstring)
  : Prop :=
  exists n, countTokens tk s = Ok n /\ n <= maxTokens.

(** The count stored in a fragment of a long line is the count of its
    content, and is within the budget unless the fragment is the fallback
    character. *)
Definition fragmentOk (tk : Tokenizer) (maxTokens : Z) (s : CodeSplit.t)
  : Prop :=
  countTokens tk (CodeSplit.content s) = Ok (CodeSplit.tokenCount s) /\
  (CodeSplit.tokenCount s <= maxTokens
   \/ List.length (CodeSplit.content s) = 1%nat).

(** The count stored in a split is within the budget, unless the split is
    the fallback character. *)
Definition storedWithin (maxTokens : Z) (s : CodeSplit.t) : Prop :=
  CodeSplit.tokenCount s <= maxTokens
  \/ List.length (CodeSplit.content s) = 1%nat.

(** The loop of [splitCode] keeps the running count within the budget,
    and at 0 while no line is pending. *)
Definition runningWithin (maxTokens : Z) (st : SplitState) : Prop :=
  Forall (storedWithin maxTokens) (splits st) /\
  currentTokenCount st <= maxTokens /\
  (currentChunk st = [] -> currentTokenCount st = 0).

(* ================================================================== *)
(** * Concrete inputs, for running the model *)
(* ================================================================== *)

(** A [get_encoding] that knows the encodings of tiktoken by name and
    throws on anything else. *)
Definition strict_get_encoding (v : JsValue) : Result Encoding :=
  match v with
  | JString s =>
      if existsb (jsstring_eqb s)
           (map str [ "gpt2"; "r50k_base"; "p50k_base"; "p50k_edit";
                      "cl100k_base"; "o200k_base" ]%string)
      then Ok charEncoding
      else Throw (mkExn PlainError (str "Invalid encoding"))
  | _ => Throw (mkExn PlainError (str "Invalid encoding"))
  end.

(** A scan that finds no imports and no exports. *)
Definition noScan (content nodeType : jsstring)
  : list jsstring * list jsstring := ([], []).

(** The file of four lines: an empty line, then the class [A] with one
    method, and the tree the parser gives for it (rows count from 0). *)
Definition classText : jsstring :=
  str "class A {" ++ NL ++ str "  m() {}" ++ NL ++ str "}".

Definition classFile : jsstring := NL ++ classText.

Definition classTree : SyntaxNode :=
  SNode (str "program") (mkPosition 1 0) (mkPosition 3 1) classText
    [ SNode (str "class_declaration") (mkPosition 1 0) (mkPosition 3 1)
        classText
        [ SNode (str "class") (mkPosition 1 0) (mkPosition 1 5) (str "class")
            [];
          SNode (str "type_identifier") (mkPosition 1 6) (mkPosition 1 7)
            (str "A") [];
          SNode (str "class_body") (mkPosition 1 8) (mkPosition 3 1)
            (str "{" ++ NL ++ str "  m() {}" ++ NL ++ str "}")
            [ SNode (str "method_definition") (mkPosition 2 2)
                (mkPosition 2 8) (str "m() {}")
                [ SNode (str "property_identifier") (mkPosition 2 2)
                    (mkPosition 2 3) (str "m") [] ] ] ] ].

(** The nodes the collector finds in it: the class and, nested in it, the
    method. *)
Definition classNodes : list ASTNode.t :=
  collectTreeNodesWithSymbols classTree (ChunkConfig.wantedNodes tsConfig) [].

(** A repository in which every path holds that file; the scan finds
    [b.ts] and [a.ts]. *)
Definition classEnv : Env :=
  mkEnv (fun _ => Ok classFile) (fun _ _ => Ok classTree) strict_get_encoding
        (fun _ => Ok true) (fun _ _ _ => Some [str "b.ts"; str "a.ts"]).

(** The file of one line with no syntax node the configuration wants. *)
Definition plainFile : jsstring := str "x;".

Definition plainTree : SyntaxNode :=
  SNode (str "program") (mkPosition 0 0) (mkPosition 0 2) plainFile
    [ SNode (str "expression_statement") (mkPosition 0 0) (mkPosition 0 2)
        plainFile [] ].

Definition plainEnv : Env :=
  mkEnv (fun _ => Ok plainFile) (fun _ _ => Ok plainTree) strict_get_encoding
        (fun _ => Ok true) (fun _ _ _ => Some [str "a.ts"]).

(** An encoder that, as tiktoken does, throws on a text that holds the
    special token [<|endoftext|>], and a file that holds it. *)
Definition guardedEncoding : Encoding :=
  fun text =>
    if includes text (str "<|endoftext|>")
    then Throw (mkExn PlainError
                  (str "The text contains a special token that is not allowed"))
    else Ok (map nat_of_ascii text).

Definition markerFile : jsstring := str "const s = '<|endoftext|>';".

Definition markerTree : SyntaxNode :=
  SNode (str "program") (mkPosition 0 0) (mkPosition 0 26) markerFile
    [ SNode (str "lexical_declaration") (mkPosition 0 0) (mkPosition 0 26)
        markerFile
        [ SNode (str "const") (mkPosition 0 0) (mkPosition 0 5) (str "const")
            [];
          SNode (str "variable_declarator") (mkPosition 0 6) (mkPosition 0 25)
            (str "s = '<|endoftext|>'")
            [ SNode (str "identifier") (mkPosition 0 6) (mkPosition 0 7)
                (str "s") [] ] ] ].

Definition markerEnv : Env :=
  mkEnv (fun _ => Ok markerFile) (fun _ _ => Ok markerTree)
        (fun _ => Ok guardedEncoding)
        (fun _ => Ok true) (fun _ _ _ => Some [str "src/chunk-file.ts"]).

(** A file of four lines with one function on its third line, between a
    comment followed by an empty line and a closing comment. *)
Definition functionFile : jsstring :=
  str "// top" ++ NL ++ NL ++ str "function f() {}" ++ NL ++ str "// end".

Definition functionNodes : list ASTNode.t :=
  [ ASTNode.mk (str "function_declaration") (mkPosition 2 0)
      (mkPosition 2 15) (str "function f() {}") (Some (str "f"))
      (Some (str "function")) None ].

Definition functionChunks : list FileChunk.t :=
  Eval vm_compute in
    match processFileWithCursor noScan functionFile functionNodes
            (str "f.ts") (str "typescript") 100 charTokenizer with
    | Ok chunks => chunks
    | Throw _ => []
    end.

(* ================================================================== *)
(** * The rest of the tokenizer ([tokenizer.ts]) *)
(* ================================================================== *)

(** [Tokenizer.getModelName] *)
Definition getModelName (tk : Tokenizer) : jsstring := modelName tk.

(** The function [countTokens(text, modelName)] of the module, beside the
    method of the same name: it creates a tokenizer, counts with it, and
    disposes of it in a [finally] block, which is taken not to throw. *)
Module TokenizerModule.
Definition countTokens (get_encoding : JsValue -> Result Encoding)
    (text modelName : jsstring) : Result Z :=
  tokenizer <- createTokenizer get_encoding modelName ;;
  countTokens tokenizer text.
End TokenizerModule.

(* ================================================================== *)
(** * The splits of [splitCode]: vocabulary and the invariant of its loop *)
(* ================================================================== *)

Definition noNewline (l : jsstring) : Prop :=
  forallb (fun c => negb (ascii_eqb c newline)) l = true.

(** A split lies between the line [first] and the line before [bound],
    and spans as many lines as its content has. *)
Definition spanOk (first bound : Z) (s : CodeSplit.t) : Prop :=
  first <= CodeSplit.startLine s /\
  CodeSplit.startLine s <= CodeSplit.endLine s /\
  CodeSplit.endLine s < bound /\
  totalLines (CodeSplit.content s)
  = CodeSplit.endLine s - CodeSplit.startLine s + 1.

(** [b] comes after [a]: it starts after the line where [a] ends, or both
    are pieces of one and the same line. *)
Definition comesAfter (a b : CodeSplit.t) : Prop :=
  CodeSplit.endLine a < CodeSplit.startLine b \/
  (CodeSplit.startLine a = CodeSplit.endLine a /\
   CodeSplit.startLine b = CodeSplit.endLine b /\
   CodeSplit.endLine a = CodeSplit.startLine b).

(** [n] is the sum of the counts of the lines, each counted on its own. *)
Definition sumOfLineCounts (tk : Tokenizer) (lines : list jsstring) (n : Z)
  : Prop :=
  exists counts,
    Forall2 (fun l c => countTokens tk l = Ok c) lines counts /\
    n = fold_right Z.add 0 counts.

(** What the loop of [splitCode] keeps true before the line of index [i]:
    the pending lines are the lines from [currentStartLine] on, the splits
    made lie before them, in order, and every stored count, the running
    one as well, is a sum of the counts of single lines. *)
Definition spanInvariant (tk : Tokenizer) (startLine i : Z) (st : SplitState)
  : Prop :=
  currentStartLine st + Z.of_nat (List.length (currentChunk st))
  = startLine + i /\
  startLine <= currentStartLine st /\
  Forall noNewline (currentChunk st) /\
  Forall (spanOk startLine (currentStartLine st)) (splits st) /\
  StronglySorted comesAfter (splits st) /\
  sumOfLineCounts tk (currentChunk st) (currentTokenCount st) /\
  Forall (fun s => sumOfLineCounts tk (split_on newline (CodeSplit.content s))
                                   (CodeSplit.tokenCount s))
         (splits st).

(** Every line before the one of index [i] that is not blank lies in a
    split already made, or is among the pending lines. *)
Definition linesKept (all : list jsstring) (startLine i : Z) (st : SplitState)
  : Prop :=
  forall k, 0 <= k < i -> isBlank (nth (Z.to_nat k) all []) = false ->
    (exists c, In c (splits st) /\
               CodeSplit.startLine c <= startLine + k <= CodeSplit.endLine c)
    \/ (currentStartLine st <= startLine + k /\
        existsb (fun l => negb (isBlank l)) (currentChunk st) = true).

(** The error [countTokens] throws when the encoder throws on some text. *)
Definition countFailure (tk : Tokenizer) (e : Exn) : Prop :=
  exists text error,
    encoding tk text = Throw error /\
    e = mkExn TokenProcessingError
          (str "Failed to count tokens: " ++ exnMessage error).

(** The error of [splitCode] for a budget that is not positive. *)
Definition budgetError : Exn :=
  mkExn TokenProcessingError (str "maxTokens must be greater than 0").

(* ================================================================== *)
(** * The validator of splits ([split.ts]) *)
(* ================================================================== *)

(** [`${n}`] for an integer [n]: its decimal digits, after a minus sign
    when it is negative. *)
Definition numberToString (n : Z) : jsstring :=
  str (NilZero.string_of_int (Z.to_int n)).

Module SplitValidation.
Record t := mk {
  isValid : bool;
  errors : list jsstring;
  totalLines : Z;
  coveredLines : Z
}.
End SplitValidation.

(** The first loop of [validateSplits], from the split of index [i] on. *)
Fixpoint validateSplits_each (splits : list CodeSplit.t) (i : Z)
    (errors : list jsstring) (coveredLines : Z) : list jsstring * Z :=
  match splits with
  | [] => (errors, coveredLines)
  | aSplit :: rest =>
      let errors :=
        if CodeSplit.startLine aSplit >? CodeSplit.endLine aSplit
        then errors ++
             [ str "Split " ++ numberToString i ++ str ": startLine ("
               ++ numberToString (CodeSplit.startLine aSplit)
               ++ str ") > endLine ("
               ++ numberToString (CodeSplit.endLine aSplit) ++ str ")" ]
        else errors in
      let contentLines :=
        Z.of_nat (List.length (split_on newline (CodeSplit.content aSplit))) in
      let expectedLines :=
        CodeSplit.endLine aSplit - CodeSplit.startLine aSplit + 1 in
      let errors :=
        if negb (contentLines =? expectedLines)
        then errors ++
             [ str "Split " ++ numberToString i ++ str ": content has "
               ++ numberToString contentLines
               ++ str " lines but line range indicates "
               ++ numberToString expectedLines ]
        else errors in
      let errors :=
        if CodeSplit.tokenCount aSplit <=? 0
        then errors ++
             [ str "Split " ++ numberToString i
               ++ str ": invalid token count "
               ++ numberToString (CodeSplit.tokenCount aSplit) ]
        else errors in
      validateSplits_each rest (i + 1) errors (coveredLines + expectedLines)
  end.

(** Its second loop, over the neighbours in the sorted array: [prev] is
    [sortedSplits[i - 1]]. *)
Fixpoint validateSplits_overlaps (prev : CodeSplit.t)
    (rest : list CodeSplit.t) (errors : list jsstring) : list jsstring :=
  match rest with
  | [] => errors
  | current :: rest' =>
      validateSplits_overlaps current rest'
        (if CodeSplit.endLine prev >=? CodeSplit.startLine current
         then errors ++
              [ str "Overlap between splits: "
                ++ numberToString (CodeSplit.endLine prev) ++ str " >= "
                ++ numberToString (CodeSplit.startLine current) ]
         else errors)
  end.

Definition compareSplits (a b : CodeSplit.t) : Z :=
  CodeSplit.startLine a - CodeSplit.startLine b.

Definition validateSplits (splits : list CodeSplit.t)
    (originalStartLine originalEndLine : Z) : SplitValidation.t :=
  let '(errors, coveredLines) := validateSplits_each splits 0 [] 0 in
  let sortedSplits := sortBy compareSplits splits in
  let errors :=
    match sortedSplits with
    | [] => errors
    | first :: rest => validateSplits_overlaps first rest errors
    end in
  let totalLines := originalEndLine - originalStartLine + 1 in
  SplitValidation.mk (Z.of_nat (List.length errors) =? 0) errors totalLines
                     coveredLines.

(** What the validator asks of one split, and of two. *)
Definition wellFormedSplit (s : CodeSplit.t) : Prop :=
  CodeSplit.startLine s <= CodeSplit.endLine s /\
  totalLines (CodeSplit.content s)
  = CodeSplit.endLine s - CodeSplit.startLine s + 1 /\
  0 < CodeSplit.tokenCount s.

Definition disjointSpans (a b : CodeSplit.t) : Prop :=
  CodeSplit.endLine a < CodeSplit.startLine b \/
  CodeSplit.endLine b < CodeSplit.startLine a.

(** The splits are apart: none is blank, and each ends before the next
    one starts. *)
Definition splitsApart (splits : list CodeSplit.t) : Prop :=
  StronglySorted
    (fun a b => CodeSplit.endLine a < CodeSplit.startLine b) splits /\
  Forall (fun s => isBlank (CodeSplit.content s) = false) splits.

(* ================================================================== *)
(** * The other functions of [chunk-file.ts] *)
(* ================================================================== *)

(** [collectTreeNodes]: the collector without the symbols; its nodes have
    no [symbolName], [symbolType] or [parentLineage]. *)
Fixpoint collectTreeNodes (node : SyntaxNode) (wantedNodes : list jsstring)
  : list ASTNode.t :=
  match node with
  | SNode ty sp ep txt children =>
      let here :=
        if existsb (jsstring_eqb ty) wantedNodes then
          [ ASTNode.mk ty (mkPosition (row sp) (column sp))
              (mkPosition (row ep) (column ep)) txt None None None ]
        else [] in
      sortBy compareNodes
        (here ++
         flat_map (fun child => collectTreeNodes child wantedNodes) children)
  end.

Module CodeGap.
Record t := mk {
  content : jsstring;
  startLine : Z;
  endLine : Z
}.
End CodeGap.

(** The [for] loop of [extractGaps]; the state is the array [gaps] and
    [currentLine]. *)
Fixpoint extractGaps_loop (sourceLines : list jsstring)
    (nodes : list ASTNode.t) (gaps : list CodeGap.t) (currentLine : Z)
  : list CodeGap.t :=
  match nodes with
  | [] => gaps
  | node :: rest =>
      let nodeStartLine := row (ASTNode.startPosition node) + 1 in
      let gaps :=
        if currentLine <? nodeStartLine then
          let gapStartLine := currentLine in
          let gapEndLine := nodeStartLine - 1 in
          let gapLines := slice sourceLines (gapStartLine - 1) gapEndLine in
          let gapContent := join NL gapLines in
          if jslength (trim gapContent) >? 0
          then gaps ++ [CodeGap.mk gapContent gapStartLine gapEndLine]
          else gaps
        else gaps in
      extractGaps_loop sourceLines rest gaps
                       (row (ASTNode.endPosition node) + 2)
  end.

(** [extractGaps(nodes, sourceCode)] *)
Definition extractGaps (nodes : list ASTNode.t) (sourceCode : jsstring)
  : list CodeGap.t :=
  let sourceLines := split_on newline sourceCode in
  if Z.of_nat (List.length nodes) =? 0 then
    if jslength (trim sourceCode) >? 0
    then [CodeGap.mk sourceCode 1 (Z.of_nat (List.length sourceLines))]
    else []
  else
    let gaps := extractGaps_loop sourceLines nodes [] 1 in
    match nth_error nodes (List.length nodes - 1) with
    | Some lastNode =>
        let lastNodeEndLine := row (ASTNode.endPosition lastNode) + 1 in
        if lastNodeEndLine <? Z.of_nat (List.length sourceLines) then
          let gapStartLine := lastNodeEndLine + 1 in
          let gapEndLine := Z.of_nat (List.length sourceLines) in
          let gapLines := slice sourceLines (gapStartLine - 1) gapEndLine in
          let gapContent := join NL gapLines in
          if jslength (trim gapContent) >? 0
          then gaps ++ [CodeGap.mk gapContent gapStartLine gapEndLine]
          else gaps
        else gaps
    | None => gaps
    end.

Module FileCoverage.
Record t := mk {
  nodes : list ASTNode.t;
  gaps : list CodeGap.t;
  totalLines : Z;
  coveredLines : Z
}.
End FileCoverage.

(** [getCompleteFileCoverage(sourceCode, nodes)] *)
Definition getCompleteFileCoverage (sourceCode : jsstring)
    (nodes : list ASTNode.t) : FileCoverage.t :=
  let gaps := extractGaps nodes sourceCode in
  let sourceLines := split_on newline sourceCode in
  let coveredLines :=
    fold_left
      (fun coveredLines node =>
         coveredLines
         + (row (ASTNode.endPosition node) - row (ASTNode.startPosition node)
            + 1))
      nodes 0 in
  let coveredLines :=
    fold_left
      (fun coveredLines gap =>
         coveredLines + (CodeGap.endLine gap - CodeGap.startLine gap + 1))
      gaps coveredLines in
  FileCoverage.mk nodes gaps (Z.of_nat (List.length sourceLines))
                  coveredLines.

Module LineRange.
Record t := mk {
  startLine : Z;
  endLine : Z
}.
End LineRange.

(** A JavaScript number is a binary64 float; the integers the validator
    divides are far below 2^53 and are converted exactly. *)
Definition numberOfZ (z : Z) : PrimFloat.float :=
  if z <? 0
  then PrimFloat.opp (PrimFloat.of_uint63 (Uint63.of_Z (- z)))
  else PrimFloat.of_uint63 (Uint63.of_Z z).

Module CoverageValidation.
Record t := mk {
  isComplete : bool;
  totalLines : Z;
  coveredLines : Z;
  coveragePercentage : PrimFloat.float;
  missingRanges : list LineRange.t
}.
End CoverageValidation.

Definition compareRanges (a b : LineRange.t) : Z :=
  LineRange.startLine a - LineRange.startLine b.

(** The loop of [validateFileCoverage] over the sorted ranges. *)
Fixpoint missingRanges_loop (coveredRanges : list LineRange.t)
    (missingRanges : list LineRange.t) (currentLine : Z)
  : list LineRange.t * Z :=
  match coveredRanges with
  | [] => (missingRanges, currentLine)
  | range :: rest =>
      let missingRanges :=
        if currentLine <? LineRange.startLine range
        then missingRanges ++
             [LineRange.mk currentLine (LineRange.startLine range - 1)]
        else missingRanges in
      missingRanges_loop rest missingRanges
        (Z.max currentLine (LineRange.endLine range + 1))
  end.

(** [validateFileCoverage(sourceCode, nodes, gaps)] *)
Definition validateFileCoverage (sourceCode : jsstring)
    (nodes : list ASTNode.t) (gaps : list CodeGap.t) : CoverageValidation.t :=
  let sourceLines := split_on newline sourceCode in
  let totalLines := Z.of_nat (List.length sourceLines) in
  let coveredRanges :=
    map (fun node =>
           LineRange.mk (row (ASTNode.startPosition node) + 1)
                        (row (ASTNode.endPosition node) + 1)) nodes
    ++ map (fun gap =>
              LineRange.mk (CodeGap.startLine gap) (CodeGap.endLine gap)) gaps in
  let coveredRanges := sortBy compareRanges coveredRanges in
  let '(missingRanges, currentLine) :=
    missingRanges_loop coveredRanges [] 1 in
  let missingRanges :=
    if currentLine <=? totalLines
    then missingRanges ++ [LineRange.mk currentLine totalLines]
    else missingRanges in
  let coveredLines :=
    totalLines
    - fold_left
        (fun sum range =>
           sum + (LineRange.endLine range - LineRange.startLine range + 1))
        missingRanges 0 in
  CoverageValidation.mk
    (Z.of_nat (List.length missingRanges) =? 0)
    totalLines
    coveredLines
    (if totalLines >? 0
     then PrimFloat.mul
            (PrimFloat.div (numberOfZ coveredLines) (numberOfZ totalLines))
            (numberOfZ 100)
     else numberOfZ 100)
    missingRanges.

(** Line [l] lies in one of the ranges. *)
Definition inRanges (ranges : list LineRange.t) (l : Z) : Prop :=
  exists r, In r ranges /\ LineRange.startLine r <= l <= LineRange.endLine r.

(** The ranges [validateFileCoverage] is given: those of the nodes and of
    the gaps. *)
Definition givenRanges (nodes : list ASTNode.t) (gaps : list CodeGap.t)
  : list LineRange.t :=
  map (fun node =>
         LineRange.mk (row (ASTNode.startPosition node) + 1)
                      (row (ASTNode.endPosition node) + 1)) nodes
  ++ map (fun gap =>
            LineRange.mk (CodeGap.startLine gap) (CodeGap.endLine gap)) gaps.

(** The lines [getCompleteFileCoverage] counts for the nodes and for the
    gaps. *)
Definition linesCounted (nodes : list ASTNode.t) (gaps : list CodeGap.t)
  : Z :=
  fold_right
    (fun node n =>
       row (ASTNode.endPosition node) - row (ASTNode.startPosition node)
       + 1 + n) 0 nodes
  + fold_right
      (fun gap n => CodeGap.endLine gap - CodeGap.startLine gap + 1 + n)
      0 gaps.

(** A gap that lies before line [cursor], is not blank, and holds the
    lines of its span. *)
Definition gapOk (sourceLines : list jsstring) (cursor : Z)
    (gap : CodeGap.t) : Prop :=
  1 <= CodeGap.startLine gap <= CodeGap.endLine gap
  /\ CodeGap.endLine gap < cursor
  /\ isBlank (CodeGap.content gap) = false
  /\ CodeGap.content gap
     = join NL (slice sourceLines (CodeGap.startLine gap - 1)
                      (CodeGap.endLine gap)).

(** What the loop of [extractGaps] keeps, for the nodes it has passed, the
    gaps it has found and its current line: the gaps are as above, the
    lines counted are lines before the current line, and every line before
    it is in a node, in a gap, or blank. *)
Definition gapsInvariant (sourceLines : list jsstring)
    (passed : list ASTNode.t) (gaps : list CodeGap.t) (cursor : Z) : Prop :=
  Forall (gapOk sourceLines cursor) gaps
  /\ 0 <= linesCounted passed gaps <= cursor - 1
  /\ forall l, 1 <= l < cursor ->
       inRanges (givenRanges passed gaps) l
       \/ isBlank (nth (Z.to_nat (l - 1)) sourceLines []) = true.

Section Compositor.

Variable extractImportsExports :
  jsstring -> jsstring -> list jsstring * list jsstring.

(** [processASTNodes]: the loop over the nodes pushes what
    [processASTNodeContent] makes of each, the body of the loop being the
    body of that function. *)
Fixpoint processASTNodes (astNodes : list ASTNode.t)
    (filePath language : jsstring) (maxTokens : Z) (tk : Tokenizer)
  : Result (list FileChunk.t) :=
  match astNodes with
  | [] => Ok []
  | node :: rest =>
      nodeChunks <- processASTNodeContent extractImportsExports node filePath
                      language maxTokens tk ;;
      chunks <- processASTNodes rest filePath language maxTokens tk ;;
      Ok (nodeChunks ++ chunks)
  end.

(** [processGaps] *)
Fixpoint processGaps (gaps : list CodeGap.t) (filePath language : jsstring)
    (maxTokens : Z) (tk : Tokenizer) : Result (list FileChunk.t) :=
  match gaps with
  | [] => Ok []
  | aGap :: rest =>
      gapChunks <- processGapContent extractImportsExports
                     (CodeGap.content aGap) (CodeGap.startLine aGap)
                     (CodeGap.endLine aGap) filePath language maxTokens tk ;;
      chunks <- processGaps rest filePath language maxTokens tk ;;
      Ok (gapChunks ++ chunks)
  end.

End Compositor.

(* ------------------------------------------------------------------ *)
(** ** Vocabulary for the collectors *)

(** The nodes of a tree: the node, then those of its children in order. *)
Fixpoint preorder (node : SyntaxNode) : list SyntaxNode :=
  match node with
  | SNode _ _ _ _ children => node :: flat_map preorder children
  end.

(** The [ASTNode] the collector makes of a syntax node, without symbols. *)
Definition plainNode (node : SyntaxNode) : ASTNode.t :=
  ASTNode.mk (SyntaxNodeFields.type node)
    (mkPosition (row (SyntaxNodeFields.startPosition node))
                (column (SyntaxNodeFields.startPosition node)))
    (mkPosition (row (SyntaxNodeFields.endPosition node))
                (column (SyntaxNodeFields.endPosition node)))
    (SyntaxNodeFields.text node) None None None.

Definition isWanted (wantedNodes : list jsstring) (node : SyntaxNode) : bool :=
  existsb (jsstring_eqb (SyntaxNodeFields.type node)) wantedNodes.

(** An [ASTNode] with its symbols taken away. *)
Definition withoutSymbols (a : ASTNode.t) : ASTNode.t :=
  ASTNode.mk (ASTNode.type a) (ASTNode.startPosition a)
             (ASTNode.endPosition a) (ASTNode.text a) None None None.

(** [a] starts no later than [b]: on an earlier row, or on the same row
    and no later column. *)
Definition startsNoLater (a b : ASTNode.t) : Prop :=
  row (ASTNode.startPosition a) < row (ASTNode.startPosition b) \/
  (row (ASTNode.startPosition a) = row (ASTNode.startPosition b) /\
   column (ASTNode.startPosition a) <= column (ASTNode.startPosition b)).

(* ------------------------------------------------------------------ *)
(** ** Vocabulary for the chunks of a file *)

(** The loop over the nodes ends with the cursor after the last node, or
    where it was when there is no node. *)
Definition endsAt (nodes : list ASTNode.t) (cursor cursor' : Z) : Prop :=
  (nodes = [] /\ cursor' = cursor) \/
  exists lastNode,
    nth_error nodes (List.length nodes - 1) = Some lastNode /\
    cursor' = row (ASTNode.endPosition lastNode) + 1 + 1.

(** What is true of every chunk of a file: its metadata name the file and
    the language and repeat its lines, and a chunk that is a gap has no
    symbol. *)
Definition chunkInFile (filePath language : jsstring) (c : FileChunk.t)
  : Prop :=
  ChunkMetadata.filePath (FileChunk.metadata c) = filePath /\
  ChunkMetadata.language (FileChunk.metadata c) = language /\
  ChunkMetadata.startLine (FileChunk.metadata c) = FileChunk.startLine c /\
  ChunkMetadata.endLine (FileChunk.metadata c) = FileChunk.endLine c /\
  (ChunkMetadata.chunkType (FileChunk.metadata c) = gap ->
   ChunkMetadata.symbolName (FileChunk.metadata c) = None /\
   ChunkMetadata.symbolType (FileChunk.metadata c) = None /\
   ChunkMetadata.parentLineage (FileChunk.metadata c) = None).

(* ================================================================== *)
(** * The other functions of [repository-scanner.ts] and
      [batch-processor.ts] *)
(* ================================================================== *)

(** [hasMatchingExtension(filePath, extensions)] *)
Definition hasMatchingExtension (filePath : jsstring)
    (extensions : list jsstring) : bool :=
  let fileExtension := toLowerCase (extname filePath) in
  existsb (fun ext => jsstring_eqb (toLowerCase ext) fileExtension)
          extensions.

Module ScanOptions.
Record t := mk {
  rootPath : jsstring;
  extensions : list jsstring;
  excludePatterns : list jsstring
}.
End ScanOptions.

(** [createDefaultScanOptions(rootPath)] *)
Definition createDefaultScanOptions (rootPath : jsstring) : ScanOptions.t :=
  ScanOptions.mk rootPath
    [str ".ts"; str ".tsx"]
    (map str
       [ "**/*.d.ts"; "**/*.test.ts"; "**/*.test.tsx"; "**/*.spec.ts";
         "**/*.spec.tsx"; "**/dist/**"; "**/build/**"; "**/coverage/**";
         "**/.next/**"; "**/.nuxt/**" ]%string).

Section Repository.

Variable extractImportsExports :
  jsstring -> jsstring -> list jsstring * list jsstring.
Variable env : Env.

(** [processRepository(rootPath, maxTokens, modelName, concurrency)] *)
Definition processRepository (rootPath : jsstring) (maxTokens : Z)
    (modelName : jsstring) (concurrency : Z)
  : Outcome BatchProcessingResult.t :=
  let defaultOptions := createDefaultScanOptions rootPath in
  let batchOptions :=
    BatchProcessingOptions.mk rootPath maxTokens modelName (Some concurrency)
      (Some (ScanOptions.extensions defaultOptions))
      (Some (ScanOptions.excludePatterns defaultOptions))
      (Some true) in
  batchProcessFiles extractImportsExports env batchOptions.

End Repository.

(* ------------------------------------------------------------------ *)
(** ** Vocabulary for the pool *)

(** The values of the results in order, or the first error among them. *)
Fixpoint sequenceResults {A} (rs : list (Result A)) : Result (list A) :=
  match rs with
  | [] => Ok []
  | r :: rest =>
      a <- r ;;
      others <- sequenceResults rest ;;
      Ok (a :: others)
  end.

(** The number of times the loop of the pool waits, when it starts with
    [inFlight] promises in progress and has [files] files to start: one
    wait for every file that finds the pool full. *)
Definition waits (concurrency : Z) (inFlight files : nat) : nat :=
  Z.to_nat (Z.of_nat (inFlight + files)
            - Z.max concurrency (Z.of_nat inFlight)).

(* ================================================================== *)
(** * Vocabulary for the coverage of a file by its chunks *)
(* ================================================================== *)




Unset Implicit Arguments.

(* ================================================================== *)
(** * Facts about strings *)
(* ================================================================== *)

Lemma jsstring_eqb_eq a b : jsstring_eqb a b = true <-> a = b.
Proof.
  revert b; induction a as [|x a IH]; intros [|y b]; simpl; split; intro H;
    try discriminate; try reflexivity.
  - apply andb_true_iff in H as [H1 H2]. apply Ascii.eqb_eq in H1.
    apply IH in H2. now subst.
  - injection H as -> ->. apply andb_true_iff. split.
    + apply Ascii.eqb_refl.
    + now apply IH.
Qed.

Lemma trimStart_nil_iff s :
  trimStart s = [] <-> forallb isWhiteSpace s = true.
Proof.
  induction s as [|c r IH]; simpl.
  - tauto.
  - destruct (isWhiteSpace c); simpl.
    + exact IH.
    + split; discriminate.
Qed.

Lemma trimStart_head s :
  trimStart s = [] \/
  exists c r, trimStart s = c :: r /\ isWhiteSpace c = false.
Proof.
  induction s as [|c r IH]; simpl.
  - now left.
  - destruct (isWhiteSpace c) eqn:E.
    + exact IH.
    + right. now exists c, r.
Qed.

Lemma trimStart_suffix s : exists p, s = p ++ trimStart s.
Proof.
  induction s as [|c r [p IH]]; simpl.
  - now exists [].
  - destruct (isWhiteSpace c).
    + exists (c :: p). simpl. now rewrite <- IH.
    + now exists [].
Qed.

Lemma forallb_rev {A} (f : A -> bool) l : forallb f (rev l) = forallb f l.
Proof.
  induction l as [|x l IH]; simpl.
  - reflexivity.
  - rewrite forallb_app, IH. simpl. rewrite andb_true_r. apply andb_comm.
Qed.

Lemma length_zero_nil {A} (l : list A) : Z.of_nat (List.length l) = 0 <-> l = [].
Proof.
  destruct l; simpl; split; intro H; try reflexivity; try discriminate; lia.
Qed.

(** [s.trim().length === 0] holds exactly of the strings made of white
    space only. *)
Lemma isBlank_true_iff s :
  isBlank s = true <-> forallb isWhiteSpace s = true.
Proof.
  unfold isBlank, jslength, trim, trimEnd.
  rewrite Z.eqb_eq, length_zero_nil.
  split.
  - intro H. apply (f_equal (@rev ascii)) in H. rewrite rev_involutive in H.
    simpl in H. apply trimStart_nil_iff in H. rewrite forallb_rev in H.
    destruct (trimStart_head s) as [E | (c & r & E & Hc)].
    + now apply trimStart_nil_iff.
    + rewrite E in H. simpl in H. rewrite Hc in H. discriminate.
  - intro H. apply trimStart_nil_iff in H. rewrite H. reflexivity.
Qed.

Lemma isBlank_false_iff s :
  isBlank s = false <-> forallb isWhiteSpace s = false.
Proof.
  destruct (isBlank s) eqn:E, (forallb isWhiteSpace s) eqn:F; split; intro;
    try reflexivity; try discriminate.
  - apply isBlank_true_iff in E. congruence.
  - apply isBlank_true_iff in F. congruence.
Qed.

Lemma falsy_isBlank s : falsy s = true -> isBlank s = true.
Proof.
  unfold falsy, jslength. rewrite Z.eqb_eq, length_zero_nil. now intros ->.
Qed.

(** [join] undoes [split_on]. *)
Lemma split_on_nonempty d s : split_on d s <> [].
Proof.
  destruct s as [|c r]; simpl.
  - discriminate.
  - destruct (ascii_eqb c d).
    + discriminate.
    + destruct (split_on d r); discriminate.
Qed.

Lemma join_split_on d s : join [d] (split_on d s) = s.
Proof.
  induction s as [|c r IH]; simpl.
  - reflexivity.
  - destruct (ascii_eqb c d) eqn:E.
    + apply Ascii.eqb_eq in E. subst c. simpl.
      destruct (split_on d r) as [|p ps] eqn:S.
      * now apply split_on_nonempty in S.
      * simpl in *. now rewrite IH.
    + destruct (split_on d r) as [|p ps] eqn:S.
      * now apply split_on_nonempty in S.
      * simpl in *. now rewrite IH.
Qed.

(** [slice] from 0 and [sliceFrom], for an index inside the array. *)
Lemma slice_0 {A} (l : list A) k :
  0 <= k -> slice l 0 k = firstn (Z.to_nat k) l.
Proof.
  intro Hk. unfold slice, relIndex.
  destruct (k <? 0) eqn:E; [apply Z.ltb_lt in E; lia|].
  change (0 <? 0) with false. cbv iota.
  replace (Z.min 0 (Z.of_nat (List.length l))) with 0 by lia.
  rewrite Z.sub_0_r. simpl skipn.
  destruct (Z.le_gt_cases k (Z.of_nat (List.length l))) as [H | H].
  - now rewrite Z.min_l by lia.
  - rewrite Z.min_r by lia. rewrite Nat2Z.id, firstn_all.
    symmetry. apply firstn_all2. lia.
Qed.

Lemma sliceFrom_skipn {A} (l : list A) k :
  0 <= k -> sliceFrom l k = skipn (Z.to_nat k) l.
Proof.
  intro Hk. unfold sliceFrom, slice, relIndex.
  destruct (k <? 0) eqn:E; [apply Z.ltb_lt in E; lia|].
  destruct (Z.of_nat (List.length l) <? 0) eqn:E2; [apply Z.ltb_lt in E2; lia|].
  rewrite Z.min_id.
  destruct (Z.le_gt_cases k (Z.of_nat (List.length l))) as [H | H].
  - rewrite Z.min_l by lia. apply firstn_all2. rewrite length_skipn. lia.
  - rewrite Z.min_r by lia. rewrite Z.sub_diag. simpl.
    symmetry. apply skipn_all2. lia.
Qed.

(* ================================================================== *)
(** * The tokenizer: blank texts and unknown models *)
(* ================================================================== *)

Lemma countTokens_blank tk text :
  isBlank text = true -> countTokens tk text = Ok 0.
Proof.
  intro H. unfold countTokens. rewrite H, orb_true_r. reflexivity.
Qed.

Lemma countTokens_nonneg tk text n : countTokens tk text = Ok n -> 0 <= n.
Proof.
  unfold countTokens.
  destruct (falsy text || isBlank text).
  - simpl. intros [= <-]. lia.
  - destruct (encoding tk text); simpl; intros [= <-]. lia.
Qed.

(** A failure of [countTokens] is a [TokenProcessingError]. *)
Lemma countTokens_throw tk text e :
  countTokens tk text = Throw e -> exnClass e = TokenProcessingError.
Proof.
  unfold countTokens.
  destruct (falsy text || isBlank text).
  - discriminate.
  - destruct (encoding tk text); simpl; intros [= <-]; reflexivity.
Qed.

(** A model name that is neither in the table nor a member inherited from
    [Object.prototype] gets the encoding [cl100k_base], as every model of
    the table does. *)
Lemma encodingName_fallback mdl :
  existsb (jsstring_eqb mdl) Object_prototype_members = false ->
  orElse (getProperty SUPPORTED_MODELS mdl) (JString (str "cl100k_base"))
  = JString (str "cl100k_base").
Proof.
  intro H. unfold getProperty, SUPPORTED_MODELS. simpl assoc.
  repeat match goal with
         | |- context [jsstring_eqb mdl ?k] => destruct (jsstring_eqb mdl k)
         end; try reflexivity.
  rewrite H. reflexivity.
Qed.

(** For every other unknown name the constructor does fall back. *)
Lemma Tokenizer_new_fallback get_encoding mdl enc :
  existsb (jsstring_eqb mdl) Object_prototype_members = false ->
  get_encoding (JString (str "cl100k_base")) = Ok enc ->
  createTokenizer get_encoding mdl = Ok (mkTokenizer enc mdl).
Proof.
  intros Hm He. unfold createTokenizer, Tokenizer_new.
  rewrite (encodingName_fallback _ Hm). cbv zeta. rewrite He. reflexivity.
Qed.

(* ================================================================== *)
(** * The splitter: prefixes and reconstruction *)
(* ================================================================== *)

Lemma isPrefix_nil text : isPrefix [] text.
Proof. now exists text. Qed.

Lemma isPrefix_firstn n text : isPrefix (firstn n text) text.
Proof. exists (skipn n text). symmetry. apply firstn_skipn. Qed.

Lemma isPrefix_skipn p text :
  isPrefix p text -> text = p ++ skipn (List.length p) text.
Proof.
  intros [rest ->]. rewrite skipn_app, skipn_all, Nat.sub_diag. reflexivity.
Qed.

Lemma slice_0_isPrefix text k : isPrefix (slice text 0 k) text.
Proof.
  unfold slice, relIndex. change (0 <? 0) with false. cbv iota.
  replace (Z.min 0 (Z.of_nat (List.length text))) with 0 by lia.
  simpl skipn. apply isPrefix_firstn.
Qed.

Section SplitterFacts.

Variable tk : Tokenizer.
Variable maxTokens : Z.

Lemma accumulateParts_rest d parts cur r :
  accumulateParts tk maxTokens d parts false cur = Ok r ->
  isPrefix r (cur ++ concat (map (fun q => [d] ++ q) parts)).
Proof.
  revert cur. induction parts as [|part rest IH]; intros cur; simpl.
  - intros [= <-]. exists []. reflexivity.
  - destruct (countTokens tk (cur ++ d :: part)) as [n|e]; simpl;
      [|discriminate].
    destruct (n <=? maxTokens).
    + intro H. apply IH in H. destruct H as [s H]. exists s.
      rewrite <- H. rewrite <- !app_assoc. reflexivity.
    + intros [= <-]. now eexists.
Qed.

Lemma accumulateParts_prefix d text r :
  accumulateParts tk maxTokens d (split_on d text) true [] = Ok r ->
  isPrefix r text.
Proof.
  intro H. rewrite <- (join_split_on d text).
  destruct (split_on d text) as [|part rest]; simpl in *.
  - injection H as <-. apply isPrefix_nil.
  - destruct (countTokens tk part) as [n|e]; simpl in H; [|discriminate].
    destruct (n <=? maxTokens).
    + now apply accumulateParts_rest in H.
    + injection H as <-. apply isPrefix_nil.
Qed.

Lemma findBestSplit_loop_prefix text ds best r :
  isPrefix best text ->
  findBestSplit_loop tk text maxTokens ds best = Ok r ->
  isPrefix r text.
Proof.
  revert best. induction ds as [|d ds IH]; intros best Hb; simpl.
  - now intros [= <-].
  - destruct (accumulateParts tk maxTokens d (split_on d text) true [])
      as [cur|e] eqn:E; simpl; [|discriminate].
    apply IH. apply accumulateParts_prefix in E.
    now destruct (jslength cur >? jslength best).
Qed.

Lemma findBestSplit_prefix text ds r :
  findBestSplit tk text maxTokens ds = Ok r -> isPrefix r text.
Proof. apply findBestSplit_loop_prefix, isPrefix_nil. Qed.

Lemma findCharacterSplit_prefix text r :
  findCharacterSplit tk text maxTokens = Ok r -> isPrefix r text.
Proof.
  unfold findCharacterSplit.
  destruct findCharacterSplit_loop as [k|e]; simpl; [|discriminate].
  intros [= <-]. apply slice_0_isPrefix.
Qed.

(** The piece a turn of [splitLongLine] takes starts the remaining text,
    and is not empty while text remains. *)
Lemma nextSplit_prefix text r :
  nextSplit tk text maxTokens = Ok r ->
  isPrefix r text /\ (text <> [] -> r <> []).
Proof.
  unfold nextSplit.
  destruct (findBestSplit tk text maxTokens delimiters) as [b|e] eqn:E;
    simpl; [|discriminate].
  apply findBestSplit_prefix in E.
  assert (Hfinal : forall b', isPrefix b' text ->
            let r' := if jslength b' =? 0 then charAt0 text else b' in
            isPrefix r' text /\ (text <> [] -> r' <> [])).
  { intros b' Hb'. simpl. destruct (jslength b' =? 0) eqn:Z0.
    - split; [apply isPrefix_firstn|].
      destruct text; [congruence | discriminate].
    - split; [assumption|]. intros _ ->. discriminate. }
  destruct (jslength b =? 0).
  - destruct (findCharacterSplit tk text maxTokens) as [b'|e] eqn:E';
      simpl; [|discriminate].
    apply findCharacterSplit_prefix in E'. intros [= <-]. now apply Hfinal.
  - simpl. intros [= <-]. now apply Hfinal.
Qed.

Lemma splitLongLine_loop_spec lineNumber fuel :
  forall remaining acc out,
    (List.length remaining < fuel)%nat ->
    splitLongLine_loop fuel tk lineNumber maxTokens remaining acc = Ok out ->
    exists new,
      out = acc ++ new /\
      Forall (fun s => CodeSplit.startLine s = lineNumber
                       /\ CodeSplit.endLine s = lineNumber) new /\
      concat (map CodeSplit.content new) = remaining.
Proof.
  induction fuel as [|fuel IH]; intros remaining acc out Hlen; [lia|].
  simpl. destruct (jslength remaining >? 0) eqn:Hpos.
  - destruct (nextSplit tk remaining maxTokens) as [b|e] eqn:Eb; simpl;
      [|discriminate].
    destruct (countTokens tk b) as [n|e]; simpl; [|discriminate].
    apply nextSplit_prefix in Eb as [Hpre Hne].
    assert (Hrem : remaining <> []).
    { intros ->. discriminate. }
    specialize (Hne Hrem).
    rewrite sliceFrom_skipn by (unfold jslength; lia).
    unfold jslength. rewrite Nat2Z.id.
    intro H. apply IH in H.
    + destruct H as (new & -> & Hall & Hcat).
      exists (CodeSplit.mk b lineNumber lineNumber n :: new).
      rewrite <- app_assoc. split; [reflexivity|]. split.
      * constructor; [now split | assumption].
      * simpl. rewrite Hcat. symmetry. now apply isPrefix_skipn.
    + rewrite length_skipn. destruct b; [congruence|].
      destruct remaining; [congruence|]. simpl in *. lia.
  - intros [= <-]. exists []. rewrite app_nil_r. split; [reflexivity|].
    split; [constructor|].
    unfold jslength in Hpos. destruct remaining; [reflexivity|].
    simpl in Hpos. discriminate.
Qed.

(** Fuel above the length of the text is never used up: the result does
    not depend on it. *)
Lemma splitLongLine_loop_fuel lineNumber f1 :
  forall f2 remaining acc,
    (List.length remaining < f1)%nat -> (List.length remaining < f2)%nat ->
    splitLongLine_loop f1 tk lineNumber maxTokens remaining acc
    = splitLongLine_loop f2 tk lineNumber maxTokens remaining acc.
Proof.
  induction f1 as [|f1 IH]; intros f2 remaining acc H1 H2; [lia|].
  destruct f2 as [|f2]; [lia|]. simpl.
  destruct (jslength remaining >? 0) eqn:Hpos; [|reflexivity].
  destruct (nextSplit tk remaining maxTokens) as [b|e] eqn:Eb; simpl;
    [|reflexivity].
  destruct (countTokens tk b) as [n|e]; simpl; [|reflexivity].
  apply nextSplit_prefix in Eb as [Hpre Hne].
  assert (Hrem : remaining <> []) by (intros ->; discriminate).
  specialize (Hne Hrem).
  assert (Hlt : (List.length (sliceFrom remaining (jslength b))
                 < List.length remaining)%nat).
  { rewrite sliceFrom_skipn by (unfold jslength; lia).
    unfold jslength. rewrite Nat2Z.id, length_skipn.
    destruct b; [congruence|]. destruct remaining; [congruence|].
    simpl. lia. }
  apply IH; lia.
Qed.

(** The loop of the source, unfolded once. *)
Lemma splitLongLine_loop_unfold lineNumber remaining acc :
  splitLongLine_loop (S (List.length remaining)) tk lineNumber maxTokens
                     remaining acc
  = if jslength remaining >? 0 then
      bestSplit <- nextSplit tk remaining maxTokens ;;
      tokenCount <- countTokens tk bestSplit ;;
      let rest := sliceFrom remaining (jslength bestSplit) in
      splitLongLine_loop (S (List.length rest)) tk lineNumber maxTokens rest
        (acc ++ [CodeSplit.mk bestSplit lineNumber lineNumber tokenCount])
    else Ok acc.
Proof.
  match goal with |- _ = ?R => set (rhs := R) end. simpl. subst rhs.
  destruct (jslength remaining >? 0) eqn:Hpos; [|reflexivity].
  destruct (nextSplit tk remaining maxTokens) as [b|e] eqn:Eb; cbn [bind];
    [|reflexivity].
  destruct (countTokens tk b) as [n|e]; cbn [bind]; [|reflexivity].
  apply nextSplit_prefix in Eb as [Hpre Hne].
  assert (Hrem : remaining <> []) by (intros ->; discriminate).
  specialize (Hne Hrem).
  apply splitLongLine_loop_fuel; [|lia].
  rewrite sliceFrom_skipn by (unfold jslength; lia).
  unfold jslength. rewrite Nat2Z.id, length_skipn.
  destruct b; [congruence|]. destruct remaining; [congruence|].
  simpl. lia.
Qed.

(** The binary search stops before its fuel does. *)
Lemma findCharacterSplit_loop_fuel text f1 :
  forall f2 left right best,
    (Z.to_nat (right - left + 1) < f1)%nat ->
    (Z.to_nat (right - left + 1) < f2)%nat ->
    findCharacterSplit_loop f1 tk text maxTokens left right best
    = findCharacterSplit_loop f2 tk text maxTokens left right best.
Proof.
  induction f1 as [|f1 IH]; intros f2 left right best H1 H2; [lia|].
  destruct f2 as [|f2]; [lia|]. simpl.
  destruct (left <=? right) eqn:Hle; [|reflexivity].
  apply Z.leb_le in Hle.
  assert (Hmid : left <= (left + right) / 2 <= right).
  { split.
    - apply Z.div_le_lower_bound; lia.
    - apply Z.div_le_upper_bound; lia. }
  destruct (countTokens tk (slice text 0 ((left + right) / 2))) as [n|e];
    simpl; [|reflexivity].
  destruct (n <=? maxTokens); apply IH; lia.
Qed.

(** When the encoder does not throw, neither does the splitting of a
    line. *)
Hypothesis encoder_total : forall s, isOk (encoding tk s) = true.

Lemma countTokens_total s : exists n, countTokens tk s = Ok n.
Proof.
  unfold countTokens. destruct (falsy s || isBlank s).
  - now exists 0.
  - specialize (encoder_total s). destruct (encoding tk s); [|discriminate].
    simpl. now eexists.
Qed.

Lemma accumulateParts_total d parts isFirst cur :
  exists r, accumulateParts tk maxTokens d parts isFirst cur = Ok r.
Proof.
  revert isFirst cur. induction parts as [|p rest IH]; intros; simpl.
  - now eexists.
  - match goal with |- context [countTokens tk ?s] =>
      destruct (countTokens_total s) as [n ->] end.
    simpl. destruct (n <=? maxTokens); [apply IH | now eexists].
Qed.

Lemma findBestSplit_total text ds :
  exists r, findBestSplit tk text maxTokens ds = Ok r.
Proof.
  unfold findBestSplit. generalize (@nil ascii) as best.
  induction ds as [|d ds IH]; intros best; simpl.
  - now eexists.
  - destruct (accumulateParts_total d (split_on d text) true []) as [c ->].
    simpl. apply IH.
Qed.

Lemma findCharacterSplit_total text :
  exists r, findCharacterSplit tk text maxTokens = Ok r.
Proof.
  unfold findCharacterSplit.
  assert (H : forall fuel left right best,
             exists k, findCharacterSplit_loop fuel tk text maxTokens
                         left right best = Ok k).
  { induction fuel as [|fuel IH]; intros; simpl.
    - now eexists.
    - destruct (left <=? right); [|now eexists].
      match goal with |- context [countTokens tk ?s] =>
        destruct (countTokens_total s) as [n ->] end.
      simpl. destruct (n <=? maxTokens); apply IH. }
  destruct (H (S (S (List.length text))) 0 (jslength text) 0) as [k ->].
  simpl. now eexists.
Qed.

Lemma nextSplit_total text : exists r, nextSplit tk text maxTokens = Ok r.
Proof.
  unfold nextSplit.
  destruct (findBestSplit_total text delimiters) as [b ->]. simpl.
  destruct (jslength b =? 0).
  - destruct (findCharacterSplit_total text) as [b' ->]. simpl. now eexists.
  - simpl. now eexists.
Qed.

Lemma splitLongLine_total line lineNumber :
  exists out, splitLongLine tk line lineNumber maxTokens = Ok out.
Proof.
  unfold splitLongLine. generalize (@nil CodeSplit.t) as acc.
  generalize (S (List.length line)) as fuel. intros fuel. revert line.
  induction fuel as [|fuel IH]; intros line acc; simpl.
  - now eexists.
  - destruct (jslength line >? 0); [|now eexists].
    destruct (nextSplit_total line) as [b ->]. simpl.
    destruct (countTokens_total b) as [n ->]. simpl. apply IH.
Qed.

End SplitterFacts.

(** The fuel the two loops are given is enough: more fuel gives the same
    result. *)
Lemma findCharacterSplit_fuel tk text maxTokens extra :
  findCharacterSplit_loop (S (S (List.length text)) + extra) tk text
                          maxTokens 0 (jslength text) 0
  = findCharacterSplit_loop (S (S (List.length text))) tk text maxTokens
                            0 (jslength text) 0.
Proof. apply findCharacterSplit_loop_fuel; unfold jslength; lia. Qed.

Lemma splitLongLine_fuel tk line lineNumber maxTokens extra :
  splitLongLine_loop (S (List.length line) + extra) tk lineNumber maxTokens
                     line []
  = splitLongLine tk line lineNumber maxTokens.
Proof. unfold splitLongLine. apply splitLongLine_loop_fuel; lia. Qed.

(* ================================================================== *)
(** * Facts about sorting *)
(* ================================================================== *)

Lemma insertBy_In {A} (cmp : A -> A -> Z) x y l :
  In y (insertBy cmp x l) <-> y = x \/ In y l.
Proof.
  induction l as [|z l IH]; simpl.
  - intuition.
  - destruct (cmp x z <=? 0); simpl; rewrite ?IH; intuition.
Qed.

Lemma sortBy_In {A} (cmp : A -> A -> Z) y l :
  In y (sortBy cmp l) <-> In y l.
Proof.
  induction l as [|x l IH]; simpl.
  - tauto.
  - rewrite insertBy_In, IH. intuition.
Qed.

Lemma sortBy_Forall {A} (cmp : A -> A -> Z) (P : A -> Prop) l :
  Forall P (sortBy cmp l) <-> Forall P l.
Proof.
  rewrite !Forall_forall. split; intros H x Hx; apply H.
  - now apply sortBy_In.
  - now apply sortBy_In in Hx.
Qed.

Lemma insertBy_length {A} (cmp : A -> A -> Z) x l :
  List.length (insertBy cmp x l) = S (List.length l).
Proof.
  induction l as [|z l IH]; simpl; [reflexivity|].
  destruct (cmp x z <=? 0); simpl; now rewrite ?IH.
Qed.

Lemma sortBy_length {A} (cmp : A -> A -> Z) l :
  List.length (sortBy cmp l) = List.length l.
Proof.
  induction l as [|x l IH]; simpl; [reflexivity|].
  now rewrite insertBy_length, IH.
Qed.


(** The result is in order, for a comparator that comes from a total
    preorder. *)
Section SortedResult.

Context {A : Type} (cmp : A -> A -> Z) (le : A -> A -> Prop).
Hypothesis cmp_le : forall a b, cmp a b <= 0 -> le a b.
Hypothesis cmp_gt : forall a b, 0 < cmp a b -> le b a.
Hypothesis le_trans : forall a b c, le a b -> le b c -> le a c.

Lemma insertBy_StronglySorted x l :
  StronglySorted le l -> StronglySorted le (insertBy cmp x l).
Proof.
  induction 1 as [|y l Hs IH Hall]; simpl.
  - constructor; constructor.
  - destruct (cmp x y <=? 0) eqn:E.
    + apply Z.leb_le in E. apply cmp_le in E.
      constructor; [now constructor|]. constructor; [assumption|].
      eapply Forall_impl; [|exact Hall]. intros z Hz. eauto.
    + apply Z.leb_gt in E. apply cmp_gt in E.
      constructor; [assumption|].
      apply Forall_forall. intros z Hz. apply insertBy_In in Hz as [->|Hz].
      * assumption.
      * rewrite Forall_forall in Hall. now apply Hall.
Qed.

Lemma sortBy_StronglySorted l : StronglySorted le (sortBy cmp l).
Proof.
  induction l as [|x l IH]; simpl.
  - constructor.
  - now apply insertBy_StronglySorted.
Qed.

End SortedResult.

Lemma insertBy_NoDup {A} (cmp : A -> A -> Z) x l :
  ~ In x l -> NoDup l -> NoDup (insertBy cmp x l).
Proof.
  intros Hx Hl. induction Hl as [|y l Hy Hl IH]; simpl.
  - constructor; [tauto | constructor].
  - destruct (cmp x y <=? 0).
    + constructor; [assumption | now constructor].
    + constructor.
      * rewrite insertBy_In. simpl in Hx. intuition.
      * apply IH. simpl in Hx. tauto.
Qed.

Lemma sortBy_NoDup {A} (cmp : A -> A -> Z) l :
  NoDup l -> NoDup (sortBy cmp l).
Proof.
  induction 1 as [|x l Hx Hl IH]; simpl; [constructor|].
  apply insertBy_NoDup; [|assumption]. now rewrite sortBy_In.
Qed.

(** The order of strings. *)
Lemma nat_of_ascii_inj a b : nat_of_ascii a = nat_of_ascii b -> a = b.
Proof.
  intro H. rewrite <- (ascii_nat_embedding a), <- (ascii_nat_embedding b).
  now rewrite H.
Qed.

Lemma jsstring_leb_refl a : jsstring_leb a a = true.
Proof.
  induction a as [|x a IH]; simpl; [reflexivity|].
  now rewrite Nat.ltb_irrefl.
Qed.

Lemma jsstring_leb_total a b :
  jsstring_leb a b = true \/ jsstring_leb b a = true.
Proof.
  revert b. induction a as [|x a IH]; intros [|y b]; simpl; auto.
  destruct (nat_of_ascii x <? nat_of_ascii y)%nat eqn:E1,
           (nat_of_ascii y <? nat_of_ascii x)%nat eqn:E2; auto.
Qed.

Lemma jsstring_leb_trans a b c :
  jsstring_leb a b = true -> jsstring_leb b c = true ->
  jsstring_leb a c = true.
Proof.
  revert b c. induction a as [|x a IH]; intros [|y b] [|z c]; simpl; auto;
    try discriminate.
  destruct (nat_of_ascii x <? nat_of_ascii y)%nat eqn:E1,
           (nat_of_ascii y <? nat_of_ascii x)%nat eqn:E2,
           (nat_of_ascii y <? nat_of_ascii z)%nat eqn:E3,
           (nat_of_ascii z <? nat_of_ascii y)%nat eqn:E4,
           (nat_of_ascii x <? nat_of_ascii z)%nat eqn:E5,
           (nat_of_ascii z <? nat_of_ascii x)%nat eqn:E6;
    rewrite ?Nat.ltb_lt, ?Nat.ltb_ge in *; try lia; try discriminate; auto.
  apply IH.
Qed.

Lemma jsstring_leb_antisym a b :
  jsstring_leb a b = true -> jsstring_leb b a = true -> a = b.
Proof.
  revert b. induction a as [|x a IH]; intros [|y b]; simpl; auto;
    try discriminate.
  destruct (nat_of_ascii x <? nat_of_ascii y)%nat eqn:E1,
           (nat_of_ascii y <? nat_of_ascii x)%nat eqn:E2;
    rewrite ?Nat.ltb_lt, ?Nat.ltb_ge in *; try lia; try discriminate.
  intros H1 H2. f_equal.
  - apply nat_of_ascii_inj. lia.
  - now apply IH.
Qed.

(** [discoveredFiles.sort()] is in the order of the code units. *)
Lemma sort_strings_sorted l :
  StronglySorted (fun a b => jsstring_leb a b = true)
                 (sortBy defaultCompare l).
Proof.
  apply sortBy_StronglySorted.
  - intros a b. unfold defaultCompare.
    destruct (jsstring_eqb a b) eqn:E.
    + apply jsstring_eqb_eq in E. subst. intros _. apply jsstring_leb_refl.
    + destruct (jsstring_leb a b); [reflexivity | lia].
  - intros a b. unfold defaultCompare.
    destruct (jsstring_eqb a b); [lia|].
    destruct (jsstring_leb a b) eqn:E; [lia|]. intros _.
    destruct (jsstring_leb_total a b); congruence.
  - apply jsstring_leb_trans.
Qed.

(* ================================================================== *)
(** * The assembler and [chunkFile]: what is thrown, and the budget *)
(* ================================================================== *)

Lemma splitCode_throw tk text startLine maxTokens :
  forallb isWhiteSpace text = false -> maxTokens <= 0 ->
  splitCode tk text startLine maxTokens
  = Throw (mkExn TokenProcessingError (str "maxTokens must be greater than 0")).
Proof.
  intros H1 H2. unfold splitCode. fold (isBlank text).
  apply isBlank_false_iff in H1. rewrite H1.
  destruct (falsy text) eqn:F.
  - apply falsy_isBlank in F. congruence.
  - simpl. destruct (maxTokens <=? 0) eqn:E; [reflexivity|].
    apply Z.leb_gt in E. lia.
Qed.

Lemma splitCode_nonpositive tk text startLine maxTokens splits :
  maxTokens <= 0 ->
  splitCode tk text startLine maxTokens = Ok splits -> splits = [].
Proof.
  intros Hmax. unfold splitCode.
  destruct (falsy text || (jslength (trim text) =? 0)).
  - now intros [= <-].
  - destruct (maxTokens <=? 0) eqn:E; [discriminate|].
    apply Z.leb_gt in E. lia.
Qed.

Section AssemblerFacts.

Variable scan : jsstring -> jsstring -> list jsstring * list jsstring.
Variables filePath language : jsstring.
Variable maxTokens : Z.
Variable tk : Tokenizer.

(** What holds of the chunks of every unit holds of the chunks of the
    file. *)
Section ForallChunks.

Variable P : FileChunk.t -> Prop.
Hypothesis gap_chunks :
  forall content startLine endLine chunks,
    processGapContent scan content startLine endLine filePath language
                      maxTokens tk = Ok chunks ->
    Forall P chunks.
Hypothesis node_chunks :
  forall node chunks,
    processASTNodeContent scan node filePath language maxTokens tk
    = Ok chunks ->
    Forall P chunks.

Lemma processNodes_Forall sourceLines nodes :
  forall chunks cursor out cursor',
    Forall P chunks ->
    processNodes scan sourceLines filePath language maxTokens tk nodes
                 chunks cursor = Ok (out, cursor') ->
    Forall P out.
Proof.
  induction nodes as [|node rest IH]; intros chunks cursor out cursor' Hc;
    simpl.
  - now intros [= <- _].
  - set (gapStep := if cursor <? _ then _ else _).
    destruct gapStep as [chunks1|e] eqn:Eg; simpl; [|discriminate].
    assert (H1 : Forall P chunks1).
    { subst gapStep. destruct (cursor <? _); [|now injection Eg as <-].
      destruct (jslength _ >? 0); [|now injection Eg as <-].
      destruct processGapContent as [gapChunks|] eqn:Egap; simpl in Eg;
        [|discriminate].
      injection Eg as <-. apply Forall_app. split; [assumption|].
      eapply gap_chunks; eassumption. }
    destruct processASTNodeContent as [nodeChunks|] eqn:En; simpl;
      [|discriminate].
    apply IH. apply Forall_app. split; [assumption|].
    eapply node_chunks; eassumption.
Qed.

Lemma processFileWithCursor_Forall fileContent astNodes chunks :
  processFileWithCursor scan fileContent astNodes filePath language
                        maxTokens tk = Ok chunks ->
  Forall P chunks.
Proof.
  unfold processFileWithCursor.
  destruct processNodes as [[chunks0 cursor]|] eqn:E; simpl;
    [|discriminate].
  apply processNodes_Forall in E; [|constructor].
  set (tail := if cursor <=? _ then _ else _).
  destruct tail as [chunks1|e] eqn:Et; simpl; [|discriminate].
  intros [= <-]. apply sortBy_Forall.
  subst tail. destruct (cursor <=? _); [|now injection Et as <-].
  destruct (jslength _ >? 0); [|now injection Et as <-].
  destruct processGapContent as [trailing|] eqn:Egap; simpl in Et;
    [|discriminate].
  injection Et as <-. apply Forall_app. split; [assumption|].
  eapply gap_chunks; eassumption.
Qed.

End ForallChunks.

(** Every chunk of a file carries the path of the file. *)
Lemma processFileWithCursor_filePath fileContent astNodes chunks :
  processFileWithCursor scan fileContent astNodes filePath language
                        maxTokens tk = Ok chunks ->
  Forall (fun c => ChunkMetadata.filePath (FileChunk.metadata c) = filePath)
         chunks.
Proof.
  apply processFileWithCursor_Forall.
  - intros content startLine endLine chunks'. unfold processGapContent.
    destruct (scan content (str "gap")) as [im ex].
    destruct (countTokens tk content) as [n|]; simpl; [|discriminate].
    destruct (n <=? maxTokens).
    + intros [= <-]. now repeat constructor.
    + destruct splitCode as [splits|]; simpl; [|discriminate].
      intros [= <-]. unfold splitChunks. apply Forall_map.
      now apply Forall_forall.
  - intros node chunks'. unfold processASTNodeContent.
    destruct (scan (ASTNode.text node) (ASTNode.type node)) as [im ex].
    destruct (countTokens tk (ASTNode.text node)) as [n|]; simpl;
      [|discriminate].
    destruct (n <=? maxTokens).
    + intros [= <-]. now repeat constructor.
    + destruct splitCode as [splits|]; simpl; [|discriminate].
      intros [= <-]. unfold splitChunks. apply Forall_map.
      now apply Forall_forall.
Qed.

(** Under a budget [maxTokens <= 0] no chunk that has tokens is made. *)
Lemma processFileWithCursor_nonpositive fileContent astNodes chunks :
  maxTokens <= 0 ->
  processFileWithCursor scan fileContent astNodes filePath language
                        maxTokens tk = Ok chunks ->
  Forall (fun c => FileChunk.tokenCount c = 0) chunks.
Proof.
  intro Hmax. apply processFileWithCursor_Forall.
  - intros content startLine endLine chunks'. unfold processGapContent.
    destruct (scan content (str "gap")) as [im ex].
    destruct (countTokens tk content) as [n|] eqn:En; simpl; [|discriminate].
    apply countTokens_nonneg in En.
    destruct (n <=? maxTokens) eqn:E.
    + apply Z.leb_le in E. intros [= <-]. repeat constructor. simpl. lia.
    + destruct splitCode as [splits|] eqn:Es; simpl; [|discriminate].
      apply splitCode_nonpositive in Es; [|assumption]. subst.
      intros [= <-]. constructor.
  - intros node chunks'. unfold processASTNodeContent.
    destruct (scan (ASTNode.text node) (ASTNode.type node)) as [im ex].
    destruct (countTokens tk (ASTNode.text node)) as [n|] eqn:En; simpl;
      [|discriminate].
    apply countTokens_nonneg in En.
    destruct (n <=? maxTokens) eqn:E.
    + apply Z.leb_le in E. intros [= <-]. repeat constructor. simpl. lia.
    + destruct splitCode as [splits|] eqn:Es; simpl; [|discriminate].
      apply splitCode_nonpositive in Es; [|assumption]. subst.
      intros [= <-]. constructor.
Qed.

End AssemblerFacts.

(** The extension of a path is no name of a member that [LANG_CONFIG]
    inherits. *)
Lemma extname_not_inherited path :
  existsb (jsstring_eqb (extname path)) Object_prototype_members = false.
Proof.
  unfold extname. destruct (cutAtDot _) as [[revExt revPre]|]; [|reflexivity].
  destruct (jslength revPre =? 0); [reflexivity|].
  destruct (jsstring_eqb _ _); reflexivity.
Qed.

Section ChunkFileFacts.

Variable scan : jsstring -> jsstring -> list jsstring * list jsstring.
Variable env : Env.

(** [chunkFile] throws nothing but a [FileSystemError] or a
    [ParsingError]: its [catch] wraps every other error, those of the
    tokenizer and of [splitCode] among them, in a [ParsingError]. *)
Lemma chunkFile_throws filePath maxTokens mdl e :
  chunkFile scan env filePath maxTokens mdl = Throw e ->
  exnClass e = FileSystemError \/ exnClass e = ParsingError.
Proof.
  unfold chunkFile, tryCatch at 1.
  match goal with |- match ?c with _ => _ end = _ -> _ =>
    destruct c as [chunks|e0] end; [discriminate|].
  destruct (exnClass e0) eqn:E; intros [= <-]; simpl; auto.
Qed.

Lemma chunkFile_unsupported filePath maxTokens mdl :
  assoc (extname filePath) LANG_CONFIG = None ->
  chunkFile scan env filePath maxTokens mdl = Ok [].
Proof. intro H. unfold chunkFile. rewrite H. reflexivity. Qed.

Lemma chunkFile_unreadable filePath maxTokens mdl cfg e :
  assoc (extname filePath) LANG_CONFIG = Some cfg ->
  readFileSync env filePath = Throw e ->
  chunkFile scan env filePath maxTokens mdl
  = Throw (mkExn FileSystemError
             (str "Failed to read file " ++ filePath ++ str ": "
              ++ exnMessage e)).
Proof. intros H1 H2. unfold chunkFile. rewrite H1, H2. reflexivity. Qed.

Lemma chunkFile_unparsable filePath maxTokens mdl cfg content e :
  assoc (extname filePath) LANG_CONFIG = Some cfg ->
  readFileSync env filePath = Ok content ->
  parse env (ChunkConfig.language cfg) content = Throw e ->
  chunkFile scan env filePath maxTokens mdl
  = Throw (mkExn ParsingError
             (str "Failed to parse " ++ filePath ++ str ": "
              ++ exnMessage e)).
Proof.
  intros H1 H2 H3. unfold chunkFile. rewrite H1, H2. simpl.
  rewrite H3. reflexivity.
Qed.

(** The chunks [chunkFile] returns are those of [processFileWithCursor]
    for some content, nodes and tokenizer, or none. *)
Lemma chunkFile_Ok filePath maxTokens mdl chunks :
  chunkFile scan env filePath maxTokens mdl = Ok chunks ->
  chunks = [] \/
  exists content nodes language tk,
    processFileWithCursor scan content nodes filePath language maxTokens tk
    = Ok chunks.
Proof.
  unfold chunkFile.
  destruct (assoc (extname filePath) LANG_CONFIG) as [cfg|].
  - destruct (readFileSync env filePath) as [content|]; simpl;
      [|discriminate].
    destruct (parse env (ChunkConfig.language cfg) content) as [tree|];
      simpl; [|discriminate].
    destruct (createTokenizer (get_encoding env) mdl) as [tk|e]; simpl;
      [|destruct (exnClass e); discriminate].
    destruct processFileWithCursor as [cs|e] eqn:E; simpl.
    + intros [= <-]. right. eauto.
    + destruct (exnClass e); discriminate.
  - simpl. intros [= <-]. now left.
Qed.

Lemma chunkFile_filePath filePath maxTokens mdl chunks :
  chunkFile scan env filePath maxTokens mdl = Ok chunks ->
  Forall (fun c => ChunkMetadata.filePath (FileChunk.metadata c) = filePath)
         chunks.
Proof.
  intro H. apply chunkFile_Ok in H as [-> | (content & nodes & l & tk & H)].
  - constructor.
  - eapply processFileWithCursor_filePath; eassumption.
Qed.

End ChunkFileFacts.

(* ================================================================== *)
(** * The orchestrator: a batch that continues on errors completes *)
(* ================================================================== *)

Section BatchFacts.

Variable scan : jsstring -> jsstring -> list jsstring * list jsstring.
Variable env : Env.

Lemma processFileWithErrorHandling_continue filePath maxTokens mdl :
  exists r,
    processFileWithErrorHandling scan env filePath maxTokens mdl true = Ok r.
Proof.
  unfold processFileWithErrorHandling.
  destruct chunkFile; simpl; now eexists.
Qed.

Lemma splice1_Forall {A} (P : A -> Prop) l i :
  Forall P l -> Forall P (splice1 l i).
Proof.
  intro H. unfold splice1. apply Forall_app. split.
  - rewrite Forall_forall in *. intros x Hx. apply H.
    rewrite <- (firstn_skipn (Z.to_nat i) l). apply in_or_app. now left.
  - rewrite Forall_forall in *. intros x Hx. apply H.
    rewrite <- (firstn_skipn (S (Z.to_nat i)) l). apply in_or_app.
    now right.
Qed.

Lemma poolLoop_continue maxTokens mdl concurrency filePaths :
  1 <= concurrency ->
  forall st,
    Forall settledOk (inProgress st) ->
    exists st',
      poolLoop scan env maxTokens mdl concurrency true filePaths st
      = Fulfilled st'
      /\ Forall settledOk (inProgress st').
Proof.
  intro Hc. induction filePaths as [|filePath rest IH]; intros st Hst.
  - simpl. now exists st.
  - simpl.
    destruct (processFileWithErrorHandling_continue filePath maxTokens mdl)
      as [r Hr].
    destruct (Z.of_nat (List.length (inProgress st)) >=? concurrency) eqn:E.
    + destruct (inProgress st) as [|p ps] eqn:Ep.
      * simpl in E. apply Z.geb_le in E. lia.
      * simpl race. inversion Hst as [|? ? [r0 Hp] Hps]; subst.
        rewrite Hp. apply IH. simpl. apply Forall_app. split.
        -- destruct (_ >? -1).
           ++ apply splice1_Forall. constructor; [now exists r0 | assumption].
           ++ constructor; [now exists r0 | assumption].
        -- constructor; [|constructor]. now exists r.
    + apply IH. simpl. apply Forall_app. split; [assumption|].
      constructor; [|constructor]. now exists r.
Qed.

Lemma promiseAll_settledOk ps :
  Forall settledOk ps -> exists rs, promiseAll ps = Ok rs.
Proof.
  induction 1 as [|p ps [r Hr] _ [rs IH]]; simpl.
  - now eexists.
  - rewrite Hr, IH. simpl. now eexists.
Qed.

(** With [continueOnError] left at its default or set, and a concurrency
    of at least 1, a batch whose scan succeeds is fulfilled, whatever
    [maxTokens] is. *)
Lemma batchProcessFiles_continue options filePaths :
  BatchProcessingOptions.continueOnError options <> Some false ->
  1 <= orDefault (BatchProcessingOptions.concurrency options) 4 ->
  scanRepository env (BatchProcessingOptions.rootPath options)
    (orDefault (BatchProcessingOptions.extensions options)
               [str ".ts"; str ".tsx"])
    (orDefault (BatchProcessingOptions.excludePatterns options) [])
  = Fulfilled filePaths ->
  exists result, batchProcessFiles scan env options = Fulfilled result.
Proof.
  intros Hcont Hconc Hscan. unfold batchProcessFiles. rewrite Hscan.
  destruct (Z.of_nat (List.length filePaths) =? 0); [now eexists|].
  assert (Hc : orDefault (BatchProcessingOptions.continueOnError options)
                         true = true).
  { destruct (BatchProcessingOptions.continueOnError options) as [[|]|];
      simpl; congruence. }
  rewrite Hc. unfold processFilesWithConcurrency.
  destruct (poolLoop_continue (BatchProcessingOptions.maxTokens options)
              (BatchProcessingOptions.modelName options) _ filePaths Hconc
              (mkPoolState [] [] 0)) as (st' & -> & Hall); [constructor|].
  destruct (promiseAll_settledOk _ Hall) as [rs ->].
  destruct (aggregate _ [] [] 0) as [[allChunks errors] n]. now eexists.
Qed.

End BatchFacts.

(** The one check of the budget outside [splitCode]. *)
Lemma validateBatchOptions_budget options :
  falsy (BatchProcessingOptions.rootPath options) = false ->
  BatchProcessingOptions.maxTokens options <= 0 ->
  validateBatchOptions options
  = Throw (mkExn PlainError (str "maxTokens must be a positive number")).
Proof.
  intros Hr Hm. unfold validateBatchOptions. rewrite Hr.
  destruct (BatchProcessingOptions.maxTokens options <=? 0) eqn:E.
  - now rewrite orb_true_r.
  - apply Z.leb_gt in E. lia.
Qed.

(* ================================================================== *)
(** * Lines, blank texts and slices *)
(* ================================================================== *)

Lemma forallb_concat {A} (f : A -> bool) ls :
  forallb f (concat ls) = forallb (forallb f) ls.
Proof.
  induction ls as [|l ls IH]; simpl; [reflexivity|].
  now rewrite forallb_app, IH.
Qed.

(** A text joined from lines is white space exactly when every line is. *)
Lemma forallb_isWhiteSpace_join lines :
  forallb isWhiteSpace (join NL lines)
  = forallb (forallb isWhiteSpace) lines.
Proof.
  destruct lines as [|p rest]; simpl; [reflexivity|].
  rewrite forallb_app, forallb_concat. f_equal.
  induction rest as [|q rest IH]; simpl; [reflexivity|].
  now rewrite IH.
Qed.

Lemma isBlank_join lines :
  isBlank (join NL lines) = forallb isBlank lines.
Proof.
  destruct (isBlank (join NL lines)) eqn:E.
  - apply isBlank_true_iff in E. rewrite forallb_isWhiteSpace_join in E.
    symmetry. rewrite forallb_forall in *. intros l Hl.
    apply isBlank_true_iff. now apply E.
  - apply isBlank_false_iff in E. rewrite forallb_isWhiteSpace_join in E.
    symmetry. destruct (forallb isBlank lines) eqn:F; [|reflexivity].
    rewrite <- E. symmetry. rewrite forallb_forall in *. intros l Hl.
    apply isBlank_true_iff. now apply F.
Qed.

Lemma isBlank_split_on text :
  isBlank text = forallb isBlank (split_on newline text).
Proof.
  rewrite <- isBlank_join. unfold NL. now rewrite join_split_on.
Qed.

(** The test [s.trim().length > 0] of the sources. *)
Lemma trim_length_positive s : (jslength (trim s) >? 0) = negb (isBlank s).
Proof.
  unfold isBlank, jslength.
  destruct (trim s); simpl; reflexivity.
Qed.

Lemma trim_length_zero s : (jslength (trim s) =? 0) = isBlank s.
Proof. reflexivity. Qed.

Lemma slice_inside {A} (l : list A) b e :
  0 <= b <= e -> e <= Z.of_nat (List.length l) ->
  slice l b e = firstn (Z.to_nat (e - b)) (skipn (Z.to_nat b) l).
Proof.
  intros H1 H2. unfold slice, relIndex.
  destruct (b <? 0) eqn:E1; [apply Z.ltb_lt in E1; lia|].
  destruct (e <? 0) eqn:E2; [apply Z.ltb_lt in E2; lia|].
  now rewrite !Z.min_l by lia.
Qed.

Lemma nth_In_slice {A} (l : list A) b e i d :
  0 <= b -> b <= i < e -> e <= Z.of_nat (List.length l) ->
  In (nth (Z.to_nat i) l d) (slice l b e).
Proof.
  intros Hb Hi He. rewrite slice_inside by lia.
  replace (Z.to_nat i) with (Z.to_nat b + Z.to_nat (i - b))%nat by lia.
  rewrite <- nth_skipn.
  assert (Hlt : (Z.to_nat (i - b) <? Z.to_nat (e - b))%nat = true)
    by (apply Nat.ltb_lt; lia).
  pose proof (nth_firstn (Z.to_nat (e - b)) (skipn (Z.to_nat b) l)
                         (Z.to_nat (i - b)) d) as Hn.
  rewrite Hlt in Hn. rewrite <- Hn.
  apply nth_In. rewrite length_firstn, length_skipn. lia.
Qed.

Lemma nth_In_sliceFrom {A} (l : list A) b i d :
  0 <= b -> b <= i < Z.of_nat (List.length l) ->
  In (nth (Z.to_nat i) l d) (sliceFrom l b).
Proof. intros. apply nth_In_slice; lia. Qed.

(* ================================================================== *)
(** * [splitCode] on a text that is not blank gives some split *)
(* ================================================================== *)

Lemma flushChunk_nonblank chunks lines s e n :
  existsb (fun l => negb (isBlank l)) lines = true ->
  flushChunk chunks lines s e n
  = chunks ++ [CodeSplit.mk (join NL lines) s e n].
Proof.
  intro H. unfold flushChunk.
  destruct lines as [|l0 ls]; [discriminate|].
  change (Z.of_nat (List.length (l0 :: ls)) =? 0) with false. cbv iota.
  rewrite trim_length_positive, isBlank_join.
  destruct (forallb isBlank (l0 :: ls)) eqn:F; [|reflexivity].
  apply existsb_exists in H as (l & Hl & Hb).
  rewrite forallb_forall in F. rewrite (F l Hl) in Hb. discriminate.
Qed.

Lemma flushChunk_keeps chunks lines s e n :
  chunks <> [] -> flushChunk chunks lines s e n <> [].
Proof.
  intro H. unfold flushChunk.
  destruct (_ =? 0); [assumption|].
  destruct (_ >? 0); [|assumption].
  destruct chunks; [congruence | discriminate].
Qed.

Section SplitCodeNonEmpty.

Variable tk : Tokenizer.
Variables startLine maxTokens : Z.

Lemma existsb_snoc {A} (f : A -> bool) l x :
  existsb f (l ++ [x]) = existsb f l || f x.
Proof. rewrite existsb_app. simpl. now rewrite orb_false_r. Qed.

Lemma splitLongLine_nonempty line lineNumber out :
  line <> [] ->
  splitLongLine tk line lineNumber maxTokens = Ok out -> out <> [].
Proof.
  intros Hl H. unfold splitLongLine in H.
  apply splitLongLine_loop_spec in H; [|lia].
  destruct H as (new & -> & _ & Hcat). simpl. intros ->. simpl in Hcat.
  congruence.
Qed.

Lemma splitCode_step_pending st i line st' :
  splitCode_step tk startLine maxTokens st i line = Ok st' ->
  pendingText st \/ isBlank line = false ->
  pendingText st'.
Proof.
  unfold splitCode_step. rewrite trim_length_zero.
  destruct (isBlank line) eqn:Eb.
  - intros [= <-] [[H|H]|H]; [now left | right | discriminate].
    simpl. rewrite existsb_snoc, H. reflexivity.
  - intros H _.
    destruct (countTokens tk line) as [lineTokens|]; simpl in H;
      [|discriminate].
    destruct (lineTokens >? maxTokens).
    + destruct (splitLongLine tk line (startLine + i) maxTokens)
        as [lineSplits|] eqn:Es; simpl in H; [|discriminate].
      injection H as <-. left. simpl.
      apply splitLongLine_nonempty in Es.
      * destruct lineSplits; [congruence|]. intro Habs.
        apply app_eq_nil in Habs as [_ Habs]. discriminate.
      * intros ->. discriminate.
    + destruct (_ && _); injection H as <-; right; simpl.
      * now rewrite Eb.
      * rewrite existsb_snoc, Eb. simpl. apply orb_true_r.
Qed.

Lemma splitCode_loop_pending lines :
  forall i st st',
    splitCode_loop tk startLine maxTokens lines i st = Ok st' ->
    pendingText st
    \/ existsb (fun l => negb (isBlank l)) lines = true ->
    pendingText st'.
Proof.
  induction lines as [|line rest IH]; intros i st st'; simpl.
  - intros [= <-] [H|H]; [assumption | discriminate].
  - destruct (splitCode_step tk startLine maxTokens st i line) as [st1|]
      eqn:E; simpl; [|discriminate].
    intros H Hp. eapply IH; [exact H|].
    destruct Hp as [Hp|Hp].
    + left. eapply splitCode_step_pending; eauto.
    + apply orb_true_iff in Hp as [Hp|Hp]; [|now right].
      left. eapply splitCode_step_pending; eauto. right.
      now destruct (isBlank line).
Qed.

Lemma splitCode_nonempty text out :
  isBlank text = false ->
  splitCode tk text startLine maxTokens = Ok out -> out <> [].
Proof.
  intros Hb. unfold splitCode. rewrite trim_length_zero, Hb.
  destruct (falsy text) eqn:F; [apply falsy_isBlank in F; congruence|].
  simpl. destruct (maxTokens <=? 0); [discriminate|].
  destruct splitCode_loop as [st|] eqn:E; simpl; [|discriminate].
  apply splitCode_loop_pending in E.
  - intros [= <-]. destruct E as [Hs|Hc].
    + destruct (_ >? 0); [now apply flushChunk_keeps | assumption].
    + destruct (currentChunk st) as [|l0 ls] eqn:Ec; [discriminate|].
      change (Z.of_nat (List.length (l0 :: ls)) >? 0) with true. cbv iota.
      rewrite flushChunk_nonblank by assumption.
      intro Habs. apply app_eq_nil in Habs as [_ Habs]. discriminate.
  - right. rewrite isBlank_split_on in Hb.
    destruct (existsb _ _) eqn:Ex; [reflexivity|]. exfalso.
    assert (Hall : forallb isBlank (split_on newline text) = true).
    { apply forallb_forall. intros l Hl.
      destruct (isBlank l) eqn:El; [reflexivity|].
      assert (existsb (fun l => negb (isBlank l)) (split_on newline text)
              = true).
      { apply existsb_exists. exists l. now rewrite El. }
      congruence. }
    congruence.
Qed.

End SplitCodeNonEmpty.

(* ================================================================== *)
(** * The compositor: coverage when nothing is split *)
(* ================================================================== *)

Lemma StronglySorted_snoc {A} (R : A -> A -> Prop) l x :
  StronglySorted R l -> Forall (fun a => R a x) l ->
  StronglySorted R (l ++ [x]).
Proof.
  induction 1 as [|a l Hs IH Ha]; intro Hx; simpl.
  - constructor; constructor.
  - inversion Hx; subst. constructor.
    + now apply IH.
    + apply Forall_app. split; [assumption|]. now constructor.
Qed.


Lemma covers_app_l chunks new l : covers chunks l -> covers (chunks ++ new) l.
Proof.
  intros (c & Hc & Hl). exists c. split; [|assumption].
  apply in_or_app. now left.
Qed.

Section CoverageFacts.

Variable scan : jsstring -> jsstring -> list jsstring * list jsstring.
Variables filePath language : jsstring.
Variable maxTokens : Z.
Variable tk : Tokenizer.
Hypothesis budget_positive : 0 < maxTokens.

Lemma splitChunks_notSplit sym ty lin im ex splits :
  Forall notSplit
    (splitChunks filePath language sym ty lin im ex splits) ->
  splits = [].
Proof.
  destruct splits as [|s splits]; [reflexivity|]. simpl.
  intro H. inversion H as [|? ? Hn _]; subst.
  unfold notSplit in Hn. simpl in Hn. congruence.
Qed.

(** A unit whose chunks are not splits gave exactly one chunk: itself. *)
Lemma processGapContent_unsplit content startLine endLine chunks :
  isBlank content = false ->
  processGapContent scan content startLine endLine filePath language
                    maxTokens tk = Ok chunks ->
  Forall notSplit chunks ->
  exists meta n, chunks = [FileChunk.mk content meta startLine endLine n].
Proof.
  intros Hb. unfold processGapContent.
  destruct (scan content (str "gap")) as [im ex].
  destruct (countTokens tk content) as [n|]; simpl; [|discriminate].
  destruct (n <=? maxTokens).
  - intros [= <-] _. now eexists _, _.
  - destruct splitCode as [splits|] eqn:Es; simpl; [|discriminate].
    intros [= <-] Hn. apply splitChunks_notSplit in Hn. subst.
    now apply splitCode_nonempty in Es.
Qed.

Lemma processASTNodeContent_unsplit node chunks :
  processASTNodeContent scan node filePath language maxTokens tk
  = Ok chunks ->
  Forall notSplit chunks ->
  exists meta n,
    chunks = [FileChunk.mk (ASTNode.text node) meta (nodeStartLine node)
                           (nodeEndLine node) n].
Proof.
  unfold processASTNodeContent.
  destruct (scan (ASTNode.text node) (ASTNode.type node)) as [im ex].
  destruct (countTokens tk (ASTNode.text node)) as [n|] eqn:En; simpl;
    [|discriminate].
  destruct (n <=? maxTokens) eqn:E.
  - intros [= <-] _. now eexists _, _.
  - destruct splitCode as [splits|] eqn:Es; simpl; [|discriminate].
    intros [= <-] Hn. apply splitChunks_notSplit in Hn. subst.
    destruct (isBlank (ASTNode.text node)) eqn:Hb.
    + rewrite (countTokens_blank tk _ Hb) in En. injection En as <-.
      apply Z.leb_gt in E. lia.
    + now apply splitCode_nonempty in Es.
Qed.

Lemma processNodes_extends sourceLines nodes :
  forall chunks cursor out cursor',
    processNodes scan sourceLines filePath language maxTokens tk nodes
                 chunks cursor = Ok (out, cursor') ->
    exists new, out = chunks ++ new.
Proof.
  induction nodes as [|node rest IH]; intros chunks cursor out cursor';
    simpl.
  - intros [= <- _]. exists []. now rewrite app_nil_r.
  - set (gapStep := if cursor <? _ then _ else _).
    destruct gapStep as [chunks1|e] eqn:Eg; simpl; [|discriminate].
    assert (H1 : exists g, chunks1 = chunks ++ g).
    { subst gapStep.
      destruct (cursor <? _);
        [|injection Eg as <-; exists []; now rewrite app_nil_r].
      destruct (jslength _ >? 0);
        [|injection Eg as <-; exists []; now rewrite app_nil_r].
      destruct processGapContent as [gapChunks|]; simpl in Eg;
        [|discriminate].
      injection Eg as <-. now exists gapChunks. }
    destruct H1 as [g ->].
    destruct processASTNodeContent as [nodeChunks|]; simpl; [|discriminate].
    intro H. apply IH in H as [new ->].
    exists (g ++ nodeChunks ++ new). now rewrite !app_assoc.
Qed.

Variable sourceLines : list jsstring.

Let total : Z := Z.of_nat (List.length sourceLines).
Let lineOf (l : Z) : jsstring := nth (Z.to_nat (l - 1)) sourceLines [].

Lemma covered_snoc chunks cursor x :
  covered sourceLines chunks cursor -> 1 <= cursor ->
  FileChunk.startLine x = cursor ->
  cursor <= FileChunk.endLine x ->
  covered sourceLines (chunks ++ [x]) (FileChunk.endLine x + 1).
Proof.
  intros (Hd & Hr & Hc) H1 Hs He. repeat split.
  - apply StronglySorted_snoc; [assumption|].
    eapply Forall_impl; [|exact Hr]. simpl. intros c. lia.
  - apply Forall_app. split.
    + eapply Forall_impl; [|exact Hr]. simpl. intros c. lia.
    + constructor; [lia | constructor].
  - intros l Hl. destruct (Z.lt_ge_cases l cursor) as [Hlt|Hge].
    + destruct (Hc l) as [Hcov|Hb]; [lia | | now right].
      left. now apply covers_app_l.
    + left. exists x. split; [|lia]. apply in_or_app. right. now left.
Qed.

Lemma covered_blank chunks cursor cursor' :
  covered sourceLines chunks cursor -> cursor <= cursor' ->
  (forall l, cursor <= l < cursor' -> isBlank (lineOf l) = true) ->
  covered sourceLines chunks cursor'.
Proof.
  intros (Hd & Hr & Hc) Hle Hb. repeat split.
  - assumption.
  - eapply Forall_impl; [|exact Hr]. simpl. intros c. lia.
  - intros l Hl. destruct (Z.lt_ge_cases l cursor) as [Hlt|Hge].
    + apply Hc. lia.
    + right. apply Hb. lia.
Qed.

(** The lines of a stretch whose joined text is blank are blank. *)
Lemma blank_stretch b e :
  1 <= b -> e <= total ->
  isBlank (join NL (slice sourceLines (b - 1) e)) = true ->
  forall l, b <= l < e + 1 -> isBlank (lineOf l) = true.
Proof.
  intros Hb He H l Hl. rewrite isBlank_join in H.
  rewrite forallb_forall in H. apply H.
  unfold lineOf. apply nth_In_slice; unfold total in *; lia.
Qed.

Lemma processNodes_covered nodes :
  forall chunks cursor out cursor',
    1 <= cursor <= total + 1 ->
    nodesInOrder cursor total nodes ->
    covered sourceLines chunks cursor ->
    processNodes scan sourceLines filePath language maxTokens tk nodes
                 chunks cursor = Ok (out, cursor') ->
    Forall notSplit out ->
    covered sourceLines out cursor' /\ 1 <= cursor' <= total + 1.
Proof.
  induction nodes as [|node rest IH];
    intros chunks cursor out cursor' Hcur Hord Hcov; simpl.
  - intros [= <- <-] _. now split.
  - destruct Hord as (Hs & Hse & He & Hrest).
    fold (nodeStartLine node). fold (nodeEndLine node).
    set (gapStep := if cursor <? _ then _ else _).
    destruct gapStep as [chunks1|e] eqn:Eg; simpl; [|discriminate].
    destruct processASTNodeContent as [nodeChunks|] eqn:En; simpl;
      [|discriminate].
    intros Hrun Hns.
    destruct (processNodes_extends _ _ _ _ _ _ Hrun) as [new Hout].
    assert (Hns1 : Forall notSplit chunks1 /\ Forall notSplit nodeChunks).
    { subst out. apply Forall_app in Hns as [Hns _].
      now apply Forall_app in Hns. }
    destruct Hns1 as [Hns1 Hns2].
    assert (Hcov1 : covered sourceLines chunks1 (nodeStartLine node)).
    { subst gapStep. destruct (cursor <? nodeStartLine node) eqn:Elt.
      - apply Z.ltb_lt in Elt. rewrite trim_length_positive in Eg.
        destruct (isBlank (join NL _)) eqn:Hb; simpl in Eg.
        + injection Eg as <-. eapply covered_blank; [eassumption | lia |].
          intros l Hl. eapply blank_stretch; [| |exact Hb|]; lia.
        + destruct processGapContent as [gapChunks|] eqn:Egap; simpl in Eg;
            [|discriminate].
          injection Eg as <-. apply Forall_app in Hns1 as [_ Hg].
          destruct (processGapContent_unsplit _ _ _ _ Hb Egap Hg)
            as (meta & n & ->).
          replace (nodeStartLine node)
            with (FileChunk.endLine
                    (FileChunk.mk (join NL (slice sourceLines (cursor - 1)
                                              (nodeStartLine node - 1)))
                                  meta cursor (nodeStartLine node - 1) n)
                  + 1) at 3 by (simpl; lia).
          apply (covered_snoc chunks cursor); simpl; try assumption; lia.
      - apply Z.ltb_ge in Elt. injection Eg as <-.
        replace (nodeStartLine node) with cursor by lia. assumption. }
    destruct (processASTNodeContent_unsplit _ _ En Hns2)
      as (meta & n & ->).
    eapply IH; [ | exact Hrest | | exact Hrun | exact Hns ]; try lia.
    replace (nodeEndLine node + 1)
      with (FileChunk.endLine
              (FileChunk.mk (ASTNode.text node) meta (nodeStartLine node)
                            (nodeEndLine node) n) + 1) by reflexivity.
    apply (covered_snoc chunks1 (nodeStartLine node)); simpl;
      try assumption; lia.
Qed.

End CoverageFacts.

(* ================================================================== *)
(** * The pipeline returns when the encoder does not throw *)
(* ================================================================== *)

Section Totality.

Variable scan : jsstring -> jsstring -> list jsstring * list jsstring.
Variables filePath language : jsstring.
Variable maxTokens : Z.
Variable tk : Tokenizer.
Hypothesis encoder_total : forall s, isOk (encoding tk s) = true.



Hypothesis budget_positive : 0 < maxTokens.






End Totality.

Lemma nodesInOrder_Sorted cursor total nodes :
  nodesInOrder cursor total nodes ->
  Sorted (fun a b => compareNodes a b <= 0) nodes.
Proof.
  revert cursor. induction nodes as [|n rest IH]; intros cursor H.
  - constructor.
  - destruct H as (Hs & Hse & He & Hrest). constructor; [eapply IH; eauto|].
    destruct rest as [|m rest]; constructor.
    destruct Hrest as (Hm & _). unfold compareNodes.
    unfold nodeStartLine, nodeEndLine in *.
    destruct (row (ASTNode.startPosition n) =? row (ASTNode.startPosition m))
      eqn:E; simpl.
    + apply Z.eqb_eq in E. lia.
    + lia.
Qed.

(* ================================================================== *)
(** * The orchestrator: the order of the aggregate *)
(* ================================================================== *)

Lemma StronglySorted_app {A} (R : A -> A -> Prop) l1 l2 :
  StronglySorted R l1 -> StronglySorted R l2 ->
  (forall a b, In a l1 -> In b l2 -> R a b) ->
  StronglySorted R (l1 ++ l2).
Proof.
  induction 1 as [|a l1 Hs IH Ha]; intros H2 Hc; simpl; [assumption|].
  constructor.
  - apply IH; [assumption|]. intros x y Hx Hy. apply Hc; [now right|assumption].
  - apply Forall_app. split; [assumption|].
    apply Forall_forall. intros y Hy. apply Hc; [now left|assumption].
Qed.

Lemma StronglySorted_strict {A} (le : A -> A -> Prop) l :
  StronglySorted le l -> NoDup l ->
  StronglySorted (fun a b => le a b /\ a <> b) l.
Proof.
  induction 1 as [|a l Hs IH Ha]; intro Hn; [constructor|].
  inversion Hn as [|? ? Hnotin Hn']; subst. constructor; [now apply IH|].
  rewrite Forall_forall in *. intros b Hb. split; [now apply Ha|].
  intros ->. contradiction.
Qed.

(** A scan that is fulfilled has returned from its traversal, and gives
    the files it found there, sorted. *)
Lemma scanRepository_Fulfilled env rootPath extensions excludePatterns
      filePaths :
  scanRepository env rootPath extensions excludePatterns
  = Fulfilled filePaths ->
  exists found,
    discoveredFiles env rootPath extensions excludePatterns = Some found /\
    filePaths = sortBy defaultCompare found.
Proof.
  unfold scanRepository, discoverFiles.
  destruct (tryCatch _ _); [|discriminate].
  destruct (discoveredFiles env rootPath extensions excludePatterns)
    as [found|]; [|discriminate].
  intros [= <-]. now exists found.
Qed.

Lemma promiseAll_Ok ps rs :
  promiseAll ps = Ok rs -> map settled ps = map Ok rs.
Proof.
  revert rs. induction ps as [|p ps IH]; intros rs; simpl.
  - now intros [= <-].
  - destruct (settled p) as [r|]; simpl; [|discriminate].
    destruct (promiseAll ps) as [rs'|]; simpl; [|discriminate].
    intros [= <-]. simpl. f_equal. now apply IH.
Qed.

Section BatchOrder.

Variable scan : jsstring -> jsstring -> list jsstring * list jsstring.
Variable env : Env.
Variable maxTokens : Z.
Variable mdl : jsstring.
Variable concurrency : Z.
Variable continueOnError : bool.

Lemma aggregate_chunks rs :
  forall allChunks errors n,
    fst (fst (aggregate rs allChunks errors n))
    = allChunks ++ flat_map contribution rs.
Proof.
  induction rs as [|r rs IH]; intros allChunks errors n; simpl.
  - now rewrite app_nil_r.
  - unfold contribution at 1.
    destruct (FileProcessingResult.error r); rewrite IH.
    + reflexivity.
    + now rewrite app_assoc.
Qed.

(** While fewer files are in progress than the limit, the loop starts
    every file without waiting for any. *)
Lemma poolLoop_no_wait filePaths :
  forall st,
    Z.of_nat (List.length (inProgress st) + List.length filePaths)
    <= concurrency ->
    exists st',
      poolLoop scan env maxTokens mdl concurrency continueOnError
               filePaths st = Fulfilled st'
      /\ results st' = results st
      /\ map settled (inProgress st')
         = map settled (inProgress st)
           ++ map (fun filePath =>
                     processFileWithErrorHandling scan env filePath
                       maxTokens mdl continueOnError)
                  filePaths.
Proof.
  induction filePaths as [|filePath rest IH]; intros st Hlen.
  - simpl. exists st. now rewrite app_nil_r.
  - simpl poolLoop.
    destruct (_ >=? concurrency) eqn:E.
    + apply Z.geb_le in E. simpl in Hlen. lia.
    + match goal with |- context [poolLoop _ _ _ _ _ _ rest ?s] =>
        destruct (IH s) as (st' & Hrun & Hres & Hprog) end.
      * simpl. rewrite length_app. simpl in *. lia.
      * exists st'. split; [exact Hrun|]. split; [exact Hres|].
        rewrite Hprog. simpl. rewrite map_app, <- app_assoc. reflexivity.
Qed.

(** The chunks of one file are in the order of their first lines. *)
Lemma chunkFile_sorted filePath chunks :
  chunkFile scan env filePath maxTokens mdl = Ok chunks ->
  StronglySorted (fun a b => FileChunk.startLine a <= FileChunk.startLine b)
                 chunks.
Proof.
  intro H. apply chunkFile_Ok in H as [-> | (content & nodes & l & tk & H)].
  - constructor.
  - unfold processFileWithCursor in H.
    destruct processNodes as [[chunks0 cursor]|]; simpl in H;
      [|discriminate].
    match type of H with bind ?c _ = _ => destruct c as [chunks1|] end;
      simpl in H; [|discriminate].
    injection H as <-. apply sortBy_StronglySorted.
    + intros a b. unfold compareChunks. lia.
    + intros a b. unfold compareChunks. lia.
    + intros a b c. lia.
Qed.

Lemma contribution_of_file filePath r :
  processFileWithErrorHandling scan env filePath maxTokens mdl
                               continueOnError = Ok r ->
  StronglySorted chunkOrder (contribution r) /\
  Forall (fun c => ChunkMetadata.filePath (FileChunk.metadata c) = filePath)
         (contribution r).
Proof.
  unfold processFileWithErrorHandling, contribution.
  destruct chunkFile as [chunks|e] eqn:E; simpl.
  - intros [= <-]. simpl.
    pose proof (chunkFile_filePath _ _ _ _ _ _ E) as Hp.
    pose proof (chunkFile_sorted _ _ E) as Hs. split; [|assumption].
    clear E. induction Hs as [|c chunks Hs IH Hc]; [constructor|].
    inversion Hp as [|? ? Hpc Hp']; subst. constructor; [now apply IH|].
    rewrite Forall_forall in *. intros b Hb. right.
    split; [|now apply Hc]. rewrite (Hp' b Hb). reflexivity.
  - destruct continueOnError; simpl; [|discriminate].
    intros [= <-]. simpl. split; constructor.
Qed.

Lemma contributions_sorted filePaths :
  forall rs,
    map (fun filePath =>
           processFileWithErrorHandling scan env filePath maxTokens mdl
                                        continueOnError) filePaths
    = map Ok rs ->
    StronglySorted (fun a b => jsstring_leb a b = true /\ a <> b)
                   filePaths ->
    StronglySorted chunkOrder (flat_map contribution rs) /\
    Forall (fun c => In (ChunkMetadata.filePath (FileChunk.metadata c))
                        filePaths)
           (flat_map contribution rs).
Proof.
  induction filePaths as [|p ps IH]; intros [|r rs] Hmap Hsorted;
    simpl in *; try discriminate.
  - split; constructor.
  - injection Hmap as Hr Hmap.
    inversion Hsorted as [|? ? Hs Hall]; subst.
    destruct (IH rs Hmap Hs) as [IH1 IH2].
    destruct (contribution_of_file _ _ Hr) as [Hc1 Hc2].
    split.
    + apply StronglySorted_app; [assumption | assumption |].
      intros a b Ha Hb. left.
      rewrite Forall_forall in Hc2, IH2, Hall.
      rewrite (Hc2 a Ha). apply Hall. now apply IH2.
    + apply Forall_app. split.
      * eapply Forall_impl; [|exact Hc2]. simpl. intros c ->. now left.
      * eapply Forall_impl; [|exact IH2]. simpl. intros c Hc. now right.
Qed.

End BatchOrder.

(* ================================================================== *)
(** * What the splitter does keep: stored counts within the budget *)
(* ================================================================== *)

Section StoredCounts.

Variable tk : Tokenizer.
Variable maxTokens : Z.
Hypothesis budget_nonneg : 0 <= maxTokens.

Lemma measuredWithin_nil : measuredWithin tk maxTokens [].
Proof. exists 0. split; [reflexivity | assumption]. Qed.

Lemma accumulateParts_measured d parts :
  forall isFirst cur r,
    measuredWithin tk maxTokens cur ->
    accumulateParts tk maxTokens d parts isFirst cur = Ok r ->
    measuredWithin tk maxTokens r.
Proof.
  induction parts as [|p rest IH]; intros isFirst cur r Hcur; simpl.
  - now intros [= <-].
  - set (testPart := if isFirst then p else cur ++ d :: p).
    destruct (countTokens tk testPart) as [n|] eqn:E; simpl; [|discriminate].
    destruct (n <=? maxTokens) eqn:Hle.
    + apply IH. exists n. split; [assumption | now apply Z.leb_le].
    + now intros [= <-].
Qed.

Lemma findBestSplit_measured text ds r :
  findBestSplit tk text maxTokens ds = Ok r -> measuredWithin tk maxTokens r.
Proof.
  unfold findBestSplit. generalize measuredWithin_nil.
  generalize (@nil ascii) as best. induction ds as [|d ds IH];
    intros best Hbest; simpl.
  - now intros [= <-].
  - destruct (accumulateParts tk maxTokens d (split_on d text) true [])
      as [cur|] eqn:E; simpl; [|discriminate].
    apply IH. apply accumulateParts_measured in E; [|apply measuredWithin_nil].
    now destruct (jslength cur >? jslength best).
Qed.

Lemma findCharacterSplit_measured text r :
  findCharacterSplit tk text maxTokens = Ok r -> measuredWithin tk maxTokens r.
Proof.
  unfold findCharacterSplit.
  assert (H : forall fuel left right best k,
             measuredWithin tk maxTokens (slice text 0 best) ->
             findCharacterSplit_loop fuel tk text maxTokens left right best
             = Ok k ->
             measuredWithin tk maxTokens (slice text 0 k)).
  { induction fuel as [|fuel IH]; intros left right best k Hb; simpl.
    - now intros [= <-].
    - destruct (left <=? right); [|now intros [= <-]].
      destruct (countTokens tk (slice text 0 ((left + right) / 2)))
        as [n|] eqn:E; simpl; [|discriminate].
      destruct (n <=? maxTokens) eqn:Hle.
      + apply IH. exists n. split; [assumption | now apply Z.leb_le].
      + now apply IH. }
  destruct findCharacterSplit_loop as [k|] eqn:E; simpl; [|discriminate].
  intros [= <-]. eapply H; [|exact E].
  replace (slice text 0 0) with (@nil ascii); [apply measuredWithin_nil|].
  rewrite slice_0 by lia. reflexivity.
Qed.

(** Each piece [splitLongLine] takes was measured within the budget, or is
    the one character of the fallback. *)
Lemma nextSplit_measured text r :
  nextSplit tk text maxTokens = Ok r ->
  measuredWithin tk maxTokens r \/ List.length r = 1%nat.
Proof.
  unfold nextSplit.
  destruct (findBestSplit tk text maxTokens delimiters) as [b|] eqn:E;
    simpl; [|discriminate].
  apply findBestSplit_measured in E.
  assert (Hfinal : forall b', measuredWithin tk maxTokens b' ->
            let r' := if jslength b' =? 0 then charAt0 text else b' in
            measuredWithin tk maxTokens r' \/ List.length r' = 1%nat).
  { intros b' Hb'. simpl. destruct (jslength b' =? 0); [|now left].
    destruct text; simpl; [left; apply measuredWithin_nil | now right]. }
  destruct (jslength b =? 0).
  - destruct (findCharacterSplit tk text maxTokens) as [b'|] eqn:E'; simpl;
      [|discriminate].
    apply findCharacterSplit_measured in E'. intros [= <-]. now apply Hfinal.
  - simpl. intros [= <-]. now apply Hfinal.
Qed.

Lemma splitLongLine_loop_fragments lineNumber fuel :
  forall remaining acc out,
    Forall (fragmentOk tk maxTokens) acc ->
    splitLongLine_loop fuel tk lineNumber maxTokens remaining acc = Ok out ->
    Forall (fragmentOk tk maxTokens) out.
Proof.
  induction fuel as [|fuel IH]; intros remaining acc out Hacc; simpl.
  - now intros [= <-].
  - destruct (jslength remaining >? 0); [|now intros [= <-]].
    destruct (nextSplit tk remaining maxTokens) as [b|] eqn:Eb; simpl;
      [|discriminate].
    destruct (countTokens tk b) as [n|] eqn:En; simpl; [|discriminate].
    apply IH. apply Forall_app. split; [assumption|].
    constructor; [|constructor]. split; [exact En|]. simpl.
    apply nextSplit_measured in Eb as [(m & Hm & Hle)|Hone].
    + left. congruence.
    + now right.
Qed.

Lemma splitLongLine_fragments line lineNumber out :
  splitLongLine tk line lineNumber maxTokens = Ok out ->
  Forall (fragmentOk tk maxTokens) out.
Proof. apply splitLongLine_loop_fragments. constructor. Qed.

Lemma flushChunk_stored chunks lines s e n :
  Forall (storedWithin maxTokens) chunks -> n <= maxTokens ->
  Forall (storedWithin maxTokens) (flushChunk chunks lines s e n).
Proof.
  intros Hc Hn. unfold flushChunk.
  destruct (_ =? 0); [assumption|].
  destruct (_ >? 0); [|assumption].
  apply Forall_app. split; [assumption|].
  constructor; [|constructor]. now left.
Qed.

Lemma splitCode_step_running startLine st i line st' :
  runningWithin maxTokens st ->
  splitCode_step tk startLine maxTokens st i line = Ok st' ->
  runningWithin maxTokens st'.
Proof.
  intros (Hs & Hc & Hz). unfold splitCode_step, runningWithin.
  assert (Hsnoc : forall l : list jsstring, l ++ [line] = [] -> False).
  { intros l Habs. apply app_eq_nil in Habs as [_ Habs]. discriminate. }
  destruct (jslength (trim line) =? 0).
  - intros [= <-]. simpl. split; [assumption|]. split; [assumption|].
    intro Habs. now apply Hsnoc in Habs.
  - destruct (countTokens tk line) as [lineTokens|] eqn:El; simpl;
      [|discriminate].
    pose proof (countTokens_nonneg _ _ _ El) as Hnn.
    destruct (lineTokens >? maxTokens) eqn:Hlong.
    + destruct (splitLongLine tk line (startLine + i) maxTokens)
        as [lineSplits|] eqn:Es; simpl; [|discriminate].
      intros [= <-]. apply splitLongLine_fragments in Es.
      assert (Hfr : Forall (storedWithin maxTokens) lineSplits).
      { eapply Forall_impl; [|exact Es]. intros s [_ H]. exact H. }
      destruct (Z.of_nat (List.length (currentChunk st)) >? 0); simpl.
      * split; [|split; [assumption | reflexivity]].
        apply Forall_app. split; [|assumption].
        now apply flushChunk_stored.
      * split; [|split; assumption]. apply Forall_app. now split.
    + assert (Hle : lineTokens <= maxTokens).
      { destruct (Z.gtb_spec lineTokens maxTokens); [discriminate | lia]. }
      destruct (currentTokenCount st + lineTokens >? maxTokens) eqn:Hpot;
        simpl.
      * destruct (Z.of_nat (List.length (currentChunk st)) >? 0) eqn:Hne;
          simpl; intros [= <-]; simpl.
        -- split; [now apply flushChunk_stored|].
           split; [assumption | discriminate].
        -- split; [assumption|]. split.
           ++ assert (Hnil : currentChunk st = []).
              { destruct (currentChunk st); [reflexivity|].
                simpl in Hne. discriminate. }
              rewrite (Hz Hnil). lia.
           ++ intro Habs. now apply Hsnoc in Habs.
      * intros [= <-]. simpl. split; [assumption|]. split.
        -- destruct (Z.gtb_spec (currentTokenCount st + lineTokens)
                                maxTokens); [discriminate | lia].
        -- intro Habs. now apply Hsnoc in Habs.
Qed.

Lemma splitCode_loop_running startLine lines :
  forall i st st',
    runningWithin maxTokens st ->
    splitCode_loop tk startLine maxTokens lines i st = Ok st' ->
    runningWithin maxTokens st'.
Proof.
  induction lines as [|line rest IH]; intros i st st' Hst; simpl.
  - now intros [= <-].
  - destruct (splitCode_step tk startLine maxTokens st i line) as [st1|]
      eqn:E; simpl; [|discriminate].
    apply IH. eapply splitCode_step_running; eassumption.
Qed.

Lemma splitCode_stored text startLine out :
  splitCode tk text startLine maxTokens = Ok out ->
  Forall (storedWithin maxTokens) out.
Proof.
  unfold splitCode. destruct (_ || _); [intros [= <-]; constructor|].
  destruct (maxTokens <=? 0); [discriminate|].
  destruct splitCode_loop as [st|] eqn:E; simpl; [|discriminate].
  apply splitCode_loop_running in E.
  - destruct E as (Hs & Hc & _). intros [= <-].
    destruct (_ >? 0); [now apply flushChunk_stored | assumption].
  - unfold runningWithin. simpl. split; [constructor|].
    split; [assumption | reflexivity].
Qed.

End StoredCounts.

(* ================================================================== *)
(** * [splitCode] on two lines that fit the budget together *)
(* ================================================================== *)

Lemma split_on_single d l :
  forallb (fun c => negb (ascii_eqb c d)) l = true -> split_on d l = [l].
Proof.
  induction l as [|c l IH]; simpl; [reflexivity|].
  intro H. apply andb_true_iff in H as [Hc Hl].
  destruct (ascii_eqb c d); [discriminate|]. now rewrite (IH Hl).
Qed.

Lemma split_on_app d l1 r :
  forallb (fun c => negb (ascii_eqb c d)) l1 = true ->
  split_on d (l1 ++ d :: r) = l1 :: split_on d r.
Proof.
  induction l1 as [|c l1 IH]; simpl.
  - intros _. unfold ascii_eqb. now rewrite Ascii.eqb_refl.
  - intro H. apply andb_true_iff in H as [Hc Hl].
    destruct (ascii_eqb c d); [discriminate|]. now rewrite (IH Hl).
Qed.

(** Two lines that are not blank and whose counts add up to no more than
    the budget come back as one split, which stores the sum of the two
    counts. *)
Lemma splitCode_two_lines tk l1 l2 startLine maxTokens n1 n2 :
  forallb (fun c => negb (ascii_eqb c newline)) l1 = true ->
  forallb (fun c => negb (ascii_eqb c newline)) l2 = true ->
  isBlank l1 = false -> isBlank l2 = false ->
  countTokens tk l1 = Ok n1 -> countTokens tk l2 = Ok n2 ->
  0 < maxTokens -> n1 + n2 <= maxTokens ->
  splitCode tk (l1 ++ NL ++ l2) startLine maxTokens
  = Ok [CodeSplit.mk (l1 ++ NL ++ l2) startLine (startLine + 1) (n1 + n2)].
Proof.
  intros Hn1 Hn2 Hb1 Hb2 Hc1 Hc2 Hmax Hsum.
  pose proof (countTokens_nonneg _ _ _ Hc1) as Hp1.
  pose proof (countTokens_nonneg _ _ _ Hc2) as Hp2.
  assert (Hlines : split_on newline (l1 ++ NL ++ l2) = [l1; l2]).
  { unfold NL. simpl. rewrite split_on_app by assumption.
    now rewrite split_on_single. }
  assert (Hblank : isBlank (l1 ++ NL ++ l2) = false).
  { rewrite isBlank_split_on, Hlines. simpl. now rewrite Hb1. }
  unfold splitCode. rewrite trim_length_zero, Hblank.
  destruct (falsy (l1 ++ NL ++ l2)) eqn:F;
    [apply falsy_isBlank in F; congruence|].
  simpl orb. cbv iota.
  destruct (maxTokens <=? 0) eqn:E; [apply Z.leb_le in E; lia|].
  rewrite Hlines. cbv zeta. simpl splitCode_loop.
  unfold splitCode_step at 1. rewrite trim_length_zero, Hb1, Hc1.
  cbn [bind currentChunk currentTokenCount splits currentStartLine].
  destruct (n1 >? maxTokens) eqn:E1; [apply Z.gtb_lt in E1; lia|].
  replace (0 + n1 >? maxTokens) with false
    by (symmetry; destruct (Z.gtb_spec (0 + n1) maxTokens); [lia|reflexivity]).
  cbn [andb bind].
  unfold splitCode_step. rewrite trim_length_zero, Hb2, Hc2.
  cbn [bind currentChunk currentTokenCount splits currentStartLine].
  destruct (n2 >? maxTokens) eqn:E2; [apply Z.gtb_lt in E2; lia|].
  replace (0 + n1 + n2 >? maxTokens) with false
    by (symmetry; destruct (Z.gtb_spec (0 + n1 + n2) maxTokens);
        [lia|reflexivity]).
  cbn [andb bind currentChunk currentTokenCount splits currentStartLine app].
  change (Z.of_nat (List.length [l1; l2]) >? 0) with true. cbv iota.
  rewrite flushChunk_nonblank by (simpl; now rewrite Hb1).
  simpl app. unfold join. simpl. rewrite app_nil_r.
  do 3 f_equal; lia.
Qed.

(* ================================================================== *)
(** * The claims *)
(* ================================================================== *)

(** C2, at texts of two lines.  For every tokenizer, let two lines that
    are not blank have counts [n1] and [n2] that add up to no more than the
    budget, and let the joined text [l1 ++ "\n" ++ l2] measure [m]
    tokens, [m] other than [n1 + n2].  Then [splitCode] returns one split
    whose content is the joined text and whose stored [tokenCount] is the
    sum [n1 + n2], not the count [m] of that content. *)
Theorem splitCode_flush_records_the_sum :
  forall (tk : Tokenizer) (l1 l2 : jsstring) (startLine maxTokens n1 n2 m : Z),
    forallb (fun c => negb (ascii_eqb c newline)) l1 = true ->
    forallb (fun c => negb (ascii_eqb c newline)) l2 = true ->
    isBlank l1 = false -> isBlank l2 = false ->
    countTokens tk l1 = Ok n1 -> countTokens tk l2 = Ok n2 ->
    0 < maxTokens -> n1 + n2 <= maxTokens ->
    countTokens tk (l1 ++ NL ++ l2) = Ok m -> m <> n1 + n2 ->
    exists s,
      splitCode tk (l1 ++ NL ++ l2) startLine maxTokens = Ok [s] /\
      CodeSplit.tokenCount s = n1 + n2 /\
      countTokens tk (CodeSplit.content s) = Ok m /\
      CodeSplit.tokenCount s <> m.
Proof.
  intros tk l1 l2 startLine maxTokens n1 n2 m Hn1 Hn2 Hb1 Hb2 Hc1 Hc2 Hmax
         Hsum Hm Hne.
  exists (CodeSplit.mk (l1 ++ NL ++ l2) startLine (startLine + 1) (n1 + n2)).
  split; [apply splitCode_two_lines; assumption|]. simpl.
  split; [reflexivity|]. split; [assumption | congruence].
Qed.

(** At the lines "a" and "b" under a budget of 100, with one token a
    character: the split "a\nb" stores 2 and measures 3. *)
Lemma splitCode_flush_records_the_sum_witness :
  exists s,
    splitCode charTokenizer (str "a" ++ NL ++ str "b") 1 100 = Ok [s] /\
    CodeSplit.tokenCount s = 2 /\
    countTokens charTokenizer (CodeSplit.content s) = Ok 3.
Proof.
  destruct (splitCode_flush_records_the_sum charTokenizer (str "a") (str "b")
              1 100 1 1 3) as (s & H1 & H2 & H3 & _);
    try reflexivity; try lia.
  exists s. repeat split; assumption.
Defined.

(** C3, at texts of two lines.  For every tokenizer and budget, let two
    lines that are not blank have counts that add up to no more than the
    budget, while the joined text [l1 ++ "\n" ++ l2] measures [m] tokens,
    more than the budget.  Then [splitCode] returns that joined text as
    one split: a chunk of more than one character whose measured count
    exceeds [maxTokens]. *)
Theorem splitCode_flush_exceeds_the_budget :
  forall (tk : Tokenizer) (l1 l2 : jsstring) (startLine maxTokens n1 n2 m : Z),
    forallb (fun c => negb (ascii_eqb c newline)) l1 = true ->
    forallb (fun c => negb (ascii_eqb c newline)) l2 = true ->
    isBlank l1 = false -> isBlank l2 = false ->
    countTokens tk l1 = Ok n1 -> countTokens tk l2 = Ok n2 ->
    0 < maxTokens -> n1 + n2 <= maxTokens ->
    countTokens tk (l1 ++ NL ++ l2) = Ok m -> maxTokens < m ->
    exists s,
      splitCode tk (l1 ++ NL ++ l2) startLine maxTokens = Ok [s] /\
      countTokens tk (CodeSplit.content s) = Ok m /\
      maxTokens < m /\
      (1 < List.length (CodeSplit.content s))%nat.
Proof.
  intros tk l1 l2 startLine maxTokens n1 n2 m Hn1 Hn2 Hb1 Hb2 Hc1 Hc2 Hmax
         Hsum Hm Hlt.
  exists (CodeSplit.mk (l1 ++ NL ++ l2) startLine (startLine + 1) (n1 + n2)).
  split; [apply splitCode_two_lines; assumption|]. simpl.
  split; [assumption|]. split; [assumption|].
  rewrite length_app. simpl.
  destruct l1 as [|c l1]; [discriminate|]. simpl. lia.
Qed.

(** At the lines "ab" and "cd" under a budget of 4, with one token a
    character: the split "ab\ncd" measures 5. *)
Lemma splitCode_flush_exceeds_the_budget_witness :
  exists s,
    splitCode charTokenizer (str "ab" ++ NL ++ str "cd") 1 4 = Ok [s] /\
    countTokens charTokenizer (CodeSplit.content s) = Ok 5 /\
    CodeSplit.tokenCount s = 4.
Proof.
  destruct (splitCode_flush_exceeds_the_budget charTokenizer (str "ab")
              (str "cd") 1 4 2 2 5) as (s & H1 & H2 & _);
    try reflexivity; try lia.
  exists s. split; [exact H1|]. split; [exact H2|].
  assert (Hs : Ok [s]
               = Ok [CodeSplit.mk (str "ab" ++ NL ++ str "cd") 1 2 4])
    by (rewrite <- H1; reflexivity).
  injection Hs as ->. reflexivity.
Defined.

(** C4.  Whatever line [splitLongLine] is given (the lines over the budget
    among them), when it returns, every fragment has [startLine] and
    [endLine] equal to the number of the line, and the contents of the
    fragments, concatenated in order, are the line; and it does return
    whenever the encoder does not throw. *)
Theorem splitLongLine_reconstructs_line :
  forall (tk : Tokenizer) (line : jsstring) (lineNumber maxTokens : Z),
    (forall fragments,
       splitLongLine tk line lineNumber maxTokens = Ok fragments ->
       Forall (fun s => CodeSplit.startLine s = lineNumber
                        /\ CodeSplit.endLine s = lineNumber) fragments /\
       concat (map CodeSplit.content fragments) = line) /\
    ((forall s, isOk (encoding tk s) = true) ->
     exists fragments, splitLongLine tk line lineNumber maxTokens = Ok fragments).
Proof.
  intros tk line lineNumber maxTokens. split.
  - intros fragments H. unfold splitLongLine in H.
    apply splitLongLine_loop_spec in H; [|lia].
    destruct H as (new & -> & Hall & Hcat). now split.
  - intro Htotal. now apply splitLongLine_total.
Qed.

Lemma splitLongLine_reconstructs_line_witness :
  exists fragments,
    splitLongLine charTokenizer (str "ab cd,efgh") 7 3 = Ok fragments /\
    Forall (fun s => CodeSplit.startLine s = 7 /\ CodeSplit.endLine s = 7)
           fragments /\
    concat (map CodeSplit.content fragments) = str "ab cd,efgh".
Proof.
  destruct (splitLongLine_reconstructs_line charTokenizer (str "ab cd,efgh")
              7 3) as [Hspec Htotal].
  destruct Htotal as [fragments Hf]; [reflexivity|].
  exists fragments. split; [exact Hf|]. exact (Hspec fragments Hf).
Defined.

(** C6 as stated fails: on a text of white space only, [splitCode] returns
    the empty array even for a budget of 0, since the test of the text
    comes before the test of the budget. *)
Lemma splitCode_blank_text_zero_budget :
  isBlank (str "   ") = true /\
  splitCode charTokenizer (str "   ") 1 0 = Ok [].
Proof. split; reflexivity. Qed.

(** C6, amended.  On an empty or white-space-only text [splitCode] returns
    the empty array, for every budget; on every other text a budget
    [maxTokens <= 0] makes it throw the [TokenProcessingError]
    "maxTokens must be greater than 0". *)
Theorem splitCode_blank_then_budget :
  forall (tk : Tokenizer) (sourceCode : jsstring) (startLine maxTokens : Z),
    (forallb isWhiteSpace sourceCode = true ->
     splitCode tk sourceCode startLine maxTokens = Ok []) /\
    (forallb isWhiteSpace sourceCode = false -> maxTokens <= 0 ->
     splitCode tk sourceCode startLine maxTokens
     = Throw (mkExn TokenProcessingError
                    (str "maxTokens must be greater than 0"))).
Proof.
  intros tk sourceCode startLine maxTokens. unfold splitCode.
  fold (isBlank sourceCode). split.
  - intro H. apply isBlank_true_iff in H. rewrite H, orb_true_r. reflexivity.
  - intros H Hmax. apply isBlank_false_iff in H. rewrite H.
    destruct (falsy sourceCode) eqn:F.
    + apply falsy_isBlank in F. congruence.
    + simpl. destruct (maxTokens <=? 0) eqn:E; [reflexivity|].
      apply Z.leb_gt in E. lia.
Qed.

Lemma splitCode_blank_then_budget_witness :
  splitCode charTokenizer (str " ") 1 (-3) = Ok [] /\
  splitCode charTokenizer (str "test") 1 0
  = Throw (mkExn TokenProcessingError (str "maxTokens must be greater than 0")).
Proof.
  split.
  - apply (splitCode_blank_then_budget charTokenizer (str " ") 1 (-3)).
    reflexivity.
  - apply (splitCode_blank_then_budget charTokenizer (str "test") 1 0).
    + reflexivity.
    + lia.
Defined.

(** C7, at a repository of two files with a concurrency of 1.  The loop
    waits once for the file [a.ts].  Its comment says that the completed
    promise is removed from [inProgress], but [findIndex] compares the
    promises with a new promise and finds none, so the result it waited
    for stays there and is collected again at the end.  The aggregate
    holds the chunks of [a.ts] twice, and a chunk that starts on line 4
    comes before one of the same file that starts on line 2: it is not
    sorted by (filePath, startLine). *)
Theorem aggregate_collects_the_first_file_twice :
  exists result,
    batchProcessFiles noScan classEnv
      (BatchProcessingOptions.mk (str "/repo") 100 (str "gpt-4") (Some 1)
                                 None None None)
    = Fulfilled result
    /\ map (fun c => (ChunkMetadata.filePath (FileChunk.metadata c),
                      FileChunk.startLine c))
           (BatchProcessingResult.chunks result)
       = [ (str "a.ts", 2); (str "a.ts", 3); (str "a.ts", 4);
           (str "a.ts", 2); (str "a.ts", 3); (str "a.ts", 4);
           (str "b.ts", 2); (str "b.ts", 3); (str "b.ts", 4) ]
    /\ ~ StronglySorted chunkOrder (BatchProcessingResult.chunks result).
Proof.
  eexists. split; [vm_compute; reflexivity|]. split; [reflexivity|].
  intro H.
  inversion H as [|? ? H1 _]; subst. inversion H1 as [|? ? H2 _]; subst.
  inversion H2 as [|? ? _ Hall]; subst.
  inversion Hall as [|? ? Hord _]; subst.
  destruct Hord as [[_ Hne] | [_ Hle]]; [now apply Hne | simpl in Hle; lia].
Qed.

(** C8, at the file [src/chunk-file.ts] whose text makes the encoder
    throw: [countTokens] throws a [TokenProcessingError], [chunkFile]
    catches it and throws a [ParsingError] in its place, and the batch
    layer, which reads the type off the message, records [file_system],
    since the message holds the path and the path holds "file".  The file
    contributes no chunks. *)
Theorem tokenizer_failure_is_not_token_processing :
  countTokens (mkTokenizer guardedEncoding (str "gpt-4")) markerFile
  = Throw (mkExn TokenProcessingError
             (str "Failed to count tokens: The text contains a special token that is not allowed"))
  /\
  chunkFile noScan markerEnv (str "src/chunk-file.ts") 100 (str "gpt-4")
  = Throw (mkExn ParsingError
             (str "Unexpected error processing src/chunk-file.ts: Failed to count tokens: The text contains a special token that is not allowed"))
  /\
  processFileWithErrorHandling noScan markerEnv (str "src/chunk-file.ts") 100
                               (str "gpt-4") true
  = Ok (FileProcessingResult.mk (str "src/chunk-file.ts") []
          (Some (ProcessingError.mk file_system (str "src/chunk-file.ts")
                   (str "Unexpected error processing src/chunk-file.ts: Failed to count tokens: The text contains a special token that is not allowed")
                   true))).
Proof. repeat split; reflexivity. Qed.

(** C9, at the model name ["constructor"], which is not in the table:
    [SUPPORTED_MODELS["constructor"]] is the function inherited from
    [Object.prototype], a truthy value, so the fallback to [cl100k_base] is
    not taken; [get_encoding] is called on that function, and when it
    throws, the constructor throws a [TokenProcessingError]. *)
Theorem Tokenizer_new_inherited_member :
  forall (get_encoding : JsValue -> Result Encoding) (e : Exn),
    get_encoding (JInherited (str "constructor")) = Throw e ->
    assoc (str "constructor") SUPPORTED_MODELS = None /\
    orElse (getProperty SUPPORTED_MODELS (str "constructor"))
           (JString (str "cl100k_base"))
    = JInherited (str "constructor") /\
    createTokenizer get_encoding (str "constructor")
    = Throw (mkExn TokenProcessingError
               (str "Failed to initialize tokenizer for model constructor: "
                ++ exnMessage e)).
Proof.
  intros get_encoding e H.
  split; [reflexivity|]. split; [reflexivity|].
  unfold createTokenizer, Tokenizer_new.
  change (orElse (getProperty SUPPORTED_MODELS (str "constructor"))
                 (JString (str "cl100k_base")))
    with (JInherited (str "constructor")).
  cbv zeta. rewrite H. reflexivity.
Qed.

Lemma Tokenizer_new_inherited_member_witness :
  createTokenizer strict_get_encoding (str "constructor")
  = Throw (mkExn TokenProcessingError
             (str "Failed to initialize tokenizer for model constructor: "
              ++ str "Invalid encoding")).
Proof.
  apply (Tokenizer_new_inherited_member strict_get_encoding
           (mkExn PlainError (str "Invalid encoding"))).
  reflexivity.
Defined.

(** C10. [countTokens] gives 0 for every text made of white space only
    (the empty text among them), whatever the encoder is or does, so it is
    not consulted; hence no such text exceeds a positive budget:
    [exceedsLimit] answers [false], and the assembler emits a blank unit
    unsplit with a count of 0. *)
Theorem countTokens_whitespace_is_zero :
  forall (tk : Tokenizer) (text : jsstring),
    forallb isWhiteSpace text = true ->
    countTokens tk text = Ok 0 /\
    forall maxTokens, 0 < maxTokens ->
      exceedsLimit tk text maxTokens = Ok false /\
      forall scan startLine endLine filePath language,
        exists meta,
          processGapContent scan text startLine endLine filePath language
                            maxTokens tk
          = Ok [FileChunk.mk text meta startLine endLine 0]
          /\ ChunkMetadata.chunkType meta = gap.
Proof.
  intros tk text Hws. apply isBlank_true_iff in Hws.
  pose proof (countTokens_blank tk _ Hws) as Hc.
  split; [exact Hc|]. intros maxTokens Hpos. split.
  - unfold exceedsLimit. rewrite Hc. simpl.
    destruct (0 >? maxTokens) eqn:E; [|reflexivity].
    apply Z.gtb_lt in E. lia.
  - intros scan startLine endLine filePath language.
    unfold processGapContent. destruct (scan text (str "gap")) as [im ex].
    rewrite Hc. simpl.
    destruct (0 <=? maxTokens) eqn:E; [|apply Z.leb_gt in E; lia].
    eexists. split; reflexivity.
Qed.

Lemma countTokens_whitespace_is_zero_witness :
  countTokens charTokenizer (str "  " ++ NL) = Ok 0 /\
  exceedsLimit charTokenizer (str "  " ++ NL) 1 = Ok false.
Proof.
  destruct (countTokens_whitespace_is_zero charTokenizer (str "  " ++ NL))
    as [H0 H1]; [reflexivity|].
  split; [exact H0|]. apply (H1 1). lia.
Defined.

(* ================================================================== *)
(** * Further properties of the tokenizer *)
(* ================================================================== *)

(** X1.  For every model name that is not the name of a member inherited
    from [Object.prototype], in the table or not, the constructor asks
    tiktoken for [cl100k_base]: it returns a tokenizer with that encoder
    and the given name, and when tiktoken throws it throws a
    [TokenProcessingError] whose message names the model and carries the
    message of tiktoken. *)
Theorem Tokenizer_new_requests_cl100k_base :
  forall (get_encoding : JsValue -> Result Encoding) (mdl : jsstring),
    existsb (jsstring_eqb mdl) Object_prototype_members = false ->
    Tokenizer_new get_encoding mdl
    = match get_encoding (JString (str "cl100k_base")) with
      | Ok enc => Ok (mkTokenizer enc mdl)
      | Throw error =>
          Throw (mkExn TokenProcessingError
                   (str "Failed to initialize tokenizer for model " ++ mdl
                    ++ str ": " ++ exnMessage error))
      end.
Proof.
  intros get_encoding mdl H. unfold Tokenizer_new.
  rewrite (encodingName_fallback _ H). cbv zeta.
  destruct (get_encoding (JString (str "cl100k_base"))); reflexivity.
Qed.

Lemma Tokenizer_new_requests_cl100k_base_witness :
  Tokenizer_new strict_get_encoding (str "gpt-4")
  = Ok (mkTokenizer charEncoding (str "gpt-4")) /\
  Tokenizer_new strict_get_encoding (str "my-own-model")
  = Ok (mkTokenizer charEncoding (str "my-own-model")).
Proof.
  split.
  - rewrite (Tokenizer_new_requests_cl100k_base strict_get_encoding
               (str "gpt-4")); reflexivity.
  - rewrite (Tokenizer_new_requests_cl100k_base strict_get_encoding
               (str "my-own-model")); reflexivity.
Defined.

(** X2.  The function [countTokens(text, modelName)] of the module fails
    with nothing but a [TokenProcessingError]; and on a text of white
    space it gives 0 only when the tokenizer can be created: when tiktoken
    cannot load the encoding it throws, though no token is ever counted. *)
Theorem module_countTokens_needs_the_encoding :
  forall (get_encoding : JsValue -> Result Encoding) (text mdl : jsstring),
    (forall e, TokenizerModule.countTokens get_encoding text mdl = Throw e ->
               exnClass e = TokenProcessingError) /\
    (isBlank text = true ->
     TokenizerModule.countTokens get_encoding text mdl
     = match createTokenizer get_encoding mdl with
       | Ok _ => Ok 0
       | Throw e => Throw e
       end).
Proof.
  intros get_encoding text mdl. unfold TokenizerModule.countTokens. split.
  - intros e. unfold createTokenizer, Tokenizer_new.
    destruct (get_encoding _) as [enc|e0]; simpl.
    + apply countTokens_throw.
    + intros [= <-]. reflexivity.
  - intro Hb. destruct (createTokenizer get_encoding mdl) as [tk|e]; simpl.
    + now apply countTokens_blank.
    + reflexivity.
Qed.

Lemma module_countTokens_needs_the_encoding_witness :
  TokenizerModule.countTokens strict_get_encoding (str "  ") (str "gpt-4")
  = Ok 0 /\
  TokenizerModule.countTokens (fun _ => Throw (mkExn PlainError (str "no wasm")))
    (str "  ") (str "gpt-4")
  = Throw (mkExn TokenProcessingError
             (str "Failed to initialize tokenizer for model gpt-4: no wasm")).
Proof.
  split.
  - destruct (module_countTokens_needs_the_encoding strict_get_encoding
                (str "  ") (str "gpt-4")) as [_ H].
    rewrite H; reflexivity.
  - destruct (module_countTokens_needs_the_encoding
                (fun _ => Throw (mkExn PlainError (str "no wasm")))
                (str "  ") (str "gpt-4")) as [_ H].
    rewrite H; reflexivity.
Defined.

(* ================================================================== *)
(** * Further properties of the splitter *)
(* ================================================================== *)

Lemma slice_0_length (text : jsstring) k :
  0 <= k <= jslength text -> jslength (slice text 0 k) = k.
Proof.
  intros Hk. rewrite slice_0 by lia. unfold jslength in *.
  rewrite length_firstn. lia.
Qed.

(** The binary search, under counts that grow with the prefix. *)
Lemma findCharacterSplit_loop_longest tk text maxTokens :
  (forall i j a b, 0 <= i <= j -> j <= jslength text ->
     countTokens tk (slice text 0 i) = Ok a ->
     countTokens tk (slice text 0 j) = Ok b -> a <= b) ->
  forall fuel left right best k,
    (Z.to_nat (right - left + 1) < fuel)%nat ->
    0 <= left -> right <= jslength text -> 0 <= best <= jslength text ->
    (forall j, 0 <= j < left -> j <= best) ->
    (forall j n, right < j <= jslength text ->
       countTokens tk (slice text 0 j) = Ok n -> maxTokens < n) ->
    findCharacterSplit_loop fuel tk text maxTokens left right best = Ok k ->
    0 <= k <= jslength text /\
    forall j n, 0 <= j <= jslength text ->
      countTokens tk (slice text 0 j) = Ok n -> n <= maxTokens -> j <= k.
Proof.
  intros Hmono.
  induction fuel as [|fuel IH]; intros left right best k Hfuel Hl Hr Hb Hlow
    Hhigh; [lia|].
  simpl. destruct (left <=? right) eqn:Hle.
  - apply Z.leb_le in Hle.
    assert (Hmid : left <= (left + right) / 2 <= right).
    { split.
      - apply Z.div_le_lower_bound; lia.
      - apply Z.div_le_upper_bound; lia. }
    set (mid := (left + right) / 2) in *.
    destruct (countTokens tk (slice text 0 mid)) as [n|e] eqn:En; simpl;
      [|discriminate].
    destruct (n <=? maxTokens) eqn:Hfit.
    + apply IH; try lia. exact Hhigh.
    + apply Z.leb_gt in Hfit. apply IH; try lia; [exact Hlow|].
      intros j m Hj Hm.
      destruct (Z.le_gt_cases j right) as [Hjr|Hjr].
      * assert (n <= m) by (apply (Hmono mid j n m); try assumption; lia).
        lia.
      * apply (Hhigh j m); [lia | assumption].
  - apply Z.leb_gt in Hle. intros [= <-]. split; [assumption|].
    intros j n Hj Hn Hfit.
    destruct (Z.lt_ge_cases j left) as [Hjl|Hjl].
    + apply Hlow. lia.
    + assert (maxTokens < n) by (apply (Hhigh j n); [lia | assumption]). lia.
Qed.

(** X3.  When the count of a prefix never goes down as the prefix grows,
    the binary search of [findCharacterSplit] returns the longest prefix
    of the text whose count is within the budget: the result starts the
    text, and every prefix that fits is no longer than it. *)
Theorem findCharacterSplit_longest_prefix :
  forall (tk : Tokenizer) (text : jsstring) (maxTokens : Z) (r : jsstring),
    (forall i j a b, 0 <= i <= j -> j <= jslength text ->
       countTokens tk (slice text 0 i) = Ok a ->
       countTokens tk (slice text 0 j) = Ok b -> a <= b) ->
    findCharacterSplit tk text maxTokens = Ok r ->
    isPrefix r text /\
    (0 <= maxTokens -> measuredWithin tk maxTokens r) /\
    forall j n, 0 <= j <= jslength text ->
      countTokens tk (slice text 0 j) = Ok n -> n <= maxTokens ->
      j <= jslength r.
Proof.
  intros tk text maxTokens r Hmono Hr.
  split; [eapply findCharacterSplit_prefix; eassumption|].
  split; [intro Hmax; eapply findCharacterSplit_measured; eassumption|].
  unfold findCharacterSplit in Hr.
  destruct findCharacterSplit_loop as [k|] eqn:E; simpl in Hr; [|discriminate].
  injection Hr as <-.
  apply (findCharacterSplit_loop_longest tk text maxTokens Hmono) in E.
  - destruct E as [Hk Hlong]. rewrite slice_0_length by assumption.
    exact Hlong.
  - unfold jslength. lia.
  - lia.
  - lia.
  - unfold jslength. lia.
  - intros j Hj. lia.
  - intros j n Hj. lia.
Qed.

Lemma findCharacterSplit_longest_prefix_witness :
  findCharacterSplit charTokenizer (str "abc") 2 = Ok (str "ab") /\
  isPrefix (str "ab") (str "abc") /\
  forall j n, 0 <= j <= 3 ->
    countTokens charTokenizer (slice (str "abc") 0 j) = Ok n -> n <= 2 ->
    j <= 2.
Proof.
  split; [reflexivity|].
  destruct (findCharacterSplit_longest_prefix charTokenizer (str "abc") 2
              (str "ab")) as (H1 & _ & H3).
  - intros i j a b Hi Hj. change (jslength (str "abc")) with 3 in Hj.
    assert (Hi' : i = 0 \/ i = 1 \/ i = 2 \/ i = 3) by lia.
    assert (Hj' : j = 0 \/ j = 1 \/ j = 2 \/ j = 3) by lia.
    destruct Hi' as [->|[->|[->| ->]]], Hj' as [->|[->|[->| ->]]];
      vm_compute; intros [= <-] [= <-]; try discriminate; lia.
  - reflexivity.
  - split; [exact H1|]. exact H3.
Defined.

(** What [findBestSplit] accumulates for one delimiter is the text up to
    one of the places where the delimiter stands, or all of it. *)
Lemma accumulateParts_taken tk maxTokens d parts :
  forall cur r,
    accumulateParts tk maxTokens d parts false cur = Ok r ->
    exists taken remaining,
      parts = taken ++ remaining /\
      r = cur ++ concat (map (fun q => [d] ++ q) taken) /\
      (taken = [] \/ measuredWithin tk maxTokens r).
Proof.
  induction parts as [|p rest IH]; intros cur r; simpl.
  - intros [= <-]. exists [], []. simpl. rewrite app_nil_r. auto.
  - destruct (countTokens tk (cur ++ d :: p)) as [n|] eqn:En; simpl;
      [|discriminate].
    destruct (n <=? maxTokens) eqn:Hfit.
    + intro H. apply IH in H as (taken & remaining & -> & -> & Hm).
      exists (p :: taken), remaining. simpl. rewrite <- app_assoc. simpl.
      split; [reflexivity|]. split; [reflexivity|]. right.
      destruct Hm as [-> | Hm].
      * simpl. rewrite app_nil_r. exists n. split; [assumption|].
        now apply Z.leb_le.
      * rewrite <- app_assoc in Hm. exact Hm.
    + intros [= <-]. exists [], (p :: rest). simpl. rewrite app_nil_r. auto.
Qed.

Lemma accumulateParts_cut tk maxTokens d text r :
  accumulateParts tk maxTokens d (split_on d text) true [] = Ok r ->
  r = [] \/
  ((r = text \/ exists rest, text = r ++ d :: rest)
   /\ measuredWithin tk maxTokens r).
Proof.
  intro H. pose proof (join_split_on d text) as Hjoin.
  destruct (split_on d text) as [|p rest]; simpl in *.
  - injection H as <-. now left.
  - destruct (countTokens tk p) as [n|] eqn:En; simpl in H; [|discriminate].
    destruct (n <=? maxTokens) eqn:Hfit.
    + apply accumulateParts_taken in H
        as (taken & remaining & -> & -> & Hm).
      right. split.
      * rewrite map_app, concat_app, app_assoc in Hjoin.
        destruct remaining as [|q remaining]; simpl in Hjoin.
        -- left. now rewrite app_nil_r in Hjoin.
        -- right. eexists. symmetry. exact Hjoin.
      * destruct Hm as [-> | Hm]; [|assumption].
        simpl. rewrite app_nil_r. exists n. split; [assumption|].
        now apply Z.leb_le.
    + injection H as <-. now left.
Qed.

Lemma findBestSplit_loop_cut tk maxTokens text (all : list ascii) ds :
  forall best r,
    (forall d, In d ds -> In d all) ->
    (best = [] \/
     ((best = text \/ exists d rest, In d all /\ text = best ++ d :: rest)
      /\ measuredWithin tk maxTokens best)) ->
    findBestSplit_loop tk text maxTokens ds best = Ok r ->
    r = [] \/
    ((r = text \/ exists d rest, In d all /\ text = r ++ d :: rest)
     /\ measuredWithin tk maxTokens r).
Proof.
  induction ds as [|d ds IH]; intros best r Hin Hbest; simpl.
  - now intros [= <-].
  - destruct (accumulateParts tk maxTokens d (split_on d text) true [])
      as [cur|] eqn:E; simpl; [|discriminate].
    apply IH; [intros d' Hd'; apply Hin; now right|].
    destruct (jslength cur >? jslength best); [|assumption].
    apply accumulateParts_cut in E as [-> | [[-> | [rest Hrest]] Hm]].
    + now left.
    + right. split; [now left | assumption].
    + right. split; [|assumption]. right. exists d, rest.
      split; [apply Hin; now left | assumption].
Qed.

(** X4.  What [findBestSplit] returns, when it is not empty, is the text
    cut just before one of the delimiters it was given, or the whole
    text; and it was measured within the budget. *)
Theorem findBestSplit_cuts_at_a_delimiter :
  forall (tk : Tokenizer) (text : jsstring) (maxTokens : Z)
         (ds : list ascii) (r : jsstring),
    findBestSplit tk text maxTokens ds = Ok r -> r <> [] ->
    (r = text \/ exists d rest, In d ds /\ text = r ++ d :: rest) /\
    measuredWithin tk maxTokens r.
Proof.
  intros tk text maxTokens ds r H Hne. unfold findBestSplit in H.
  apply (findBestSplit_loop_cut tk maxTokens text ds) in H
    as [-> | H]; [congruence | exact H | auto | now left].
Qed.

Lemma findBestSplit_cuts_at_a_delimiter_witness :
  findBestSplit charTokenizer (str "f(a, b)") 5 delimiters = Ok (str "f(a,") /\
  (exists d rest, In d delimiters /\ str "f(a, b)" = str "f(a," ++ d :: rest).
Proof.
  split; [reflexivity|].
  destruct (findBestSplit_cuts_at_a_delimiter charTokenizer (str "f(a, b)") 5
              delimiters (str "f(a,")) as [[H | H] _].
  - reflexivity.
  - discriminate.
  - discriminate.
  - exact H.
Defined.

Lemma splitLongLine_loop_nonempty tk maxTokens lineNumber fuel :
  forall remaining acc out,
    Forall (fun s => CodeSplit.content s <> []) acc ->
    splitLongLine_loop fuel tk lineNumber maxTokens remaining acc = Ok out ->
    Forall (fun s => CodeSplit.content s <> []) out.
Proof.
  induction fuel as [|fuel IH]; intros remaining acc out Hacc; simpl.
  - now intros [= <-].
  - destruct (jslength remaining >? 0) eqn:Hpos; [|now intros [= <-]].
    destruct (nextSplit tk remaining maxTokens) as [b|] eqn:Eb; simpl;
      [|discriminate].
    destruct (countTokens tk b) as [n|] eqn:En; simpl; [|discriminate].
    apply IH. apply Forall_app. split; [assumption|].
    constructor; [|constructor]. simpl.
    apply nextSplit_prefix in Eb as [_ Hne]. apply Hne.
    intros ->. discriminate.
Qed.

Lemma concat_length_nonempty {A} (ls : list (list A)) :
  Forall (fun l => l <> []) ls ->
  (List.length ls <= List.length (concat ls))%nat.
Proof.
  induction 1 as [|l ls Hl _ IH]; simpl; [lia|].
  rewrite length_app. destruct l; [congruence|]. simpl. lia.
Qed.

(** X5.  The fragments [splitLongLine] cuts a line into are not empty, all
    lie on the line's number, and each stores the count measured on its
    own content; that count is within the budget unless the fragment is
    the one character taken when nothing fits.  There are no more
    fragments than the line has characters. *)
Theorem splitLongLine_fragments_are_measured :
  forall (tk : Tokenizer) (line : jsstring) (lineNumber maxTokens : Z)
         (out : list CodeSplit.t),
    0 <= maxTokens ->
    splitLongLine tk line lineNumber maxTokens = Ok out ->
    Forall (fun s =>
              CodeSplit.content s <> [] /\
              CodeSplit.startLine s = lineNumber /\
              CodeSplit.endLine s = lineNumber /\
              countTokens tk (CodeSplit.content s)
              = Ok (CodeSplit.tokenCount s) /\
              (CodeSplit.tokenCount s <= maxTokens
               \/ List.length (CodeSplit.content s) = 1%nat)) out /\
    (List.length out <= List.length line)%nat.
Proof.
  intros tk line lineNumber maxTokens out Hmax H.
  pose proof (splitLongLine_fragments tk maxTokens Hmax _ _ _ H) as Hfr.
  unfold splitLongLine in H.
  pose proof (splitLongLine_loop_nonempty tk maxTokens lineNumber _ _ _ _
                (Forall_nil _) H) as Hne.
  apply splitLongLine_loop_spec in H; [|lia].
  destruct H as (new & -> & Hlines & Hcat). simpl in *. split.
  - rewrite Forall_forall in *. intros s Hs.
    destruct (Hfr s Hs) as [Hc Hb]. destruct (Hlines s Hs) as [H1 H2].
    repeat split; try assumption. now apply Hne.
  - rewrite <- Hcat.
    rewrite <- (length_map CodeSplit.content new).
    apply concat_length_nonempty. now apply Forall_map.
Qed.

Lemma splitLongLine_fragments_are_measured_witness :
  exists out,
    splitLongLine charTokenizer (str "let x = 1;") 1 4 = Ok out /\
    map CodeSplit.content out = [str "let"; str " x ="; str " 1;"] /\
    Forall (fun s => countTokens charTokenizer (CodeSplit.content s)
                     = Ok (CodeSplit.tokenCount s)) out.
Proof.
  eexists. split; [vm_compute; reflexivity|].
  split; [reflexivity|].
  destruct (splitLongLine_fragments_are_measured charTokenizer
              (str "let x = 1;") 1 4 _ ltac:(lia) eq_refl) as [H _].
  eapply Forall_impl; [|exact H]. simpl. intros s (_ & _ & _ & Hc & _).
  exact Hc.
Defined.

(* ------------------------------------------------------------------ *)
(** ** The spans, the order and the stored counts of the splits *)

Lemma split_on_noNewline d s :
  Forall (fun p => forallb (fun c => negb (ascii_eqb c d)) p = true)
         (split_on d s).
Proof.
  induction s as [|c r IH]; simpl.
  - repeat constructor.
  - destruct (ascii_eqb c d) eqn:E.
    + constructor; [reflexivity | assumption].
    + destruct (split_on d r) as [|p ps]; inversion IH; subst.
      * repeat constructor. simpl. now rewrite E.
      * constructor; [|assumption]. simpl. now rewrite E.
Qed.

Lemma split_on_join d lines :
  lines <> [] ->
  Forall (fun p => forallb (fun c => negb (ascii_eqb c d)) p = true) lines ->
  split_on d (join [d] lines) = lines.
Proof.
  destruct lines as [|p rest]; [congruence|]. intros _ H.
  inversion H as [|? ? Hp Hrest]; subst. clear H. simpl.
  revert p Hp. induction Hrest as [|q rest Hq Hrest IH]; intros p Hp; simpl.
  - rewrite app_nil_r. now apply split_on_single.
  - rewrite split_on_app by assumption. f_equal. now apply IH.
Qed.

Lemma totalLines_join lines :
  lines <> [] -> Forall noNewline lines ->
  totalLines (join NL lines) = Z.of_nat (List.length lines).
Proof.
  intros Hne Hl. unfold totalLines, NL. now rewrite split_on_join.
Qed.

Lemma totalLines_noNewline l : noNewline l -> totalLines l = 1.
Proof. intro H. unfold totalLines. now rewrite split_on_single. Qed.

Lemma sumOfLineCounts_snoc tk lines n line c :
  sumOfLineCounts tk lines n -> countTokens tk line = Ok c ->
  sumOfLineCounts tk (lines ++ [line]) (n + c).
Proof.
  intros (counts & Hall & ->) Hc. exists (counts ++ [c]). split.
  - apply Forall2_app; [assumption|]. now repeat constructor.
  - rewrite fold_right_app. simpl.
    clear. induction counts as [|x counts IH]; simpl; lia.
Qed.

Lemma flushChunk_cases chunks lines s e n :
  (flushChunk chunks lines s e n = chunks) \/
  (lines <> [] /\
   flushChunk chunks lines s e n
   = chunks ++ [CodeSplit.mk (join NL lines) s e n]).
Proof.
  unfold flushChunk. destruct lines as [|l ls]; [now left|].
  change (Z.of_nat (List.length (l :: ls)) =? 0) with false. cbv iota.
  destruct (jslength _ >? 0); [right | now left].
  split; [discriminate | reflexivity].
Qed.

Lemma spanOk_bound first b b' s : b <= b' -> spanOk first b s -> spanOk first b' s.
Proof. unfold spanOk. intros ? (? & ? & ? & ?). repeat split; auto; lia. Qed.

(** The splits after the pending lines have been flushed. *)
Lemma flushChunk_span tk startLine i st :
  spanInvariant tk startLine i st -> currentChunk st <> [] ->
  let out := flushChunk (splits st) (currentChunk st) (currentStartLine st)
               (startLine + i - 1) (currentTokenCount st) in
  Forall (spanOk startLine (startLine + i)) out /\
  StronglySorted comesAfter out /\
  Forall (fun s => sumOfLineCounts tk (split_on newline (CodeSplit.content s))
                                   (CodeSplit.tokenCount s)) out.
Proof.
  intros (H1 & H2 & H3 & H4 & H5 & H6 & H7) Hne. simpl.
  assert (Hlen : 1 <= Z.of_nat (List.length (currentChunk st))).
  { destruct (currentChunk st); [congruence | simpl; lia]. }
  assert (Hold : Forall (spanOk startLine (startLine + i)) (splits st)).
  { eapply Forall_impl; [|exact H4]. intros s. apply spanOk_bound. lia. }
  destruct (flushChunk_cases (splits st) (currentChunk st)
              (currentStartLine st) (startLine + i - 1)
              (currentTokenCount st)) as [-> | [_ ->]].
  - auto.
  - split; [|split].
    + apply Forall_app. split; [assumption|]. constructor; [|constructor].
      unfold spanOk. simpl. rewrite totalLines_join by assumption.
      repeat split; lia.
    + apply StronglySorted_snoc; [assumption|].
      eapply Forall_impl; [|exact H4]. intros s (_ & _ & Hs & _).
      left. simpl. lia.
    + apply Forall_app. split; [assumption|]. constructor; [|constructor].
      simpl. unfold NL. now rewrite split_on_join.
Qed.

Lemma noNewline_pieces (pieces : list jsstring) line :
  concat pieces = line -> noNewline line -> Forall noNewline pieces.
Proof.
  intros <- H. unfold noNewline in *. rewrite forallb_concat in H.
  apply Forall_forall. intros p Hp. rewrite forallb_forall in H.
  now apply H.
Qed.

Lemma StronglySorted_all {A} (R : A -> A -> Prop) l :
  (forall a b, In a l -> In b l -> R a b) -> StronglySorted R l.
Proof.
  induction l as [|x l IH]; intro H; constructor.
  - apply IH. intros a b Ha Hb. apply H; now right.
  - apply Forall_forall. intros b Hb. apply H; [now left | now right].
Qed.

Lemma splitLongLine_loop_fragments_counted tk maxTokens lineNumber fuel :
  forall remaining acc out,
    Forall (fun s => countTokens tk (CodeSplit.content s)
                     = Ok (CodeSplit.tokenCount s)) acc ->
    splitLongLine_loop fuel tk lineNumber maxTokens remaining acc = Ok out ->
    Forall (fun s => countTokens tk (CodeSplit.content s)
                     = Ok (CodeSplit.tokenCount s)) out.
Proof.
  induction fuel as [|fuel IH]; intros remaining acc out Hacc; simpl.
  - now intros [= <-].
  - destruct (jslength remaining >? 0); [|now intros [= <-]].
    destruct (nextSplit tk remaining maxTokens) as [b|]; simpl;
      [|discriminate].
    destruct (countTokens tk b) as [n|] eqn:En; simpl; [|discriminate].
    apply IH. apply Forall_app. split; [assumption|].
    now repeat constructor.
Qed.

Lemma splitCode_step_span tk startLine maxTokens st i line st' :
  noNewline line ->
  spanInvariant tk startLine i st ->
  splitCode_step tk startLine maxTokens st i line = Ok st' ->
  spanInvariant tk startLine (i + 1) st'.
Proof.
  intros Hline Hinv. pose proof Hinv as (H1 & H2 & H3 & H4 & H5 & H6 & H7).
  assert (Hsnoc : Forall noNewline (currentChunk st ++ [line])).
  { apply Forall_app. split; [assumption | now repeat constructor]. }
  unfold splitCode_step. rewrite trim_length_zero.
  destruct (isBlank line) eqn:Hb.
  - intros [= <-]. unfold spanInvariant. simpl. rewrite length_app. simpl.
    repeat split; try assumption; try lia.
    replace (currentTokenCount st) with (currentTokenCount st + 0) by lia.
    apply sumOfLineCounts_snoc; [assumption|]. now apply countTokens_blank.
  - destruct (countTokens tk line) as [lineTokens|] eqn:El; simpl;
      [|discriminate].
    destruct (lineTokens >? maxTokens).
    + destruct (splitLongLine tk line (startLine + i) maxTokens)
        as [lineSplits|] eqn:Es; simpl; [|discriminate].
      intros [= <-].
      pose proof Es as Hsp. unfold splitLongLine in Hsp.
      pose proof (splitLongLine_loop_fragments_counted tk maxTokens
                    (startLine + i) _ _ _ _ (Forall_nil _) Hsp) as Hcount.
      apply splitLongLine_loop_spec in Hsp; [|lia].
      destruct Hsp as (new & -> & Hlines & Hcat). simpl in *.
      assert (Hnn : Forall noNewline (map CodeSplit.content new))
        by (eapply noNewline_pieces; eassumption).
      rewrite Forall_map in Hnn.
      assert (Hfrag : Forall (spanOk startLine (startLine + i + 1)) new).
      { rewrite Forall_forall in *. intros s Hs.
        destruct (Hlines s Hs) as [Ha Hb']. unfold spanOk.
        rewrite (totalLines_noNewline _ (Hnn s Hs)). repeat split; lia. }
      assert (Hfsum : Forall (fun s => sumOfLineCounts tk
                                (split_on newline (CodeSplit.content s))
                                (CodeSplit.tokenCount s)) new).
      { rewrite Forall_forall in *. intros s Hs.
        rewrite split_on_single by (apply (Hnn s Hs)).
        exists [CodeSplit.tokenCount s]. split.
        - repeat constructor. now apply Hcount.
        - simpl. lia. }
      assert (Hford : StronglySorted comesAfter new).
      { apply StronglySorted_all. intros a b Ha Hb'.
        rewrite Forall_forall in Hlines.
        destruct (Hlines a Ha) as [? ?]. destruct (Hlines b Hb') as [? ?].
        right. repeat split; congruence. }
      destruct (Z.of_nat (List.length (currentChunk st)) >? 0) eqn:Hne.
      * assert (Hc : currentChunk st <> []).
        { intros Habs. rewrite Habs in Hne. discriminate. }
        destruct (flushChunk_span tk startLine i st Hinv Hc)
          as (F1 & F2 & F3).
        unfold spanInvariant. simpl.
        split; [lia|]. split; [lia|]. split; [constructor|].
        split; [|split; [|split]].
        -- apply Forall_app. split; [|assumption].
           eapply Forall_impl; [|exact F1]. intros s.
           apply spanOk_bound. lia.
        -- apply StronglySorted_app; try assumption.
           intros a b Ha Hb'. rewrite Forall_forall in F1, Hlines.
           destruct (F1 a Ha) as (_ & _ & Hae & _).
           destruct (Hlines b Hb') as [Hbs _]. left. lia.
        -- exists []. split; [constructor | reflexivity].
        -- apply Forall_app. now split.
      * assert (Hc : currentChunk st = []).
        { destruct (currentChunk st); [reflexivity | discriminate]. }
        unfold spanInvariant. simpl. rewrite Hc in *. simpl in *.
        split; [lia|]. split; [lia|]. split; [constructor|].
        split; [|split; [|split]].
        -- apply Forall_app. split; [|assumption].
           eapply Forall_impl; [|exact H4]. intros s.
           apply spanOk_bound. lia.
        -- apply StronglySorted_app; try assumption.
           intros a b Ha Hb'. rewrite Forall_forall in H4, Hlines.
           destruct (H4 a Ha) as (_ & _ & Hae & _).
           destruct (Hlines b Hb') as [Hbs _]. left. lia.
        -- assumption.
        -- apply Forall_app. now split.
    + destruct ((currentTokenCount st + lineTokens >? maxTokens)
                && (Z.of_nat (List.length (currentChunk st)) >? 0)) eqn:Hover.
      * apply andb_true_iff in Hover as [_ Hne].
        assert (Hc : currentChunk st <> []).
        { intros Habs. rewrite Habs in Hne. discriminate. }
        destruct (flushChunk_span tk startLine i st Hinv Hc)
          as (F1 & F2 & F3).
        intros [= <-]. unfold spanInvariant. simpl.
        split; [lia|]. split; [lia|].
        split; [now repeat constructor|].
        split; [assumption|]. split; [assumption|]. split; [|assumption].
        exists [lineTokens]. split; [now repeat constructor | simpl; lia].
      * intros [= <-]. unfold spanInvariant. simpl. rewrite length_app.
        simpl. repeat split; try assumption; try lia.
        now apply sumOfLineCounts_snoc.
Qed.

Lemma splitCode_loop_span tk startLine maxTokens lines :
  forall i st st',
    Forall noNewline lines ->
    spanInvariant tk startLine i st ->
    splitCode_loop tk startLine maxTokens lines i st = Ok st' ->
    spanInvariant tk startLine (i + Z.of_nat (List.length lines)) st'.
Proof.
  induction lines as [|line rest IH]; intros i st st' Hl Hinv; simpl.
  - intros [= <-]. now rewrite Z.add_0_r.
  - inversion Hl; subst.
    destruct (splitCode_step tk startLine maxTokens st i line) as [st1|]
      eqn:E; simpl; [|discriminate].
    intro H. apply IH in H; [|assumption|].
    + replace (i + Z.pos (Pos.of_succ_nat (List.length rest)))
        with (i + 1 + Z.of_nat (List.length rest)) by lia.
      exact H.
    + eapply splitCode_step_span; eassumption.
Qed.

Lemma splitCode_spans tk text startLine maxTokens out :
  splitCode tk text startLine maxTokens = Ok out ->
  Forall (spanOk startLine (startLine + totalLines text)) out /\
  StronglySorted comesAfter out /\
  Forall (fun s => sumOfLineCounts tk (split_on newline (CodeSplit.content s))
                                   (CodeSplit.tokenCount s)) out.
Proof.
  unfold splitCode.
  destruct (_ || _); [intros [= <-]; repeat split; constructor|].
  destruct (maxTokens <=? 0); [discriminate|].
  destruct splitCode_loop as [st|] eqn:E; simpl; [|discriminate].
  apply splitCode_loop_span in E.
  - simpl in E. fold (totalLines text) in E. intros [= <-].
    destruct (Z.of_nat (List.length (currentChunk st)) >? 0) eqn:Hne.
    + assert (Hc : currentChunk st <> []).
      { intros Habs. rewrite Habs in Hne. discriminate. }
      apply (flushChunk_span tk startLine (totalLines text) st E Hc).
    + destruct E as (H1 & H2 & H3 & H4 & H5 & H6 & H7).
      assert (Hc : currentChunk st = []).
      { destruct (currentChunk st); [reflexivity | discriminate]. }
      rewrite Hc in H1. simpl in H1.
      split; [|split; assumption].
      eapply Forall_impl; [|exact H4]. intros s. apply spanOk_bound. lia.
  - apply split_on_noNewline.
  - unfold spanInvariant. simpl.
    split; [lia|]. split; [lia|]. split; [constructor|].
    split; [constructor|]. split; [constructor|].
    split; [|constructor]. exists []. split; [constructor | reflexivity].
Qed.

(** X6.  Every split [splitCode] returns lies inside the lines of the
    text, counted from [startLine], has its first line no later than its
    last, and spans exactly as many lines as its content has. *)
Theorem splitCode_spans_match_contents :
  forall (tk : Tokenizer) (text : jsstring) (startLine maxTokens : Z)
         (out : list CodeSplit.t),
    splitCode tk text startLine maxTokens = Ok out ->
    Forall (fun s =>
              startLine <= CodeSplit.startLine s /\
              CodeSplit.startLine s <= CodeSplit.endLine s /\
              CodeSplit.endLine s <= startLine + totalLines text - 1 /\
              totalLines (CodeSplit.content s)
              = CodeSplit.endLine s - CodeSplit.startLine s + 1) out.
Proof.
  intros tk text startLine maxTokens out H.
  apply splitCode_spans in H as [H _].
  eapply Forall_impl; [|exact H]. intros s (H1 & H2 & H3 & H4).
  repeat split; try assumption; lia.
Qed.

Lemma splitCode_spans_match_contents_witness :
  exists out,
    splitCode charTokenizer
      (str "line 1" ++ NL ++ str "line 2" ++ NL ++ str "line 3") 10 12
    = Ok out /\
    map (fun s => (CodeSplit.startLine s, CodeSplit.endLine s)) out
    = [(10, 11); (12, 12)] /\
    Forall (fun s => totalLines (CodeSplit.content s)
                     = CodeSplit.endLine s - CodeSplit.startLine s + 1) out.
Proof.
  eexists. split; [vm_compute; reflexivity|]. split; [reflexivity|].
  pose proof (splitCode_spans_match_contents charTokenizer
                (str "line 1" ++ NL ++ str "line 2" ++ NL ++ str "line 3")
                10 12 _ eq_refl) as H.
  eapply Forall_impl; [|exact H]. simpl. intros s (_ & _ & _ & Hs). exact Hs.
Defined.

(** X7.  The splits [splitCode] returns are in the order of the lines:
    each one starts after the line where the one before it ends, the
    fragments of one long line apart, which all lie on that line. *)
Theorem splitCode_splits_in_order :
  forall (tk : Tokenizer) (text : jsstring) (startLine maxTokens : Z)
         (out : list CodeSplit.t),
    splitCode tk text startLine maxTokens = Ok out ->
    StronglySorted comesAfter out.
Proof.
  intros tk text startLine maxTokens out H.
  now apply splitCode_spans in H as (_ & H & _).
Qed.

Lemma splitCode_splits_in_order_witness :
  exists out,
    splitCode charTokenizer
      (str "ab" ++ NL ++ str "a long line" ++ NL ++ str "cd") 1 6 = Ok out /\
    map (fun s => (CodeSplit.startLine s, CodeSplit.endLine s)) out
    = [(1, 1); (2, 2); (2, 2); (3, 3)] /\
    StronglySorted comesAfter out.
Proof.
  eexists. split; [vm_compute; reflexivity|]. split; [reflexivity|].
  exact (splitCode_splits_in_order charTokenizer
           (str "ab" ++ NL ++ str "a long line" ++ NL ++ str "cd") 1 6 _
           eq_refl).
Defined.

(** X8.  The [tokenCount] a split of [splitCode] stores is the sum of the
    counts of the lines of its content, each line counted on its own:
    the line separators, and what the encoder makes of lines put
    together, are not in it. *)
Theorem splitCode_stores_sum_of_line_counts :
  forall (tk : Tokenizer) (text : jsstring) (startLine maxTokens : Z)
         (out : list CodeSplit.t),
    splitCode tk text startLine maxTokens = Ok out ->
    Forall (fun s =>
              sumOfLineCounts tk (split_on newline (CodeSplit.content s))
                              (CodeSplit.tokenCount s)) out.
Proof.
  intros tk text startLine maxTokens out H.
  now apply splitCode_spans in H as (_ & _ & H).
Qed.

Lemma splitCode_stores_sum_of_line_counts_witness :
  exists s,
    splitCode charTokenizer
      (str "ab" ++ NL ++ NL ++ str "cde") 1 10 = Ok [s] /\
    CodeSplit.tokenCount s = 5 /\
    sumOfLineCounts charTokenizer (split_on newline (CodeSplit.content s))
                    (CodeSplit.tokenCount s).
Proof.
  eexists. split; [vm_compute; reflexivity|]. split; [reflexivity|].
  pose proof (splitCode_stores_sum_of_line_counts charTokenizer
                (str "ab" ++ NL ++ NL ++ str "cde") 1 10 _ eq_refl) as H.
  inversion H; subst. assumption.
Defined.

(* ------------------------------------------------------------------ *)
(** ** No line that is not blank is lost *)

Lemma flushChunk_In chunks lines s e n c :
  In c chunks -> In c (flushChunk chunks lines s e n).
Proof.
  intro H. destruct (flushChunk_cases chunks lines s e n) as [-> | [_ ->]];
    [assumption | apply in_or_app; now left].
Qed.

(** After a flush every line seen so far that is not blank is in a
    split. *)
Lemma flushChunk_kept tk (all : list jsstring) startLine i st :
  spanInvariant tk startLine i st -> linesKept all startLine i st ->
  forall k, 0 <= k < i -> isBlank (nth (Z.to_nat k) all []) = false ->
    exists c,
      In c (flushChunk (splits st) (currentChunk st) (currentStartLine st)
              (startLine + i - 1) (currentTokenCount st)) /\
      CodeSplit.startLine c <= startLine + k <= CodeSplit.endLine c.
Proof.
  intros Hinv Hkept k Hk Hb. destruct (Hkept k Hk Hb) as [(c & Hc & Hr)|[Hs Hp]].
  - exists c. split; [now apply flushChunk_In | assumption].
  - rewrite flushChunk_nonblank by assumption. eexists. split.
    + apply in_or_app. right. now left.
    + simpl. lia.
Qed.

Lemma splitCode_step_kept tk (all : list jsstring) startLine maxTokens st i
    (line : jsstring) st' :
  0 <= i -> nth (Z.to_nat i) all [] = line ->
  spanInvariant tk startLine i st -> linesKept all startLine i st ->
  splitCode_step tk startLine maxTokens st i line = Ok st' ->
  linesKept all startLine (i + 1) st'.
Proof.
  intros Hi Hnth Hinv Hkept.
  pose proof Hinv as (H1 & H2 & _).
  unfold splitCode_step. rewrite trim_length_zero.
  destruct (isBlank line) eqn:Hb.
  - intros [= <-] k Hk Hkb. simpl.
    destruct (Z.eq_dec k i) as [-> | Hne];
      [rewrite Hnth, Hb in Hkb; discriminate|].
    destruct (Hkept k ltac:(lia) Hkb) as [Hc | [Hs Hp]]; [now left|].
    right. split; [assumption|]. rewrite existsb_snoc, Hp. reflexivity.
  - destruct (countTokens tk line) as [lineTokens|] eqn:El; simpl;
      [|discriminate].
    destruct (lineTokens >? maxTokens).
    + destruct (splitLongLine tk line (startLine + i) maxTokens)
        as [lineSplits|] eqn:Es; simpl; [|discriminate].
      intros [= <-] k Hk Hkb. left. simpl.
      destruct (Z.eq_dec k i) as [-> | Hne].
      * pose proof Es as Hsp. unfold splitLongLine in Hsp.
        apply splitLongLine_loop_spec in Hsp; [|lia].
        destruct Hsp as (new & -> & Hlines & Hcat). simpl in *.
        destruct new as [|c new].
        -- rewrite <- Hcat in Hb. vm_compute in Hb. discriminate.
        -- exists c. inversion Hlines as [|? ? [Ha Hb'] _]; subst.
           split; [|lia].
           destruct (_ >? 0); simpl; apply in_or_app; right; now left.
      * destruct (Z.of_nat (List.length (currentChunk st)) >? 0) eqn:Hne'.
        -- destruct (flushChunk_kept tk all startLine i st Hinv Hkept k
                       ltac:(lia) Hkb) as (c & Hc & Hr).
           exists c. split; [|assumption]. simpl. apply in_or_app. now left.
        -- destruct (Hkept k ltac:(lia) Hkb) as [(c & Hc & Hr) | [_ Hp]].
           ++ exists c. split; [|assumption]. apply in_or_app. now left.
           ++ destruct (currentChunk st); discriminate.
    + destruct ((currentTokenCount st + lineTokens >? maxTokens)
                && (Z.of_nat (List.length (currentChunk st)) >? 0)).
      * intros [= <-] k Hk Hkb. simpl.
        destruct (Z.eq_dec k i) as [-> | Hne].
        -- right. split; [lia|]. now rewrite Hb.
        -- left. apply (flushChunk_kept tk all startLine i st Hinv Hkept);
             [lia | assumption].
      * intros [= <-] k Hk Hkb. simpl.
        destruct (Z.eq_dec k i) as [-> | Hne].
        -- right. split; [lia|]. rewrite existsb_snoc, Hb.
           apply orb_true_r.
        -- destruct (Hkept k ltac:(lia) Hkb) as [Hc | [Hs Hp]]; [now left|].
           right. split; [assumption|]. rewrite existsb_snoc, Hp.
           reflexivity.
Qed.

Lemma splitCode_loop_kept tk (all : list jsstring) startLine maxTokens
    (rest : list jsstring) :
  forall (done : list jsstring) i st st',
    all = done ++ rest -> i = Z.of_nat (List.length done) ->
    Forall noNewline rest ->
    spanInvariant tk startLine i st -> linesKept all startLine i st ->
    splitCode_loop tk startLine maxTokens rest i st = Ok st' ->
    spanInvariant tk startLine (Z.of_nat (List.length all)) st' /\
    linesKept all startLine (Z.of_nat (List.length all)) st'.
Proof.
  induction rest as [|line rest IH]; intros done i st st' Hall Hi Hnn Hinv
    Hkept; simpl.
  - intros [= <-]. subst. rewrite app_nil_r in *. now split.
  - inversion Hnn; subst.
    destruct (splitCode_step tk startLine maxTokens st
                (Z.of_nat (List.length done)) line) as [st1|] eqn:E; simpl;
      [|discriminate].
    apply (IH (done ++ [line])).
    + now rewrite <- app_assoc.
    + rewrite length_app. simpl. lia.
    + assumption.
    + eapply splitCode_step_span; eassumption.
    + eapply splitCode_step_kept; try eassumption; [lia|].
      rewrite Nat2Z.id, app_nth2 by lia. now rewrite Nat.sub_diag.
Qed.

Lemma splitCode_kept tk text startLine maxTokens out :
  splitCode tk text startLine maxTokens = Ok out ->
  forall k, 1 <= k <= totalLines text ->
    isBlank (lineAt text k) = false ->
    exists c, In c out /\
              CodeSplit.startLine c <= startLine + k - 1
                                    <= CodeSplit.endLine c.
Proof.
  intros H k Hk Hb.
  unfold splitCode in H. rewrite trim_length_zero in H.
  destruct (falsy text || isBlank text) eqn:Hblank.
  - exfalso. assert (Hbt : isBlank text = true).
    { apply orb_true_iff in Hblank as [F|F];
        [now apply falsy_isBlank | assumption]. }
    rewrite isBlank_split_on, forallb_forall in Hbt.
    unfold lineAt in Hb. rewrite Hbt in Hb; [discriminate|].
    apply nth_In. unfold totalLines in Hk. lia.
  - destruct (maxTokens <=? 0); [discriminate|].
    destruct splitCode_loop as [st|] eqn:E; simpl in H; [|discriminate].
    apply (splitCode_loop_kept tk (split_on newline text) startLine maxTokens
             (split_on newline text) []) in E.
    + destruct E as [Hinv Hkept]. fold (totalLines text) in Hinv, Hkept.
      injection H as <-.
      assert (Hkb : isBlank (nth (Z.to_nat (k - 1))
                                 (split_on newline text) []) = false)
        by exact Hb.
      destruct (Z.of_nat (List.length (currentChunk st)) >? 0) eqn:Hne.
      * destruct (flushChunk_kept tk _ startLine (totalLines text) st Hinv
                    Hkept (k - 1) ltac:(lia) Hkb) as (c & Hc & Hr).
        exists c. split; [assumption | lia].
      * destruct (Hkept (k - 1) ltac:(lia) Hkb) as [(c & Hc & Hr)|[_ Hp]].
        -- exists c. split; [assumption | lia].
        -- destruct (currentChunk st); discriminate.
    + reflexivity.
    + reflexivity.
    + apply split_on_noNewline.
    + unfold spanInvariant. simpl.
      split; [lia|]. split; [lia|]. split; [constructor|].
      split; [constructor|]. split; [constructor|].
      split; [|constructor]. exists []. split; [constructor | reflexivity].
    + intros j Hj. lia.
Qed.

(** X9.  No line of the text that is not blank is lost: it lies in the
    span of one of the splits [splitCode] returns. *)
Theorem splitCode_keeps_every_line :
  forall (tk : Tokenizer) (text : jsstring) (startLine maxTokens : Z)
         (out : list CodeSplit.t),
    splitCode tk text startLine maxTokens = Ok out ->
    forall k, 1 <= k <= totalLines text ->
      isBlank (lineAt text k) = false ->
      exists c, In c out /\
                CodeSplit.startLine c <= startLine + k - 1
                                      <= CodeSplit.endLine c.
Proof.
  intros tk text startLine maxTokens out. apply splitCode_kept.
Qed.

Lemma splitCode_keeps_every_line_witness :
  exists out,
    splitCode charTokenizer
      (str "ab" ++ NL ++ NL ++ str "a long line") 1 6 = Ok out /\
    exists c, In c out /\
              CodeSplit.startLine c <= 3 <= CodeSplit.endLine c.
Proof.
  eexists. split; [vm_compute; reflexivity|].
  exact (splitCode_keeps_every_line charTokenizer
           (str "ab" ++ NL ++ NL ++ str "a long line") 1 6 _ eq_refl
           3 ltac:(vm_compute; split; discriminate) eq_refl).
Defined.

(* ------------------------------------------------------------------ *)
(** ** Where the errors of the splitter come from *)

Lemma countTokens_failure tk text e :
  countTokens tk text = Throw e -> countFailure tk e.
Proof.
  unfold countTokens. destruct (falsy text || isBlank text); [discriminate|].
  destruct (encoding tk text) as [tokens|error] eqn:E; simpl;
    [discriminate|].
  intros [= <-]. now exists text, error.
Qed.

Lemma accumulateParts_failure tk maxTokens d parts :
  forall isFirst cur e,
    accumulateParts tk maxTokens d parts isFirst cur = Throw e ->
    countFailure tk e.
Proof.
  induction parts as [|p rest IH]; intros isFirst cur e; simpl;
    [discriminate|].
  destruct (countTokens tk _) as [n|e0] eqn:E; simpl.
  - destruct (n <=? maxTokens); [apply IH | discriminate].
  - intros [= <-]. eapply countTokens_failure; eassumption.
Qed.

Lemma findBestSplit_failure tk text maxTokens ds e :
  findBestSplit tk text maxTokens ds = Throw e -> countFailure tk e.
Proof.
  unfold findBestSplit. generalize (@nil ascii) as best.
  induction ds as [|d ds IH]; intros best; simpl; [discriminate|].
  destruct (accumulateParts tk maxTokens d (split_on d text) true [])
    as [cur|e0] eqn:E; simpl.
  - apply IH.
  - intros [= <-]. eapply accumulateParts_failure; eassumption.
Qed.

Lemma findCharacterSplit_failure tk text maxTokens e :
  findCharacterSplit tk text maxTokens = Throw e -> countFailure tk e.
Proof.
  unfold findCharacterSplit.
  assert (H : forall fuel left right best,
             findCharacterSplit_loop fuel tk text maxTokens left right best
             = Throw e -> countFailure tk e).
  { induction fuel as [|fuel IH]; intros left right best; simpl;
      [discriminate|].
    destruct (left <=? right); [|discriminate].
    destruct (countTokens tk _) as [n|e0] eqn:E; simpl.
    - destruct (n <=? maxTokens); apply IH.
    - intros [= <-]. eapply countTokens_failure; eassumption. }
  destruct findCharacterSplit_loop as [k|e0] eqn:E; simpl; [discriminate|].
  intros [= <-]. eapply H; eassumption.
Qed.

Lemma nextSplit_failure tk text maxTokens e :
  nextSplit tk text maxTokens = Throw e -> countFailure tk e.
Proof.
  unfold nextSplit.
  destruct (findBestSplit tk text maxTokens delimiters) as [b|e0] eqn:E;
    simpl.
  - destruct (jslength b =? 0); simpl; [|discriminate].
    destruct (findCharacterSplit tk text maxTokens) as [b'|e1] eqn:E';
      simpl; [discriminate|].
    intros [= <-]. eapply findCharacterSplit_failure; eassumption.
  - intros [= <-]. eapply findBestSplit_failure; eassumption.
Qed.

Lemma splitLongLine_failure tk line lineNumber maxTokens e :
  splitLongLine tk line lineNumber maxTokens = Throw e -> countFailure tk e.
Proof.
  unfold splitLongLine. generalize (@nil CodeSplit.t) as acc.
  generalize (S (List.length line)) as fuel. intros fuel. revert line.
  induction fuel as [|fuel IH]; intros line acc; simpl; [discriminate|].
  destruct (jslength line >? 0); [|discriminate].
  destruct (nextSplit tk line maxTokens) as [b|e0] eqn:Eb; simpl.
  - destruct (countTokens tk b) as [n|e1] eqn:En; simpl.
    + apply IH.
    + intros [= <-]. eapply countTokens_failure; eassumption.
  - intros [= <-]. eapply nextSplit_failure; eassumption.
Qed.

Lemma splitCode_loop_failure tk startLine maxTokens lines :
  forall i st e,
    splitCode_loop tk startLine maxTokens lines i st = Throw e ->
    countFailure tk e.
Proof.
  induction lines as [|line rest IH]; intros i st e; simpl; [discriminate|].
  destruct (splitCode_step tk startLine maxTokens st i line) as [st1|e0]
    eqn:E; simpl.
  - apply IH.
  - intros [= <-]. unfold splitCode_step in E.
    destruct (jslength (trim line) =? 0); [discriminate|].
    destruct (countTokens tk line) as [n|e1] eqn:En; simpl in E.
    + destruct (n >? maxTokens).
      * destruct (splitLongLine tk line (startLine + i) maxTokens)
          as [ls|e2] eqn:Es; simpl in E; [discriminate|].
        injection E as <-. eapply splitLongLine_failure; eassumption.
      * destruct (_ && _); discriminate.
    + injection E as <-. eapply countTokens_failure; eassumption.
Qed.

Lemma splitCode_errors_are_token_errors_aux tk text startLine maxTokens e :
  splitCode tk text startLine maxTokens = Throw e ->
  e = budgetError \/ countFailure tk e.
Proof.
  unfold splitCode. destruct (_ || _); [discriminate|].
  destruct (maxTokens <=? 0).
  - intros [= <-]. now left.
  - destruct splitCode_loop as [st|e0] eqn:E; simpl; [discriminate|].
    intros [= <-]. right. eapply splitCode_loop_failure; eassumption.
Qed.

(** X10.  The splitter throws for two reasons only.  An error of
    [splitCode] is the [TokenProcessingError] for a budget that is not
    positive, thrown for a text that is not blank, or it is the
    [TokenProcessingError] with which [countTokens] wraps an error of the
    encoder, whose message it carries. *)
Theorem splitCode_errors_are_token_errors :
  forall (tk : Tokenizer) (text : jsstring) (startLine maxTokens : Z)
         (e : Exn),
    splitCode tk text startLine maxTokens = Throw e ->
    exnClass e = TokenProcessingError /\
    ((e = budgetError /\ maxTokens <= 0 /\ isBlank text = false)
     \/ countFailure tk e).
Proof.
  intros tk text startLine maxTokens e. unfold splitCode.
  rewrite trim_length_zero.
  destruct (falsy text || isBlank text) eqn:Hb; [discriminate|].
  apply orb_false_iff in Hb as [_ Hb].
  destruct (maxTokens <=? 0) eqn:Hmax.
  - intros [= <-]. split; [reflexivity|]. left.
    apply Z.leb_le in Hmax. auto.
  - destruct splitCode_loop as [st|e0] eqn:E; simpl; [discriminate|].
    intros [= <-]. apply splitCode_loop_failure in E.
    split; [|now right]. destruct E as (t & error & _ & ->). reflexivity.
Qed.

Lemma splitCode_errors_are_token_errors_witness :
  splitCode (mkTokenizer guardedEncoding (str "gpt-4")) markerFile 1 100
  = Throw (mkExn TokenProcessingError
             (str "Failed to count tokens: The text contains a special token that is not allowed"))
  /\ countFailure (mkTokenizer guardedEncoding (str "gpt-4"))
       (mkExn TokenProcessingError
          (str "Failed to count tokens: The text contains a special token that is not allowed")).
Proof.
  split; [reflexivity|].
  destruct (splitCode_errors_are_token_errors
              (mkTokenizer guardedEncoding (str "gpt-4")) markerFile 1 100 _
              eq_refl) as [_ [[H _] | H]].
  - discriminate H.
  - exact H.
Defined.

(* ================================================================== *)
(** * The validator of splits *)
(* ================================================================== *)

Lemma snoc_not_nil {A} (l : list A) x : l ++ [x] <> [].
Proof. intro H. apply app_eq_nil in H as [_ H]. discriminate. Qed.

Lemma cond_snoc_nil {A} (b : bool) (l : list A) x :
  (if b then l ++ [x] else l) = [] <-> l = [] /\ b = false.
Proof.
  destruct b; split.
  - intro H. exfalso. eapply snoc_not_nil; eassumption.
  - intros [_ H]. discriminate.
  - auto.
  - tauto.
Qed.

Lemma validateSplits_each_nil splits :
  forall i errors covered,
    fst (validateSplits_each splits i errors covered) = [] <->
    errors = [] /\ Forall wellFormedSplit splits.
Proof.
  induction splits as [|s rest IH]; intros i errors covered; simpl.
  - split; [intro H; split; [assumption | constructor] | tauto].
  - rewrite IH, !cond_snoc_nil. fold (totalLines (CodeSplit.content s)).
    rewrite negb_false_iff, Z.eqb_eq, Z.leb_gt, Z.gtb_ltb, Z.ltb_ge.
    unfold wellFormedSplit. split.
    + intros [[[[H1 H2] H3] H4] H5]. split; [assumption|].
      constructor; [repeat split; assumption | assumption].
    + intros [H1 H2]. inversion H2 as [|? ? (Ha & Hb & Hc) Hd]; subst.
      repeat split; assumption.
Qed.

Lemma validateSplits_overlaps_nil rest :
  forall prev errors,
    validateSplits_overlaps prev rest errors = [] <->
    errors = [] /\
    Sorted (fun a b => CodeSplit.endLine a < CodeSplit.startLine b)
           (prev :: rest).
Proof.
  induction rest as [|cur rest IH]; intros prev errors; simpl.
  - split; [intro H; split; [assumption | repeat constructor] | tauto].
  - rewrite IH.
    destruct (CodeSplit.endLine prev >=? CodeSplit.startLine cur) eqn:E.
    + apply Z.geb_le in E. split.
      * intros [H _]. exfalso. eapply snoc_not_nil; eassumption.
      * intros [_ H]. inversion H as [|? ? _ Hd]; subst.
        inversion Hd; subst. lia.
    + assert (Hlt : CodeSplit.endLine prev < CodeSplit.startLine cur).
      { destruct (Z.geb_spec (CodeSplit.endLine prev)
                             (CodeSplit.startLine cur)); [discriminate|lia]. }
      split.
      * intros [H1 H2]. split; [assumption|].
        constructor; [assumption | now constructor].
      * intros [H1 H2]. split; [assumption|]. now inversion H2.
Qed.

Lemma insertBy_Permutation {A} (cmp : A -> A -> Z) x l :
  Permutation (insertBy cmp x l) (x :: l).
Proof.
  induction l as [|y l IH]; simpl; [reflexivity|].
  destruct (cmp x y <=? 0); [reflexivity|].
  rewrite IH. apply perm_swap.
Qed.

Lemma sortBy_Permutation {A} (cmp : A -> A -> Z) l :
  Permutation (sortBy cmp l) l.
Proof.
  induction l as [|x l IH]; simpl; [reflexivity|].
  rewrite insertBy_Permutation. now constructor.
Qed.

Lemma ForallOrdPairs_Permutation {A} (R : A -> A -> Prop) l l' :
  (forall a b, R a b -> R b a) ->
  Permutation l l' -> ForallOrdPairs R l -> ForallOrdPairs R l'.
Proof.
  intros Hsym Hp. induction Hp as [|x l l' Hp IH|x y l|l l' l'' _ IH1 _ IH2];
    intro H.
  - constructor.
  - inversion H; subst. constructor; [|now apply IH].
    eapply Permutation_Forall; eassumption.
  - inversion H as [|? ? Hy Hrest]; subst.
    inversion Hrest as [|? ? Hx Hl]; subst.
    inversion Hy; subst. constructor.
    + constructor; [now apply Hsym | assumption].
    + now constructor.
  - auto.
Qed.

Lemma StronglySorted_ForallOrdPairs {A} (R : A -> A -> Prop) l :
  StronglySorted R l <-> ForallOrdPairs R l.
Proof.
  split; induction 1; constructor; auto.
Qed.

(** Among well-formed splits sorted by their first lines, neighbours that
    do not overlap mean that no two splits share a line. *)
Lemma sorted_neighbours_disjoint l :
  Forall wellFormedSplit l ->
  StronglySorted (fun a b => CodeSplit.startLine a <= CodeSplit.startLine b) l ->
  (Sorted (fun a b => CodeSplit.endLine a < CodeSplit.startLine b) l
   <-> ForallOrdPairs disjointSpans l).
Proof.
  intros Hwf Hs. split.
  - intro Hn. apply StronglySorted_ForallOrdPairs.
    induction l as [|a l IH]; [constructor|].
    inversion Hwf as [|? ? Ha Hwf']; subst.
    inversion Hs as [|? ? Hs' Hall]; subst.
    inversion Hn as [|? ? Hn' Hd]; subst.
    constructor; [now apply IH|].
    destruct l as [|b l]; [constructor|].
    inversion Hd; subst. inversion Hs' as [|? ? _ Hb]; subst.
    inversion Hwf' as [|? ? Hbw _]; subst.
    constructor; [now left|].
    eapply Forall_impl; [|exact Hb]. intros c Hc. left. simpl in Hc. lia.
  - intro Hp. induction l as [|a l IH]; [constructor|].
    inversion Hwf as [|? ? Ha Hwf']; subst.
    inversion Hs as [|? ? Hs' Hall]; subst.
    inversion Hp as [|? ? Hda Hp']; subst.
    constructor; [now apply IH|].
    destruct l as [|b l]; constructor.
    inversion Hda as [|? ? [H|H] _]; subst; [assumption|].
    inversion Hall as [|? ? Hab _]; subst.
    inversion Hwf' as [|? ? (Hb & _) _]; subst. lia.
Qed.

Lemma validateSplits_valid_characterised splits originalStartLine
      originalEndLine :
  SplitValidation.isValid
    (validateSplits splits originalStartLine originalEndLine) = true
  <-> Forall wellFormedSplit splits /\ ForallOrdPairs disjointSpans splits.
Proof.
  unfold validateSplits.
  destruct (validateSplits_each splits 0 [] 0) as [errors covered] eqn:E.
  pose proof (validateSplits_each_nil splits 0 [] 0) as Heach.
  rewrite E in Heach. simpl in Heach. simpl.
  rewrite Z.eqb_eq, length_zero_nil.
  assert (Hsym : forall x y, disjointSpans x y -> disjointSpans y x)
    by (unfold disjointSpans; tauto).
  assert (Hsorted : StronglySorted
            (fun x y => CodeSplit.startLine x <= CodeSplit.startLine y)
            (sortBy compareSplits splits)).
  { apply sortBy_StronglySorted; unfold compareSplits; intros; lia. }
  pose proof (sortBy_Permutation compareSplits splits) as Hperm.
  assert (Hwf : Forall wellFormedSplit splits ->
                Forall wellFormedSplit (sortBy compareSplits splits))
    by (intro; now apply sortBy_Forall).
  destruct (sortBy compareSplits splits) as [|first rest] eqn:Es.
  - apply Permutation_nil in Hperm. subst splits. rewrite Heach.
    split; [intros [_ H] | intros [H _]]; repeat split;
      try assumption; try reflexivity; constructor.
  - rewrite validateSplits_overlaps_nil, Heach. split.
    + intros [[_ H1] H2]. split; [assumption|].
      apply (ForallOrdPairs_Permutation _ _ _ Hsym Hperm).
      apply sorted_neighbours_disjoint; auto.
    + intros [H1 H2]. split; [split; [reflexivity | assumption]|].
      apply sorted_neighbours_disjoint; auto.
      apply (ForallOrdPairs_Permutation _ _ _ Hsym (Permutation_sym Hperm)).
      assumption.
Qed.

(** X11.  [validateSplits] reports a valid result exactly when every
    split has its first line no later than its last, as many lines of
    content as its span, and a positive token count, and no two splits
    share a line.  The original range it is given plays no part. *)
Theorem validateSplits_isValid_iff :
  forall (splits : list CodeSplit.t) (originalStartLine originalEndLine : Z),
    SplitValidation.isValid
      (validateSplits splits originalStartLine originalEndLine) = true
    <-> Forall wellFormedSplit splits /\ ForallOrdPairs disjointSpans splits.
Proof.
  intros. apply validateSplits_valid_characterised.
Qed.

Lemma validateSplits_isValid_iff_witness :
  SplitValidation.errors
    (validateSplits
       [ CodeSplit.mk (str "line 1" ++ NL ++ str "line 2") 1 2 5;
         CodeSplit.mk (str "line 2" ++ NL ++ str "line 3") 2 3 5 ] 1 3)
  = [ str "Overlap between splits: 2 >= 2" ] /\
  ~ ForallOrdPairs disjointSpans
      [ CodeSplit.mk (str "line 1" ++ NL ++ str "line 2") 1 2 5;
        CodeSplit.mk (str "line 2" ++ NL ++ str "line 3") 2 3 5 ].
Proof.
  split; [reflexivity|]. intro H.
  assert (Hv : SplitValidation.isValid
                 (validateSplits
                    [ CodeSplit.mk (str "line 1" ++ NL ++ str "line 2") 1 2 5;
                      CodeSplit.mk (str "line 2" ++ NL ++ str "line 3") 2 3 5 ]
                    1 3) = true).
  { apply validateSplits_isValid_iff. split; [|exact H].
    repeat constructor; simpl; try lia; reflexivity. }
  discriminate Hv.
Defined.

(* ------------------------------------------------------------------ *)
(** ** The splitter against its validator *)

Lemma flushChunk_cases_blank chunks lines s e n :
  (flushChunk chunks lines s e n = chunks) \/
  (lines <> [] /\ isBlank (join NL lines) = false /\
   flushChunk chunks lines s e n
   = chunks ++ [CodeSplit.mk (join NL lines) s e n]).
Proof.
  unfold flushChunk. destruct lines as [|l ls]; [now left|].
  change (Z.of_nat (List.length (l :: ls)) =? 0) with false. cbv iota.
  rewrite trim_length_positive.
  destruct (isBlank (join NL (l :: ls))); simpl; [now left | right].
  repeat split. discriminate.
Qed.

Lemma flushChunk_apart tk startLine i st :
  spanInvariant tk startLine i st -> splitsApart (splits st) ->
  splitsApart (flushChunk (splits st) (currentChunk st) (currentStartLine st)
                 (startLine + i - 1) (currentTokenCount st)).
Proof.
  intros (H1 & H2 & H3 & H4 & _) [Hs Hb].
  destruct (flushChunk_cases_blank (splits st) (currentChunk st)
              (currentStartLine st) (startLine + i - 1)
              (currentTokenCount st)) as [-> | (_ & Hnb & ->)].
  - now split.
  - split.
    + apply StronglySorted_snoc; [assumption|].
      eapply Forall_impl; [|exact H4]. intros s (_ & _ & Hlt & _).
      simpl. lia.
    + apply Forall_app. split; [assumption|]. now repeat constructor.
Qed.

Lemma splitCode_step_apart tk startLine maxTokens st i line st' :
  (forall n, countTokens tk line = Ok n -> n <= maxTokens) ->
  spanInvariant tk startLine i st -> splitsApart (splits st) ->
  splitCode_step tk startLine maxTokens st i line = Ok st' ->
  splitsApart (splits st').
Proof.
  intros Hshort Hinv Hap. unfold splitCode_step.
  destruct (jslength (trim line) =? 0); [now intros [= <-]|].
  destruct (countTokens tk line) as [n|] eqn:En; simpl; [|discriminate].
  specialize (Hshort n eq_refl).
  destruct (n >? maxTokens) eqn:Hlong; [apply Z.gtb_lt in Hlong; lia|].
  destruct (_ && _); intros [= <-]; simpl; [|assumption].
  now apply (flushChunk_apart tk).
Qed.

Lemma splitCode_loop_apart tk startLine maxTokens lines :
  forall i st st',
    Forall (fun line => forall n, countTokens tk line = Ok n ->
                                  n <= maxTokens) lines ->
    Forall noNewline lines ->
    spanInvariant tk startLine i st -> splitsApart (splits st) ->
    splitCode_loop tk startLine maxTokens lines i st = Ok st' ->
    splitsApart (splits st').
Proof.
  induction lines as [|line rest IH]; intros i st st' Hshort Hnn Hinv Hap;
    simpl.
  - now intros [= <-].
  - inversion Hshort; subst. inversion Hnn; subst.
    destruct (splitCode_step tk startLine maxTokens st i line) as [st1|]
      eqn:E; simpl; [|discriminate].
    apply IH; try assumption.
    + eapply splitCode_step_span; eassumption.
    + eapply splitCode_step_apart; eassumption.
Qed.

Lemma lineCounts_nonneg tk lines counts :
  Forall2 (fun l c => countTokens tk l = Ok c) lines counts ->
  0 <= fold_right Z.add 0 counts.
Proof.
  induction 1 as [|l c ? ? Hc _ IH]; simpl; [lia|].
  apply countTokens_nonneg in Hc. lia.
Qed.

Lemma sumOfLineCounts_positive tk lines n :
  (forall l c, isBlank l = false -> countTokens tk l = Ok c -> 0 < c) ->
  sumOfLineCounts tk lines n ->
  existsb (fun l => negb (isBlank l)) lines = true -> 0 < n.
Proof.
  intros Hpos (counts & Hall & ->).
  induction Hall as [|l c lines counts Hc Hall IH]; simpl; [discriminate|].
  pose proof (lineCounts_nonneg _ _ _ Hall) as Hrest.
  pose proof (countTokens_nonneg _ _ _ Hc) as Hnn.
  destruct (isBlank l) eqn:Hb; simpl.
  - intro H. specialize (IH H). lia.
  - intros _. specialize (Hpos l c Hb Hc). lia.
Qed.

(** X12.  When no line of the text counts more than the budget, and the
    encoder gives every text that is not blank at least one token, what
    [splitCode] returns passes [validateSplits]. *)
Theorem splitCode_passes_validateSplits :
  forall (tk : Tokenizer) (text : jsstring) (startLine maxTokens : Z)
         (out : list CodeSplit.t) (originalStartLine originalEndLine : Z),
    (forall line n, In line (split_on newline text) ->
                    countTokens tk line = Ok n -> n <= maxTokens) ->
    (forall l c, isBlank l = false -> countTokens tk l = Ok c -> 0 < c) ->
    splitCode tk text startLine maxTokens = Ok out ->
    SplitValidation.isValid
      (validateSplits out originalStartLine originalEndLine) = true.
Proof.
  intros tk text startLine maxTokens out a b Hshort Hpos H.
  apply validateSplits_valid_characterised.
  pose proof (splitCode_spans _ _ _ _ _ H) as (Hspan & _ & Hsum).
  assert (Hap : splitsApart out).
  { unfold splitCode in H.
    destruct (_ || _); [injection H as <-; split; constructor|].
    destruct (maxTokens <=? 0); [discriminate|].
    destruct splitCode_loop as [st|] eqn:E; simpl in H; [|discriminate].
    assert (Hinv0 : spanInvariant tk startLine 0
                      (mkSplitState [] [] startLine 0)).
    { unfold spanInvariant. simpl.
      split; [lia|]. split; [lia|]. split; [constructor|].
      split; [constructor|]. split; [constructor|].
      split; [|constructor]. exists []. split; [constructor | reflexivity]. }
    pose proof (splitCode_loop_span _ _ _ _ _ _ _
                  (split_on_noNewline newline text) Hinv0 E) as Hinv.
    apply splitCode_loop_apart in E; try assumption.
    - injection H as <-. simpl in Hinv.
      destruct (_ >? 0); [|assumption].
      now apply (flushChunk_apart tk startLine _ st).
    - apply Forall_forall. intros line Hl n. now apply Hshort.
    - apply split_on_noNewline.
    - split; constructor. }
  destruct Hap as [Hsorted Hnb]. split.
  - rewrite Forall_forall in *. intros s Hs.
    destruct (Hspan s Hs) as (_ & H1 & _ & H2). repeat split; try assumption.
    apply (sumOfLineCounts_positive tk _ _ Hpos (Hsum s Hs)).
    specialize (Hnb s Hs). rewrite isBlank_split_on in Hnb.
    destruct (existsb _ _) eqn:Ex; [reflexivity|]. exfalso.
    assert (Hall : forallb isBlank (split_on newline (CodeSplit.content s))
                   = true).
    { apply forallb_forall. intros l Hl.
      destruct (isBlank l) eqn:El; [reflexivity|].
      assert (existsb (fun l => negb (isBlank l))
                      (split_on newline (CodeSplit.content s)) = true).
      { apply existsb_exists. exists l. now rewrite El. }
      congruence. }
    congruence.
  - apply StronglySorted_ForallOrdPairs.
    clear - Hsorted. induction Hsorted; constructor; [assumption|].
    eapply Forall_impl; [|eassumption]. intros b Hb. now left.
Qed.

Lemma splitCode_passes_validateSplits_witness :
  exists out,
    splitCode charTokenizer
      (str "line 1" ++ NL ++ str "line 2" ++ NL ++ str "line 3") 1 12
    = Ok out /\
    SplitValidation.isValid (validateSplits out 1 3) = true.
Proof.
  eexists. split; [vm_compute; reflexivity|].
  apply (splitCode_passes_validateSplits charTokenizer
           (str "line 1" ++ NL ++ str "line 2" ++ NL ++ str "line 3") 1 12).
  - intros line n Hl. vm_compute in Hl.
    destruct Hl as [<- | [<- | [<- | []]]]; vm_compute; intros [= <-];
      discriminate.
  - intros l c Hb. unfold countTokens, charTokenizer. simpl.
    rewrite Hb. destruct (falsy l) eqn:F.
    + apply falsy_isBlank in F. congruence.
    + simpl. intros [= <-]. rewrite length_map.
      destruct l; [discriminate | simpl; lia].
  - reflexivity.
Defined.

(* ================================================================== *)
(** * The coverage validator of [chunk-file.ts] *)
(* ================================================================== *)

Lemma inRanges_app ranges ranges' l :
  inRanges (ranges ++ ranges') l <-> inRanges ranges l \/ inRanges ranges' l.
Proof.
  unfold inRanges. split.
  - intros (r & Hr & Hl). apply in_app_or in Hr as [Hr|Hr]; eauto.
  - intros [(r & Hr & Hl)|(r & Hr & Hl)]; exists r; split; auto;
      apply in_or_app; auto.
Qed.

Lemma inRanges_single r l :
  inRanges [r] l <-> LineRange.startLine r <= l <= LineRange.endLine r.
Proof.
  unfold inRanges. split.
  - intros (r' & [<- | []] & Hl). exact Hl.
  - intro Hl. exists r. split; [now left | exact Hl].
Qed.

Lemma inRanges_dec ranges l : inRanges ranges l \/ ~ inRanges ranges l.
Proof.
  induction ranges as [|r ranges IH].
  - right. intros (r & [] & _).
  - destruct IH as [IH|IH].
    + left. destruct IH as (r' & Hr & Hl). exists r'. split; [now right|auto].
    + destruct (Z_le_dec (LineRange.startLine r) l) as [H1|H1].
      * destruct (Z_le_dec l (LineRange.endLine r)) as [H2|H2].
        -- left. exists r. split; [now left | lia].
        -- right. intros (r' & [<- | Hr] & Hl); [lia|].
           apply IH. now exists r'.
      * right. intros (r' & [<- | Hr] & Hl); [lia|].
        apply IH. now exists r'.
Qed.

(** The loop, over ranges sorted by their first lines: the lines it has
    put into [missingRanges] are in no range, every line before
    [currentLine] that is in no range is in [missingRanges], and no line
    from [currentLine] on is in a range seen so far. *)
Lemma missingRanges_loop_spec ranges :
  forall processed missing cur missing' cur',
    StronglySorted
      (fun a b => LineRange.startLine a <= LineRange.startLine b) ranges ->
    (forall l, inRanges missing l ->
       ~ inRanges processed l /\
       forall r, In r ranges -> l < LineRange.startLine r) ->
    (forall l, 1 <= l < cur -> ~ inRanges processed l -> inRanges missing l) ->
    (forall l, cur <= l -> ~ inRanges processed l) ->
    missingRanges_loop ranges missing cur = (missing', cur') ->
    (forall l, inRanges missing' l -> ~ inRanges (processed ++ ranges) l) /\
    (forall l, 1 <= l < cur' -> ~ inRanges (processed ++ ranges) l ->
               inRanges missing' l) /\
    (forall l, cur' <= l -> ~ inRanges (processed ++ ranges) l).
Proof.
  induction ranges as [|range rest IH];
    intros processed missing cur missing' cur' Hsorted Ha Hb Hc; simpl.
  - intros [= <- <-]. rewrite app_nil_r. split; [|split]; auto.
    intros l Hl. now apply Ha.
  - inversion Hsorted as [|? ? Hs Hall]; subst. intro Hrun.
    replace (processed ++ range :: rest)
      with ((processed ++ [range]) ++ rest) by now rewrite <- app_assoc.
    eapply IH; [exact Hs | | | | exact Hrun].
    + intros l Hl. rewrite inRanges_app, inRanges_single.
      assert (Hcase : inRanges missing l \/
                      (cur < LineRange.startLine range /\
                       cur <= l <= LineRange.startLine range - 1)).
      { destruct (cur <? LineRange.startLine range) eqn:E; [|now left].
        apply Z.ltb_lt in E. apply inRanges_app in Hl as [Hl|Hl];
          [now left|]. right. apply inRanges_single in Hl. simpl in Hl.
        split; [assumption | lia]. }
      destruct Hcase as [Hm | [Hlt Hl']].
      * destruct (Ha l Hm) as [Hnp Hbefore]. split.
        -- intros [Hp | Hr]; [contradiction|].
           specialize (Hbefore range (or_introl eq_refl)). lia.
        -- intros r Hr. apply Hbefore. now right.
      * split.
        -- intros [Hp | Hr]; [|lia]. apply (Hc l); [lia | assumption].
        -- intros r Hr. rewrite Forall_forall in Hall.
           specialize (Hall r Hr). simpl in Hall. lia.
    + intros l Hl Hnot. rewrite inRanges_app, inRanges_single in Hnot.
      assert (Hnp : ~ inRanges processed l) by tauto.
      destruct (Z.lt_ge_cases l cur) as [Hlc | Hlc].
      * specialize (Hb l ltac:(lia) Hnp).
        destruct (cur <? LineRange.startLine range); [|assumption].
        apply inRanges_app. now left.
      * destruct (cur <? LineRange.startLine range) eqn:E.
        -- apply Z.ltb_lt in E. apply inRanges_app. right.
           apply inRanges_single. simpl.
           destruct (Z.lt_ge_cases l (LineRange.startLine range)); [lia|].
           exfalso. apply Hnot. right. lia.
        -- apply Z.ltb_ge in E. exfalso. apply Hnot. right. lia.
    + intros l Hl. rewrite inRanges_app, inRanges_single.
      intros [Hp | Hr]; [|lia]. apply (Hc l); [lia | assumption].
Qed.

Lemma inRanges_sortBy ranges l :
  inRanges (sortBy compareRanges ranges) l <-> inRanges ranges l.
Proof.
  unfold inRanges. split; intros (r & Hr & Hl); exists r; split; auto.
  - now apply sortBy_In in Hr.
  - now apply sortBy_In.
Qed.

Lemma validateFileCoverage_isComplete sourceCode nodes gaps :
  CoverageValidation.isComplete (validateFileCoverage sourceCode nodes gaps)
  = (Z.of_nat
       (List.length
          (CoverageValidation.missingRanges
             (validateFileCoverage sourceCode nodes gaps))) =? 0).
Proof.
  unfold validateFileCoverage.
  destruct (missingRanges_loop _ [] 1) as [missing cur]. reflexivity.
Qed.

Lemma validateFileCoverage_missing_iff sourceCode nodes gaps l :
  1 <= l <= totalLines sourceCode ->
  (inRanges (CoverageValidation.missingRanges
               (validateFileCoverage sourceCode nodes gaps)) l
   <-> ~ inRanges (givenRanges nodes gaps) l).
Proof.
  revert l. unfold validateFileCoverage. fold (givenRanges nodes gaps).
  fold (totalLines sourceCode).
  destruct (missingRanges_loop (sortBy compareRanges
                                  (givenRanges nodes gaps)) [] 1)
    as [missing cur] eqn:E.
  apply (missingRanges_loop_spec _ []) in E.
  - simpl in E. destruct E as (Ha & Hb & Hc). simpl.
    intros l Hl. rewrite <- (inRanges_sortBy (givenRanges nodes gaps)).
    destruct (cur <=? totalLines sourceCode) eqn:Ecur.
    + rewrite inRanges_app, inRanges_single. simpl. split.
      * intros [Hm | Hr]; [now apply Ha | apply Hc; lia].
      * intro Hnot. destruct (Z.lt_ge_cases l cur) as [Hlc | Hlc].
        -- left. apply Hb; [lia | assumption].
        -- right. lia.
    + apply Z.leb_gt in Ecur. split.
      * apply Ha.
      * intro Hnot. apply Hb; [lia | assumption].
  - apply sortBy_StronglySorted; unfold compareRanges; intros; lia.
  - intros l (r & [] & _).
  - intros l Hl. lia.
  - intros l _ (r & [] & _).
Qed.

(** X13.  The missing ranges [validateFileCoverage] reports are the
    complement of the ranges it is given, inside the file: a line of the
    file lies in a missing range exactly when it lies in the range of no
    node and no gap.  So a report that is complete means that every line
    of the file is in some range. *)
Theorem validateFileCoverage_missing_is_the_complement :
  forall (sourceCode : jsstring) (nodes : list ASTNode.t)
         (gaps : list CodeGap.t),
    let report := validateFileCoverage sourceCode nodes gaps in
    (forall l, 1 <= l <= totalLines sourceCode ->
       (inRanges (CoverageValidation.missingRanges report) l
        <-> ~ inRanges (givenRanges nodes gaps) l)) /\
    (CoverageValidation.isComplete report = true ->
     forall l, 1 <= l <= totalLines sourceCode ->
               inRanges (givenRanges nodes gaps) l).
Proof.
  intros sourceCode nodes gaps. simpl.
  split; [intros l Hl; now apply validateFileCoverage_missing_iff|].
  intros Hcomplete l Hl.
  destruct (inRanges_dec (givenRanges nodes gaps) l) as [H|H];
    [assumption|].
  apply (proj2 (validateFileCoverage_missing_iff _ _ _ _ Hl)) in H.
  exfalso.
  assert (Hnil : CoverageValidation.missingRanges
                   (validateFileCoverage sourceCode nodes gaps) = []).
  { apply length_zero_nil. apply Z.eqb_eq.
    rewrite <- validateFileCoverage_isComplete. exact Hcomplete. }
  rewrite Hnil in H. destruct H as (r & [] & _).
Qed.

Lemma validateFileCoverage_missing_is_the_complement_witness :
  CoverageValidation.missingRanges
    (validateFileCoverage functionFile functionNodes
       [CodeGap.mk (str "// top") 1 1])
  = [LineRange.mk 2 2; LineRange.mk 4 4] /\
  ~ inRanges (givenRanges functionNodes [CodeGap.mk (str "// top") 1 1]) 4.
Proof.
  split; [reflexivity|].
  destruct (validateFileCoverage_missing_is_the_complement functionFile
              functionNodes [CodeGap.mk (str "// top") 1 1]) as [H _].
  apply (H 4); [vm_compute; split; discriminate|].
  exists (LineRange.mk 4 4). split; [right; now left | simpl; lia].
Defined.

(* ================================================================== *)
(** * The pipeline by gaps and the pipeline by cursor *)
(* ================================================================== *)

Section Pipelines.

Variable scan : jsstring -> jsstring -> list jsstring * list jsstring.
Variables filePath language : jsstring.
Variable maxTokens : Z.
Variable tk : Tokenizer.

Lemma extractGaps_loop_app sourceLines nodes :
  forall gaps cur,
    extractGaps_loop sourceLines nodes gaps cur
    = gaps ++ extractGaps_loop sourceLines nodes [] cur.
Proof.
  induction nodes as [|node rest IH]; intros gaps cur; simpl.
  - now rewrite app_nil_r.
  - destruct (cur <? row (ASTNode.startPosition node) + 1); [|apply IH].
    destruct (jslength _ >? 0); [|apply IH].
    simpl app. rewrite (IH (gaps ++ _)), (IH (_ :: nil)).
    now rewrite app_assoc.
Qed.

Lemma processGaps_app gaps1 gaps2 :
  processGaps scan (gaps1 ++ gaps2) filePath language maxTokens tk
  = (c1 <- processGaps scan gaps1 filePath language maxTokens tk ;;
     c2 <- processGaps scan gaps2 filePath language maxTokens tk ;;
     Ok (c1 ++ c2)).
Proof.
  induction gaps1 as [|g gaps1 IH]; simpl.
  - destruct (processGaps scan gaps2 filePath language maxTokens tk);
      reflexivity.
  - destruct (processGapContent scan _ _ _ filePath language maxTokens tk)
      as [gc|]; simpl; [|reflexivity].
    rewrite IH.
    destruct (processGaps scan gaps1 filePath language maxTokens tk)
      as [c1|]; simpl; [|reflexivity].
    destruct (processGaps scan gaps2 filePath language maxTokens tk)
      as [c2|]; simpl; [|reflexivity].
    now rewrite app_assoc.
Qed.

Lemma endsAt_cons node rest cursor cursor' :
  endsAt rest (row (ASTNode.endPosition node) + 1 + 1) cursor' ->
  endsAt (node :: rest) cursor cursor'.
Proof.
  intros [[-> ->] | (lastNode & Hn & ->)]; right.
  - exists node. split; reflexivity.
  - exists lastNode. split; [|reflexivity].
    destruct rest as [|n rest]; [destruct (List.length [] - 1)%nat;
                                 discriminate|].
    simpl in *. now rewrite Nat.sub_0_r in *.
Qed.

(** The loop over the nodes makes the chunks of the nodes and the chunks
    of the gaps between them. *)
Lemma processNodes_by_gaps sourceLines nodes :
  forall chunks cursor out cursor',
    processNodes scan sourceLines filePath language maxTokens tk nodes
                 chunks cursor = Ok (out, cursor') ->
    exists nodeChunks gapChunks,
      processASTNodes scan nodes filePath language maxTokens tk
      = Ok nodeChunks /\
      processGaps scan (extractGaps_loop sourceLines nodes [] cursor)
                  filePath language maxTokens tk = Ok gapChunks /\
      Permutation out (chunks ++ nodeChunks ++ gapChunks) /\
      endsAt nodes cursor cursor'.
Proof.
  induction nodes as [|node rest IH]; intros chunks cursor out cursor';
    simpl.
  - intros [= <- <-]. exists [], []. rewrite app_nil_r.
    repeat split; try reflexivity. now left.
  - set (gapStep := if cursor <? _ then _ else _).
    destruct gapStep as [chunks1|] eqn:Eg; simpl; [|discriminate].
    destruct (processASTNodeContent scan node filePath language maxTokens tk)
      as [nodeChunks|] eqn:En; simpl; [|discriminate].
    intro Hrun. apply IH in Hrun as (nc & gc & Hnc & Hgc & Hperm & Hend).
    rewrite Hnc. simpl.
    replace (row (ASTNode.endPosition node) + 2)
      with (row (ASTNode.endPosition node) + 1 + 1) by lia.
    rewrite extractGaps_loop_app, processGaps_app, Hgc.
    subst gapStep.
    destruct (cursor <? row (ASTNode.startPosition node) + 1).
    + destruct (jslength _ >? 0).
      * destruct (processGapContent scan _ _ _ filePath language maxTokens tk)
          as [gapChunks|] eqn:Egap; simpl in Eg; [|discriminate].
        injection Eg as <-. simpl. rewrite Egap. simpl.
        exists (nodeChunks ++ nc), ((gapChunks ++ []) ++ gc).
        repeat split; try reflexivity; [|now apply endsAt_cons].
        rewrite Hperm, app_nil_r, <- !app_assoc.
        apply Permutation_app_head.
        rewrite (app_assoc nodeChunks nc), (app_assoc gapChunks).
        rewrite (app_assoc gapChunks nodeChunks).
        rewrite (Permutation_app_comm gapChunks nodeChunks).
        rewrite <- !app_assoc. apply Permutation_app_head.
        rewrite !app_assoc. apply Permutation_app_tail.
        apply Permutation_app_comm.
      * injection Eg as <-. simpl.
        exists (nodeChunks ++ nc), gc.
        repeat split; try reflexivity; [|now apply endsAt_cons].
        now rewrite Hperm, <- !app_assoc.
    + injection Eg as <-. simpl.
      exists (nodeChunks ++ nc), gc.
      repeat split; try reflexivity; [|now apply endsAt_cons].
      now rewrite Hperm, <- !app_assoc.
Qed.

Lemma processNodes_from_gaps sourceLines nodes :
  forall chunks cursor nodeChunks gapChunks,
    processASTNodes scan nodes filePath language maxTokens tk
    = Ok nodeChunks ->
    processGaps scan (extractGaps_loop sourceLines nodes [] cursor)
                filePath language maxTokens tk = Ok gapChunks ->
    exists out,
      processNodes scan sourceLines filePath language maxTokens tk nodes
                   chunks cursor = Ok out.
Proof.
  induction nodes as [|node rest IH];
    intros chunks cursor nodeChunks gapChunks; simpl.
  - intros _ _. now eexists.
  - destruct (processASTNodeContent scan node filePath language maxTokens tk)
      as [nc|] eqn:En; simpl; [|discriminate].
    destruct (processASTNodes scan rest filePath language maxTokens tk)
      as [ncs|] eqn:Ens; simpl; [|discriminate].
    intros _.
    replace (row (ASTNode.endPosition node) + 2)
      with (row (ASTNode.endPosition node) + 1 + 1) by lia.
    rewrite extractGaps_loop_app, processGaps_app.
    destruct (cursor <? row (ASTNode.startPosition node) + 1).
    + destruct (jslength _ >? 0).
      * simpl.
        destruct (processGapContent scan _ _ _ filePath language maxTokens tk)
          as [gc|]; simpl; [|discriminate].
        destruct (processGaps scan (extractGaps_loop sourceLines rest [] _)
                    filePath language maxTokens tk) as [gcs|] eqn:Egs; simpl;
          [|discriminate].
        intros _. eapply IH; [reflexivity | exact Egs].
      * simpl.
        destruct (processGaps scan (extractGaps_loop sourceLines rest [] _)
                    filePath language maxTokens tk) as [gcs|] eqn:Egs; simpl;
          [|discriminate].
        intros _. eapply IH; [reflexivity | exact Egs].
    + simpl.
      destruct (processGaps scan (extractGaps_loop sourceLines rest [] _)
                  filePath language maxTokens tk) as [gcs|] eqn:Egs; simpl;
        [|discriminate].
      intros _. eapply IH; [reflexivity | exact Egs].
Qed.

End Pipelines.

Lemma sliceFrom_0 {A} (l : list A) : sliceFrom l (1 - 1) = l.
Proof. rewrite sliceFrom_skipn by lia. reflexivity. Qed.

Lemma totalLines_positive text : 1 <= totalLines text.
Proof.
  unfold totalLines. pose proof (split_on_nonempty newline text).
  destruct (split_on newline text); [congruence | simpl; lia].
Qed.

(** The trailing gap, as [extractGaps] finds it and as the cursor does. *)
Lemma trailing_gap_test (a n : Z) : (a + 1 <=? n) = (a <? n).
Proof.
  destruct (Z.leb_spec (a + 1) n), (Z.ltb_spec a n); try reflexivity; lia.
Qed.

(** X14.  The deprecated pipeline and the one in use make the same
    chunks.  For the sorted nodes, [processFileWithCursor] returns chunks
    exactly when [processASTNodes] on the nodes and [processGaps] on the
    gaps [extractGaps] finds both do, and its chunks are then theirs,
    put in the order of the first lines. *)
Theorem cursor_pipeline_is_the_gaps_pipeline :
  forall (scan : jsstring -> jsstring -> list jsstring * list jsstring)
         (fileContent : jsstring) (astNodes : list ASTNode.t)
         (filePath language : jsstring) (maxTokens : Z) (tk : Tokenizer),
    let nodes := sortBy compareNodes astNodes in
    let gaps := extractGaps nodes fileContent in
    (forall chunks,
       processFileWithCursor scan fileContent astNodes filePath language
                             maxTokens tk = Ok chunks ->
       exists nodeChunks gapChunks,
         processASTNodes scan nodes filePath language maxTokens tk
         = Ok nodeChunks /\
         processGaps scan gaps filePath language maxTokens tk
         = Ok gapChunks /\
         Permutation chunks (nodeChunks ++ gapChunks)) /\
    (forall nodeChunks gapChunks,
       processASTNodes scan nodes filePath language maxTokens tk
       = Ok nodeChunks ->
       processGaps scan gaps filePath language maxTokens tk
       = Ok gapChunks ->
       exists chunks,
         processFileWithCursor scan fileContent astNodes filePath language
                               maxTokens tk = Ok chunks).
Proof.
  intros scan fileContent astNodes filePath language maxTokens tk nodes gaps.
  subst gaps. unfold processFileWithCursor, extractGaps.
  fold nodes. fold (totalLines fileContent).
  set (sourceLines := split_on newline fileContent).
  pose proof (totalLines_positive fileContent) as Hpos.
  destruct nodes as [|n ns] eqn:Enodes.
  - (* no node: the file is one gap *)
    simpl processNodes. cbn [bind]. simpl List.length.
    change (Z.of_nat 0 =? 0) with true. cbv iota.
    replace (1 <=? totalLines fileContent) with true
      by (symmetry; apply Z.leb_le; lia).
    rewrite sliceFrom_0. unfold sourceLines, NL. rewrite join_split_on.
    destruct (jslength (trim fileContent) >? 0).
    + simpl processGaps.
      destruct (processGapContent scan fileContent 1 (totalLines fileContent)
                  filePath language maxTokens tk) as [gc|]; simpl; split.
      * intros chunks [= <-]. exists [], (gc ++ []).
        repeat split; try reflexivity. rewrite app_nil_r.
        apply sortBy_Permutation.
      * intros. now eexists.
      * discriminate.
      * discriminate.
    + simpl. split.
      * intros chunks [= <-]. exists [], []. repeat split; constructor.
      * intros. now eexists.
  - (* some node *)
    rewrite <- Enodes.
    assert (Hlen : (Z.of_nat (List.length nodes) =? 0) = false).
    { rewrite Enodes. reflexivity. }
    rewrite Hlen. split.
    + intros chunks H.
      destruct (processNodes scan sourceLines filePath language maxTokens tk
                  nodes [] 1) as [[chunks0 cursor]|] eqn:E; simpl in H;
        [|discriminate].
      apply processNodes_by_gaps in E
        as (nc & gc & Hnc & Hgc & Hperm & Hend).
      destruct Hend as [[Hnil _] | (lastNode & Hlast & ->)];
        [rewrite Enodes in Hnil; discriminate|].
      rewrite Hlast, Hnc. exists nc.
      rewrite trailing_gap_test in H.
      destruct (row (ASTNode.endPosition lastNode) + 1
                <? totalLines fileContent).
      * destruct (jslength _ >? 0).
        -- rewrite processGaps_app, Hgc. simpl.
           replace (row (ASTNode.endPosition lastNode) + 1 + 1 - 1)
             with (row (ASTNode.endPosition lastNode) + 1 + 1 - 1) in H
             by reflexivity.
           unfold sliceFrom in H. fold (totalLines fileContent) in H.
           destruct (processGapContent scan _ _ _ filePath language
                       maxTokens tk) as [trailing|]; simpl in H;
             [|discriminate].
           injection H as <-. simpl. eexists. split; [reflexivity|].
           split; [reflexivity|].
           rewrite sortBy_Permutation, Hperm. simpl.
           rewrite app_nil_r, <- !app_assoc. reflexivity.
        -- injection H as <-. exists gc. split; [reflexivity|].
           split; [assumption|].
           now rewrite sortBy_Permutation, Hperm.
      * injection H as <-. exists gc. split; [reflexivity|].
        split; [assumption|]. now rewrite sortBy_Permutation, Hperm.
    + intros nodeChunks gapChunks Hnc Hgc.
      assert (Hloop : exists gc0,
                processGaps scan (extractGaps_loop sourceLines nodes [] 1)
                            filePath language maxTokens tk = Ok gc0).
      { destruct (nth_error nodes (List.length nodes - 1)) as [lastNode|];
          [|now exists gapChunks].
        destruct (_ <? totalLines fileContent); [|now exists gapChunks].
        destruct (jslength _ >? 0); [|now exists gapChunks].
        rewrite processGaps_app in Hgc.
        destruct (processGaps scan (extractGaps_loop sourceLines nodes [] 1)
                    filePath language maxTokens tk) as [gc0|];
          [now eexists | discriminate]. }
      destruct Hloop as [gc0 Hgc0].
      destruct (processNodes_from_gaps scan filePath language maxTokens tk
                  sourceLines nodes [] 1 _ _ Hnc Hgc0) as [[chunks0 cursor] E].
      rewrite E. cbn [bind].
      pose proof (processNodes_by_gaps scan filePath language maxTokens tk
                    _ _ _ _ _ _ E) as (_ & _ & _ & _ & _ & Hend).
      destruct Hend as [[Hnil _] | (lastNode & Hlast & ->)];
        [rewrite Enodes in Hnil; discriminate|].
      rewrite Hlast in Hgc. rewrite trailing_gap_test.
      destruct (row (ASTNode.endPosition lastNode) + 1
                <? totalLines fileContent); [|simpl; now eexists].
      unfold sliceFrom. fold (totalLines fileContent).
      destruct (jslength _ >? 0); [|simpl; now eexists].
      rewrite processGaps_app, Hgc0 in Hgc. simpl in Hgc.
      destruct (processGapContent scan _ _ _ filePath language maxTokens tk)
        as [trailing|]; simpl in Hgc; [|discriminate].
      simpl. now eexists.
Qed.

Lemma cursor_pipeline_is_the_gaps_pipeline_witness :
  exists nodeChunks gapChunks,
    processASTNodes noScan functionNodes (str "f.ts") (str "typescript") 100
                    charTokenizer = Ok nodeChunks /\
    processGaps noScan (extractGaps functionNodes functionFile) (str "f.ts")
                (str "typescript") 100 charTokenizer = Ok gapChunks /\
    Permutation functionChunks (nodeChunks ++ gapChunks).
Proof.
  destruct (cursor_pipeline_is_the_gaps_pipeline noScan functionFile
              functionNodes (str "f.ts") (str "typescript") 100
              charTokenizer) as [H _].
  exact (H functionChunks eq_refl).
Defined.

(* ================================================================== *)
(** * The collectors *)
(* ================================================================== *)

Lemma SyntaxNode_induction (P : SyntaxNode -> Prop) :
  (forall ty sp ep txt children,
      Forall P children -> P (SNode ty sp ep txt children)) ->
  forall node, P node.
Proof.
  intros H. fix IH 1. intros [ty sp ep txt children]. apply H.
  induction children as [|c children IHc]; constructor;
    [apply IH | exact IHc].
Qed.

Lemma flat_map_Permutation {A B} (f g : A -> list B) l :
  Forall (fun x => Permutation (f x) (g x)) l ->
  Permutation (flat_map f l) (flat_map g l).
Proof.
  induction 1 as [|x l Hx _ IH]; simpl; [constructor|].
  now apply Permutation_app.
Qed.

Lemma flat_map_ext_Forall {A B} (f g : A -> list B) l :
  Forall (fun x => f x = g x) l -> flat_map f l = flat_map g l.
Proof.
  induction 1 as [|x l Hx _ IH]; simpl; [reflexivity|]. now rewrite Hx, IH.
Qed.

Lemma map_filter_flat_map {A B C} (f : B -> C) (p : B -> bool)
    (g : A -> list B) l :
  map f (filter p (flat_map g l))
  = flat_map (fun x => map f (filter p (g x))) l.
Proof.
  induction l as [|x l IH]; simpl; [reflexivity|].
  now rewrite filter_app, map_app, IH.
Qed.

Lemma map_flat_map {A B C} (f : B -> C) (g : A -> list B) l :
  map f (flat_map g l) = flat_map (fun x => map f (g x)) l.
Proof.
  induction l as [|x l IH]; simpl; [reflexivity|]. now rewrite map_app, IH.
Qed.

Lemma sortBy_map {A B} (f : A -> B) (cmp : A -> A -> Z) (cmp' : B -> B -> Z)
    l :
  (forall a b, cmp' (f a) (f b) = cmp a b) ->
  map f (sortBy cmp l) = sortBy cmp' (map f l).
Proof.
  intro H. induction l as [|x l IH]; simpl; [reflexivity|].
  rewrite <- IH. generalize (sortBy cmp l) as s. clear IH.
  induction s as [|y s IHs]; simpl; [reflexivity|].
  rewrite H. destruct (cmp x y <=? 0); simpl; [reflexivity|].
  now rewrite IHs.
Qed.

Lemma compareNodes_sorted l :
  StronglySorted startsNoLater (sortBy compareNodes l).
Proof.
  apply sortBy_StronglySorted; unfold compareNodes, startsNoLater.
  - intros a b.
    destruct (row (ASTNode.startPosition a) =? row (ASTNode.startPosition b))
      eqn:E; simpl; [apply Z.eqb_eq in E | apply Z.eqb_neq in E]; lia.
  - intros a b.
    destruct (row (ASTNode.startPosition a) =? row (ASTNode.startPosition b))
      eqn:E; simpl; [apply Z.eqb_eq in E | apply Z.eqb_neq in E]; lia.
  - intros a b c. lia.
Qed.

(** X15.  [collectTreeNodes] returns the nodes of the tree whose type is
    wanted, each one once, nested ones as well, and in the order of their
    starting positions: by row, then by column. *)
Theorem collectTreeNodes_collects_the_wanted_nodes :
  forall (node : SyntaxNode) (wantedNodes : list jsstring),
    Permutation (collectTreeNodes node wantedNodes)
                (map plainNode (filter (isWanted wantedNodes) (preorder node)))
    /\ StronglySorted startsNoLater (collectTreeNodes node wantedNodes).
Proof.
  intros node wantedNodes. split.
  - induction node as [ty sp ep txt children IH] using SyntaxNode_induction.
    simpl collectTreeNodes. rewrite sortBy_Permutation.
    simpl preorder. simpl filter. unfold isWanted at 1. simpl.
    pose proof (flat_map_Permutation _ _ _ IH) as Hc.
    rewrite <- map_filter_flat_map in Hc.
    destruct (existsb (jsstring_eqb ty) wantedNodes); simpl.
    + constructor. exact Hc.
    + exact Hc.
  - destruct node as [ty sp ep txt children]. simpl.
    apply compareNodes_sorted.
Qed.

(** X16.  The collector with symbols finds the same nodes as the one
    without: taking the symbol name, the symbol type and the lineage away
    from what [collectTreeNodesWithSymbols] returns gives what
    [collectTreeNodes] returns, in the same order. *)
Theorem collectTreeNodesWithSymbols_finds_the_same_nodes :
  forall (node : SyntaxNode) (wantedNodes parentLineage : list jsstring),
    map withoutSymbols
        (collectTreeNodesWithSymbols node wantedNodes parentLineage)
    = collectTreeNodes node wantedNodes.
Proof.
  intros node wantedNodes.
  induction node as [ty sp ep txt children IH] using SyntaxNode_induction.
  intro parentLineage. simpl.
  rewrite (sortBy_map withoutSymbols compareNodes compareNodes)
    by reflexivity.
  f_equal. rewrite map_app, map_flat_map. f_equal.
  - destruct (existsb (jsstring_eqb ty) wantedNodes); reflexivity.
  - apply flat_map_ext_Forall. eapply Forall_impl; [|exact IH].
    intros c Hc. apply Hc.
Qed.

(** X17.  Every node the collector with symbols returns has a symbol
    type, and its lineage extends the lineage the collector was given:
    the lineage is absent only when the collector was given none, and is
    never present and empty. *)
Theorem collectTreeNodesWithSymbols_lineage_extends :
  forall (node : SyntaxNode) (wantedNodes parentLineage : list jsstring)
         (a : ASTNode.t),
    In a (collectTreeNodesWithSymbols node wantedNodes parentLineage) ->
    ASTNode.symbolType a <> None /\
    match ASTNode.parentLineage a with
    | None => parentLineage = []
    | Some lineage =>
        lineage <> [] /\ exists rest, lineage = parentLineage ++ rest
    end.
Proof.
  intros node wantedNodes.
  induction node as [ty sp ep txt children IH] using SyntaxNode_induction.
  intros parentLineage a. simpl. rewrite sortBy_In. intro Ha.
  apply in_app_or in Ha as [Ha | Ha].
  - destruct (existsb (jsstring_eqb ty) wantedNodes); [|destruct Ha].
    destruct Ha as [<- | []]. simpl. split; [discriminate|].
    destruct parentLineage as [|p ps]; simpl; [reflexivity|].
    split; [discriminate|]. exists []. now rewrite app_nil_r.
  - apply in_flat_map in Ha as (c & Hc & Ha).
    rewrite Forall_forall in IH. apply (IH c Hc) in Ha as [Hty Hlin].
    split; [assumption|].
    set (new := match extractSymbolName (SNode ty sp ep txt children) with
                | Some name =>
                    if negb (falsy name) && isContainerNode ty
                    then parentLineage ++ [name] else parentLineage
                | None => parentLineage
                end) in *.
    assert (Hnew : exists more, new = parentLineage ++ more).
    { subst new. destruct (extractSymbolName _) as [name|];
        [|exists []; now rewrite app_nil_r].
      destruct (_ && _); [now exists [name]|].
      exists []. now rewrite app_nil_r. }
    destruct Hnew as [more Hnew].
    destruct (ASTNode.parentLineage a) as [lineage|].
    + destruct Hlin as [Hne [rest ->]]. split; [assumption|].
      exists (more ++ rest). rewrite Hnew. now rewrite app_assoc.
    + rewrite Hnew in Hlin. now apply app_eq_nil in Hlin as [-> _].
Qed.

Lemma collectTreeNodesWithSymbols_lineage_extends_witness :
  map ASTNode.parentLineage classNodes = [None; Some [str "A"]] /\
  Forall (fun a => ASTNode.symbolType a <> None) classNodes.
Proof.
  split; [reflexivity|]. apply Forall_forall. intros a Ha.
  exact (proj1 (collectTreeNodesWithSymbols_lineage_extends classTree
                  (ChunkConfig.wantedNodes tsConfig) [] a Ha)).
Defined.

(* ================================================================== *)
(** * Further properties of the assembler and of [chunkFile] *)
(* ================================================================== *)

Lemma LANG_CONFIG_name ext cfg :
  assoc ext LANG_CONFIG = Some cfg -> ChunkConfig.name cfg = str "typescript".
Proof.
  unfold LANG_CONFIG, assoc.
  destruct (jsstring_eqb ext (str ".ts"));
    [intro H; inversion H; reflexivity|].
  destruct (jsstring_eqb ext (str ".tsx"));
    [intro H; inversion H; reflexivity|].
  discriminate.
Qed.

Lemma processFileWithCursor_chunkInFile scan fileContent astNodes filePath
    language maxTokens tk chunks :
  processFileWithCursor scan fileContent astNodes filePath language
                        maxTokens tk = Ok chunks ->
  Forall (chunkInFile filePath language) chunks.
Proof.
  apply processFileWithCursor_Forall.
  - intros content startLine endLine chunks'. unfold processGapContent.
    destruct (scan content (str "gap")) as [im ex].
    destruct (countTokens tk content) as [n|]; simpl; [|discriminate].
    destruct (n <=? maxTokens).
    + intros [= <-]. repeat constructor.
    + destruct splitCode as [splits|]; simpl; [|discriminate].
      intros [= <-]. unfold splitChunks. apply Forall_map.
      apply Forall_forall. intros s _. repeat split; discriminate.
  - intros node chunks'. unfold processASTNodeContent.
    destruct (scan (ASTNode.text node) (ASTNode.type node)) as [im ex].
    destruct (countTokens tk (ASTNode.text node)) as [n|]; simpl;
      [|discriminate].
    destruct (n <=? maxTokens).
    + intros [= <-]. repeat constructor; discriminate.
    + destruct splitCode as [splits|]; simpl; [|discriminate].
      intros [= <-]. unfold splitChunks. apply Forall_map.
      apply Forall_forall. intros s _. repeat split; discriminate.
Qed.

(** X18.  Every chunk [chunkFile] returns names the file and the language
    [typescript] in its metadata, which repeat the first and the last
    line of the chunk; a chunk that is a gap carries no symbol; and the
    chunks come in the order of their first lines. *)
Theorem chunkFile_chunks_are_consistent :
  forall (scan : jsstring -> jsstring -> list jsstring * list jsstring)
         (env : Env) (filePath : jsstring) (maxTokens : Z) (mdl : jsstring)
         (chunks : list FileChunk.t),
    chunkFile scan env filePath maxTokens mdl = Ok chunks ->
    Forall (chunkInFile filePath (str "typescript")) chunks /\
    StronglySorted
      (fun a b => FileChunk.startLine a <= FileChunk.startLine b) chunks.
Proof.
  intros scan env filePath maxTokens mdl chunks H.
  split; [|eapply chunkFile_sorted; eassumption].
  unfold chunkFile in H.
  destruct (assoc (extname filePath) LANG_CONFIG) as [cfg|] eqn:Ecfg.
  - destruct (readFileSync env filePath) as [content|]; simpl in H;
      [|discriminate].
    destruct (parse env (ChunkConfig.language cfg) content) as [tree|];
      simpl in H; [|discriminate].
    destruct (createTokenizer (get_encoding env) mdl) as [tk|e]; simpl in H;
      [|destruct (exnClass e); discriminate].
    destruct processFileWithCursor as [cs|e] eqn:E; simpl in H.
    + injection H as <-. rewrite (LANG_CONFIG_name _ _ Ecfg) in E.
      eapply processFileWithCursor_chunkInFile; eassumption.
    + destruct (exnClass e); discriminate.
  - simpl in H. injection H as <-. constructor.
Qed.

Lemma chunkFile_chunks_are_consistent_witness :
  exists chunks,
    chunkFile noScan classEnv (str "a.tsx") 100 (str "gpt-4") = Ok chunks /\
    map FileChunk.startLine chunks = [2; 3; 4] /\
    Forall (chunkInFile (str "a.tsx") (str "typescript")) chunks.
Proof.
  eexists. split; [vm_compute; reflexivity|]. split; [reflexivity|].
  exact (proj1 (chunkFile_chunks_are_consistent noScan classEnv (str "a.tsx")
                  100 (str "gpt-4") _ eq_refl)).
Defined.

(* ------------------------------------------------------------------ *)
(** ** What [chunkFile] throws *)

Section AssemblerFailures.

Variable scan : jsstring -> jsstring -> list jsstring * list jsstring.
Variables filePath language : jsstring.
Variable maxTokens : Z.
Variable tk : Tokenizer.

Lemma processGapContent_failure content startLine endLine e :
  processGapContent scan content startLine endLine filePath language
                    maxTokens tk = Throw e ->
  e = budgetError \/ countFailure tk e.
Proof.
  unfold processGapContent. destruct (scan content (str "gap")) as [im ex].
  destruct (countTokens tk content) as [n|e0] eqn:En; simpl.
  - destruct (n <=? maxTokens); [discriminate|].
    destruct splitCode as [splits|e1] eqn:Es; simpl; [discriminate|].
    intros [= <-].
    apply splitCode_errors_are_token_errors_aux in Es. tauto.
  - intros [= <-]. right. eapply countTokens_failure; eassumption.
Qed.

Lemma processASTNodeContent_failure node e :
  processASTNodeContent scan node filePath language maxTokens tk = Throw e ->
  e = budgetError \/ countFailure tk e.
Proof.
  unfold processASTNodeContent.
  destruct (scan (ASTNode.text node) (ASTNode.type node)) as [im ex].
  destruct (countTokens tk (ASTNode.text node)) as [n|e0] eqn:En; simpl.
  - destruct (n <=? maxTokens); [discriminate|].
    destruct splitCode as [splits|e1] eqn:Es; simpl; [discriminate|].
    intros [= <-].
    apply splitCode_errors_are_token_errors_aux in Es. tauto.
  - intros [= <-]. right. eapply countTokens_failure; eassumption.
Qed.

Lemma processNodes_failure sourceLines nodes :
  forall chunks cursor e,
    processNodes scan sourceLines filePath language maxTokens tk nodes
                 chunks cursor = Throw e ->
    e = budgetError \/ countFailure tk e.
Proof.
  induction nodes as [|node rest IH]; intros chunks cursor e; simpl;
    [discriminate|].
  set (gapStep := if cursor <? _ then _ else _).
  destruct gapStep as [chunks1|e0] eqn:Eg; simpl.
  - destruct (processASTNodeContent scan node filePath language maxTokens tk)
      as [nodeChunks|e1] eqn:En; simpl.
    + apply IH.
    + intros [= <-]. eapply processASTNodeContent_failure; eassumption.
  - intros [= <-]. subst gapStep.
    destruct (cursor <? _); [|discriminate].
    destruct (jslength _ >? 0); [|discriminate].
    destruct (processGapContent scan _ _ _ filePath language maxTokens tk)
      as [gapChunks|e1] eqn:Egap; simpl in Eg; [discriminate|].
    injection Eg as <-. eapply processGapContent_failure; eassumption.
Qed.

Lemma processFileWithCursor_failure fileContent astNodes e :
  processFileWithCursor scan fileContent astNodes filePath language
                        maxTokens tk = Throw e ->
  e = budgetError \/ countFailure tk e.
Proof.
  unfold processFileWithCursor.
  destruct processNodes as [[chunks cursor]|e0] eqn:E; simpl.
  - destruct (cursor <=? _); [|discriminate].
    destruct (jslength _ >? 0); [|discriminate].
    destruct (processGapContent scan _ _ _ filePath language maxTokens tk)
      as [trailing|e1] eqn:Egap; simpl; [discriminate|].
    intros [= <-]. eapply processGapContent_failure; eassumption.
  - intros [= <-]. eapply processNodes_failure; eassumption.
Qed.

End AssemblerFailures.

(** X19.  An error of [chunkFile] is one of three.  It is the
    [FileSystemError] for a file that cannot be read, or the
    [ParsingError] for a file the parser rejects, each with the message
    of the cause after the path; or it is a [ParsingError] whose message
    starts with [Unexpected error processing] and the path and carries
    the message of a [TokenProcessingError]: every failure of the
    tokenizer and of the splitter reaches the caller in that wrapping. *)
Theorem chunkFile_throws_one_of_three :
  forall (scan : jsstring -> jsstring -> list jsstring * list jsstring)
         (env : Env) (filePath : jsstring) (maxTokens : Z) (mdl : jsstring)
         (e : Exn),
    chunkFile scan env filePath maxTokens mdl = Throw e ->
    (exists cause,
       readFileSync env filePath = Throw cause /\
       e = mkExn FileSystemError
             (str "Failed to read file " ++ filePath ++ str ": "
              ++ exnMessage cause))
    \/ (exists cfg content cause,
          assoc (extname filePath) LANG_CONFIG = Some cfg /\
          readFileSync env filePath = Ok content /\
          parse env (ChunkConfig.language cfg) content = Throw cause /\
          e = mkExn ParsingError
                (str "Failed to parse " ++ filePath ++ str ": "
                 ++ exnMessage cause))
    \/ (exists cause,
          exnClass cause = TokenProcessingError /\
          e = mkExn ParsingError
                (str "Unexpected error processing " ++ filePath ++ str ": "
                 ++ exnMessage cause)).
Proof.
  intros scan env filePath maxTokens mdl e. unfold chunkFile.
  destruct (assoc (extname filePath) LANG_CONFIG) as [cfg|] eqn:Ecfg;
    [|discriminate].
  destruct (readFileSync env filePath) as [content|cause] eqn:Eread; simpl.
  - destruct (parse env (ChunkConfig.language cfg) content)
      as [tree|cause] eqn:Eparse; simpl.
    + destruct (createTokenizer (get_encoding env) mdl) as [tk|cause]
        eqn:Etk; simpl.
      * destruct processFileWithCursor as [cs|cause] eqn:E; simpl;
          [discriminate|].
        apply processFileWithCursor_failure in E.
        assert (Hc : exnClass cause = TokenProcessingError).
        { destruct E as [-> | (t & e0 & _ & ->)]; reflexivity. }
        rewrite Hc. intros [= <-]. right. right. now exists cause.
      * assert (Hc : exnClass cause = TokenProcessingError).
        { unfold createTokenizer, Tokenizer_new in Etk.
          destruct (get_encoding env _); simpl in Etk; [discriminate|].
          now injection Etk as <-. }
        rewrite Hc. intros [= <-]. right. right. now exists cause.
    + intros [= <-]. right. left. now exists cfg, content, cause.
  - intros [= <-]. left. now exists cause.
Qed.

Lemma chunkFile_throws_one_of_three_witness :
  chunkFile noScan classEnv (str "a.ts") 0 (str "gpt-4")
  = Throw (mkExn ParsingError
             (str "Unexpected error processing a.ts: maxTokens must be greater than 0"))
  /\ exists cause,
       exnClass cause = TokenProcessingError /\
       mkExn ParsingError
         (str "Unexpected error processing a.ts: maxTokens must be greater than 0")
       = mkExn ParsingError
           (str "Unexpected error processing " ++ str "a.ts" ++ str ": "
            ++ exnMessage cause).
Proof.
  split; [reflexivity|].
  destruct (chunkFile_throws_one_of_three noScan classEnv (str "a.ts") 0
              (str "gpt-4")
              (mkExn ParsingError
                 (str "Unexpected error processing a.ts: maxTokens must be greater than 0"))
              eq_refl)
    as [(cause & H & _) | [(cfg & content & cause & _ & _ & H & _)
                          | (cause & Hc & He)]].
  - discriminate H.
  - discriminate H.
  - exists cause. split; assumption.
Defined.

(** X20.  A file in which the collector finds no node becomes one chunk
    of type gap, which holds the whole content of the file from line 1 to
    its last line, when that content is not blank and counts within the
    budget; a blank file gives no chunk at all. *)
Theorem processFileWithCursor_without_nodes :
  forall (scan : jsstring -> jsstring -> list jsstring * list jsstring)
         (fileContent filePath language : jsstring) (maxTokens : Z)
         (tk : Tokenizer),
    (isBlank fileContent = true ->
     processFileWithCursor scan fileContent [] filePath language maxTokens tk
     = Ok []) /\
    (forall n,
       isBlank fileContent = false ->
       countTokens tk fileContent = Ok n -> n <= maxTokens ->
       processFileWithCursor scan fileContent [] filePath language
                             maxTokens tk
       = Ok [ FileChunk.mk fileContent
                (ChunkMetadata.mk filePath language None None None gap 1
                   (totalLines fileContent)
                   (nonEmpty (fst (scan fileContent (str "gap"))))
                   (nonEmpty (snd (scan fileContent (str "gap")))))
                1 (totalLines fileContent) n ]).
Proof.
  intros scan fileContent filePath language maxTokens tk.
  pose proof (totalLines_positive fileContent) as Hpos.
  assert (Hstart :
    processFileWithCursor scan fileContent [] filePath language maxTokens tk
    = (chunks <-
         (if negb (isBlank fileContent) then
            trailing <- processGapContent scan fileContent 1
                          (totalLines fileContent) filePath language
                          maxTokens tk ;;
            Ok ([] ++ trailing)
          else Ok []) ;;
       Ok (sortBy compareChunks chunks))).
  { unfold processFileWithCursor. simpl processNodes. cbn [bind].
    fold (totalLines fileContent).
    replace (1 <=? totalLines fileContent) with true
      by (symmetry; apply Z.leb_le; lia).
    rewrite sliceFrom_0. unfold NL. rewrite join_split_on.
    now rewrite trim_length_positive. }
  rewrite Hstart. split.
  - intros ->. reflexivity.
  - intros n Hb Hn Hle. rewrite Hb. simpl negb. cbv iota.
    unfold processGapContent.
    destruct (scan fileContent (str "gap")) as [im ex]. rewrite Hn.
    cbn [bind]. replace (n <=? maxTokens) with true
      by (symmetry; now apply Z.leb_le).
    reflexivity.
Qed.

Lemma processFileWithCursor_without_nodes_witness :
  processFileWithCursor noScan plainFile [] (str "a.ts") (str "typescript")
                        100 charTokenizer
  = Ok [ FileChunk.mk plainFile
           (ChunkMetadata.mk (str "a.ts") (str "typescript") None None None
              gap 1 1 None None) 1 1 2 ].
Proof.
  exact (proj2 (processFileWithCursor_without_nodes noScan plainFile
                  (str "a.ts") (str "typescript") 100 charTokenizer)
               2 eq_refl eq_refl ltac:(lia)).
Defined.

(* ================================================================== *)
(** * The scanner and [chunkFile] on extensions *)
(* ================================================================== *)

(** X21.  The scanner compares extensions without regard to case,
    [chunkFile] with regard to it.  Among the files the scanner finds for
    the extensions [.ts] and [.tsx], [chunkFile] has a language
    configuration exactly for those whose extension is written in lower
    case; a file whose extension holds a capital letter gets no chunk and
    no error, whatever it holds: it is not even read. *)
Theorem capital_extension_is_found_but_not_chunked :
  forall (scan : jsstring -> jsstring -> list jsstring * list jsstring)
         (env : Env) (filePath : jsstring) (maxTokens : Z) (mdl : jsstring),
    hasMatchingExtension filePath [str ".ts"; str ".tsx"] = true ->
    (toLowerCase (extname filePath) = extname filePath ->
     exists cfg, assoc (extname filePath) LANG_CONFIG = Some cfg) /\
    (toLowerCase (extname filePath) <> extname filePath ->
     chunkFile scan env filePath maxTokens mdl = Ok []).
Proof.
  intros scan env filePath maxTokens mdl Hfound. split.
  - intro Hlow. unfold hasMatchingExtension in Hfound.
    cbn [existsb] in Hfound. rewrite Hlow, orb_false_r in Hfound.
    apply orb_true_iff in Hfound as [H | H]; apply jsstring_eqb_eq in H.
    + change (toLowerCase (str ".ts")) with (str ".ts") in H.
      rewrite <- H. now exists tsConfig.
    + change (toLowerCase (str ".tsx")) with (str ".tsx") in H.
      rewrite <- H. now exists tsxConfig.
  - intro Hcap. apply chunkFile_unsupported. unfold LANG_CONFIG, assoc.
    destruct (jsstring_eqb (extname filePath) (str ".ts")) eqn:E1.
    + apply jsstring_eqb_eq in E1. rewrite E1 in Hcap. now elim Hcap.
    + destruct (jsstring_eqb (extname filePath) (str ".tsx")) eqn:E2;
        [|reflexivity].
      apply jsstring_eqb_eq in E2. rewrite E2 in Hcap. now elim Hcap.
Qed.

Lemma capital_extension_is_found_but_not_chunked_witness :
  hasMatchingExtension (str "src/App.TSX") [str ".ts"; str ".tsx"] = true /\
  chunkFile noScan classEnv (str "src/App.TSX") 100 (str "gpt-4") = Ok [].
Proof.
  split; [reflexivity|].
  apply (capital_extension_is_found_but_not_chunked noScan classEnv
           (str "src/App.TSX") 100 (str "gpt-4") eq_refl).
  discriminate.
Defined.

(* ================================================================== *)
(** * The pool of [processFilesWithConcurrency] *)
(* ================================================================== *)

Lemma promiseAll_sequence ps :
  promiseAll ps = sequenceResults (map settled ps).
Proof.
  induction ps as [|p ps IH]; simpl; [reflexivity|]. now rewrite IH.
Qed.

(** No promise in the pool is the one [Promise.resolve] has just made. *)
Lemma findIndex_fresh (ps : list Promise) (fresh : nat) :
  Forall (fun p => (promiseId p < fresh)%nat) ps ->
  findIndex (fun p => Nat.eqb (promiseId p) fresh) ps = -1.
Proof.
  induction 1 as [|p ps Hp _ IH]; simpl; [reflexivity|].
  destruct (Nat.eqb_spec (promiseId p) fresh); [lia|].
  now rewrite IH.
Qed.

Section Pool.

Variable scan : jsstring -> jsstring -> list jsstring * list jsstring.
Variable env : Env.
Variable maxTokens : Z.
Variable mdl : jsstring.
Variable concurrency : Z.
Variable continueOnError : bool.
Hypothesis concurrency_positive : 1 <= concurrency.

Let handle (filePath : jsstring) : Result FileProcessingResult.t :=
  processFileWithErrorHandling scan env filePath maxTokens mdl
                               continueOnError.

(** The promise the first wait of the loop looks at. *)
Let firstSettled (st : PoolState) (filePaths : list jsstring)
  : option (Result FileProcessingResult.t) :=
  match inProgress st, filePaths with
  | p :: _, _ => Some (settled p)
  | [], f :: _ => Some (handle f)
  | [], [] => None
  end.

Lemma poolLoop_spec filePaths :
  forall st,
    Forall (fun p => (promiseId p < nextId st)%nat) (inProgress st) ->
    let w := waits concurrency (List.length (inProgress st))
                   (List.length filePaths) in
    match firstSettled st filePaths with
    | Some (Throw e) =>
        if (w =? 0)%nat then
          exists st',
            poolLoop scan env maxTokens mdl concurrency continueOnError
                     filePaths st = Fulfilled st' /\
            results st' = results st /\
            map settled (inProgress st')
            = map settled (inProgress st) ++ map handle filePaths
        else
          poolLoop scan env maxTokens mdl concurrency continueOnError
                   filePaths st = Rejected e
    | Some (Ok r1) =>
        exists st',
          poolLoop scan env maxTokens mdl concurrency continueOnError
                   filePaths st = Fulfilled st' /\
          results st' = results st ++ repeat r1 w /\
          map settled (inProgress st')
          = map settled (inProgress st) ++ map handle filePaths
    | None =>
        poolLoop scan env maxTokens mdl concurrency continueOnError
                 filePaths st = Fulfilled st
    end.
Proof.
  induction filePaths as [|f rest IH]; intros st Hids.
  - (* no file left *)
    unfold waits. simpl List.length.
    replace (Z.to_nat (Z.of_nat (List.length (inProgress st) + 0)
                       - Z.max concurrency
                               (Z.of_nat (List.length (inProgress st)))))
      with 0%nat by lia.
    unfold firstSettled. simpl.
    destruct (inProgress st) as [|p ps] eqn:Ep; [reflexivity|].
    destruct (settled p) as [r1|e]; simpl.
    + exists st. rewrite Ep. simpl. now rewrite !app_nil_r.
    + exists st. rewrite Ep. simpl. now rewrite !app_nil_r.
  - (* the file [f] *)
    cbv zeta. simpl poolLoop.
    destruct (Z.of_nat (List.length (inProgress st)) >=? concurrency) eqn:Efull.
    + (* the pool is full: wait *)
      apply Z.geb_le in Efull.
      destruct (inProgress st) as [|p ps] eqn:Ep; [simpl in Efull; lia|].
      assert (Hw : waits concurrency (List.length (p :: ps))
                         (List.length (f :: rest))
                   = S (List.length rest)).
      { unfold waits. simpl List.length in *. lia. }
      unfold firstSettled. rewrite Ep, Hw. simpl race.
      destruct (settled p) as [r1|e] eqn:Esp; [|reflexivity].
      rewrite findIndex_fresh by exact Hids.
      change (-1 >? -1) with false. cbv iota.
      match goal with |- context [poolLoop _ _ _ _ _ _ rest ?s] =>
        set (st2 := s) end.
      assert (Hids2 : Forall (fun q => (promiseId q < nextId st2)%nat)
                             (inProgress st2)).
      { subst st2. cbn [inProgress nextId]. apply Forall_app. split.
        - eapply Forall_impl; [|exact Hids]. simpl. lia.
        - repeat constructor. }
      specialize (IH st2 Hids2). cbv zeta in IH.
      assert (Hfirst : firstSettled st2 rest = Some (Ok r1)).
      { subst st2. unfold firstSettled. simpl. now rewrite Esp. }
      rewrite Hfirst in IH. destruct IH as (st' & Hrun & Hres & Hprog).
      exists st'. split; [exact Hrun|]. split.
      * rewrite Hres.
        assert (Hw2 : waits concurrency (List.length (inProgress st2))
                            (List.length rest) = List.length rest).
        { subst st2. cbn [inProgress]. unfold waits. rewrite length_app.
          simpl List.length in *. lia. }
        rewrite Hw2. subst st2. cbn [results]. rewrite <- app_assoc.
        reflexivity.
      * rewrite Hprog. subst st2. cbn [inProgress]. rewrite map_app.
        cbn [map settled]. now rewrite <- app_assoc.
    + (* room in the pool: start the file *)
      rewrite Z.geb_leb in Efull. apply Z.leb_gt in Efull.
      match goal with |- context [poolLoop _ _ _ _ _ _ rest ?s] =>
        set (st2 := s) end.
      assert (Hids2 : Forall (fun q => (promiseId q < nextId st2)%nat)
                             (inProgress st2)).
      { subst st2. cbn [inProgress nextId]. apply Forall_app. split.
        - eapply Forall_impl; [|exact Hids]. simpl. lia.
        - repeat constructor. }
      specialize (IH st2 Hids2). cbv zeta in IH.
      assert (Hw : waits concurrency (List.length (inProgress st2))
                         (List.length rest)
                   = waits concurrency (List.length (inProgress st))
                           (List.length (f :: rest))).
      { subst st2. unfold waits. simpl. rewrite length_app. simpl. lia. }
      rewrite Hw in IH.
      assert (Hfirst : firstSettled st2 rest
                       = firstSettled st (f :: rest)).
      { subst st2. unfold firstSettled. simpl.
        destruct (inProgress st); reflexivity. }
      rewrite Hfirst in IH.
      assert (Hprog : map settled (inProgress st2) ++ map handle rest
                      = map settled (inProgress st)
                        ++ map handle (f :: rest)).
      { subst st2. simpl. rewrite map_app. simpl.
        now rewrite <- app_assoc. }
      destruct (firstSettled st (f :: rest)) as [[r1|e]|] eqn:Ef.
      * destruct IH as (st' & Hrun & Hres & Hp). exists st'.
        split; [exact Hrun|]. split; [exact Hres|]. now rewrite Hp.
      * destruct (_ =? 0)%nat; [|exact IH].
        destruct IH as (st' & Hrun & Hres & Hp). exists st'.
        split; [exact Hrun|]. split; [exact Hres|]. now rewrite Hp.
      * unfold firstSettled in Ef. destruct (inProgress st); discriminate.
Qed.

End Pool.

Lemma processFilesWithConcurrency_repeats_the_first_result_aux scan env
    filePaths maxTokens mdl concurrency continueOnError :
  1 <= concurrency ->
  processFilesWithConcurrency scan env filePaths maxTokens mdl concurrency
                              continueOnError
  = match sequenceResults
            (map (fun filePath =>
                    processFileWithErrorHandling scan env filePath
                      maxTokens mdl continueOnError) filePaths) with
    | Ok rs =>
        Fulfilled
          (match rs with
           | [] => []
           | first :: _ =>
               repeat first
                 (Z.to_nat (Z.of_nat (List.length filePaths) - concurrency))
               ++ rs
           end)
    | Throw e => Rejected e
    end.
Proof.
  intros Hc.
  unfold processFilesWithConcurrency.
  pose proof (poolLoop_spec scan env maxTokens mdl concurrency
                continueOnError Hc filePaths (mkPoolState [] [] 0)
                (Forall_nil _)) as H.
  cbv zeta in H. cbn [inProgress results] in H.
  assert (Hw : waits concurrency (List.length (@nil Promise))
                     (List.length filePaths)
               = Z.to_nat (Z.of_nat (List.length filePaths) - concurrency)).
  { unfold waits. simpl. lia. }
  rewrite Hw in H. clear Hw.
  destruct filePaths as [|f rest].
  - reflexivity.
  - cbn [map sequenceResults]. cbn iota in H.
    destruct (processFileWithErrorHandling scan env f maxTokens mdl
                continueOnError) as [r1|e] eqn:Ef.
    + destruct H as (st' & -> & Hres & Hprog).
      rewrite promiseAll_sequence, Hprog, Hres. cbn [app map sequenceResults].
      rewrite Ef. cbn [bind].
      destruct (sequenceResults _) as [rs|e]; reflexivity.
    + cbn [bind].
      destruct (_ =? 0)%nat; [|now rewrite H].
      destruct H as (st' & -> & Hres & Hprog).
      rewrite promiseAll_sequence, Hprog. cbn [app map sequenceResults].
      rewrite Ef. reflexivity.
Qed.

(** X22.  With a concurrency of at least 1 the pool returns what the
    files give, in order, or fails with the first error among them; but
    when there are more files than the concurrency allows at once, every
    wait puts the result of the first file into the results again, since
    the promise it waited for is never taken out of the pool.  The
    results are the result of the first file, once for every file beyond
    the limit, and then the results of all the files. *)
Theorem processFilesWithConcurrency_repeats_the_first_result :
  forall (scan : jsstring -> jsstring -> list jsstring * list jsstring)
         (env : Env) (filePaths : list jsstring) (maxTokens : Z)
         (mdl : jsstring) (concurrency : Z) (continueOnError : bool),
    1 <= concurrency ->
    processFilesWithConcurrency scan env filePaths maxTokens mdl concurrency
                                continueOnError
    = match sequenceResults
              (map (fun filePath =>
                      processFileWithErrorHandling scan env filePath
                        maxTokens mdl continueOnError) filePaths) with
      | Ok rs =>
          Fulfilled
            (match rs with
             | [] => []
             | first :: _ =>
                 repeat first
                   (Z.to_nat (Z.of_nat (List.length filePaths) - concurrency))
                 ++ rs
             end)
      | Throw e => Rejected e
      end.
Proof.
  intros.
  now apply processFilesWithConcurrency_repeats_the_first_result_aux.
Qed.

Lemma processFilesWithConcurrency_repeats_the_first_result_witness :
  exists rs,
    processFilesWithConcurrency noScan plainEnv
      [str "a.ts"; str "b.ts"; str "c.ts"] 100 (str "gpt-4") 1 true
    = Fulfilled rs /\
    map FileProcessingResult.filePath rs
    = [str "a.ts"; str "a.ts"; str "a.ts"; str "b.ts"; str "c.ts"].
Proof.
  rewrite (processFilesWithConcurrency_repeats_the_first_result noScan
             plainEnv [str "a.ts"; str "b.ts"; str "c.ts"] 100 (str "gpt-4")
             1 true ltac:(lia)).
  eexists. split; [vm_compute; reflexivity | reflexivity].
Defined.

(* ================================================================== *)
(** * Further properties of the batch *)
(* ================================================================== *)

(** X23.  With a concurrency that is not positive, a batch that finds at
    least one file never settles: before it starts the first file the
    loop waits for a race among no promises. *)
Theorem batchProcessFiles_without_concurrency_never_settles :
  forall (scan : jsstring -> jsstring -> list jsstring * list jsstring)
         (env : Env) (options : BatchProcessingOptions.t)
         (filePaths : list jsstring),
    orDefault (BatchProcessingOptions.concurrency options) 4 <= 0 ->
    scanRepository env (BatchProcessingOptions.rootPath options)
      (orDefault (BatchProcessingOptions.extensions options)
                 [str ".ts"; str ".tsx"])
      (orDefault (BatchProcessingOptions.excludePatterns options) [])
    = Fulfilled filePaths ->
    filePaths <> [] ->
    batchProcessFiles scan env options = Pending.
Proof.
  intros scan env options filePaths Hc Hscan Hne.
  unfold batchProcessFiles. rewrite Hscan.
  destruct filePaths as [|f rest]; [congruence|].
  change (Z.of_nat (List.length (f :: rest)) =? 0) with false. cbv iota.
  unfold processFilesWithConcurrency. simpl poolLoop.
  replace (0 >=? orDefault (BatchProcessingOptions.concurrency options) 4)
    with true by (symmetry; apply Z.geb_le; lia).
  reflexivity.
Qed.

Lemma batchProcessFiles_without_concurrency_never_settles_witness :
  batchProcessFiles noScan plainEnv
    (BatchProcessingOptions.mk (str ".") 100 (str "gpt-4") (Some 0) None None
                               None)
  = Pending.
Proof.
  apply (batchProcessFiles_without_concurrency_never_settles noScan plainEnv
           _ [str "a.ts"]).
  - simpl. lia.
  - reflexivity.
  - discriminate.
Defined.

Lemma validateBatchOptions_Ok options :
  validateBatchOptions options = Ok tt ->
  falsy (BatchProcessingOptions.rootPath options) = false /\
  0 < BatchProcessingOptions.maxTokens options /\
  falsy (BatchProcessingOptions.modelName options) = false /\
  1 <= orDefault (BatchProcessingOptions.concurrency options) 4 /\
  BatchProcessingOptions.extensions options <> Some [].
Proof.
  unfold validateBatchOptions.
  destruct (falsy (BatchProcessingOptions.rootPath options)); [discriminate|].
  destruct (BatchProcessingOptions.maxTokens options =? 0) eqn:E0;
    [discriminate|].
  destruct (BatchProcessingOptions.maxTokens options <=? 0) eqn:E1;
    [discriminate|]. simpl.
  destruct (falsy (BatchProcessingOptions.modelName options));
    [discriminate|].
  apply Z.leb_gt in E1.
  destruct (BatchProcessingOptions.concurrency options) as [c|]; simpl.
  - destruct (c <=? 0) eqn:Ec; [discriminate|]. apply Z.leb_gt in Ec.
    destruct (BatchProcessingOptions.extensions options) as [[|x xs]|];
      simpl; try discriminate; intros _; repeat split; try lia;
      discriminate.
  - destruct (BatchProcessingOptions.extensions options) as [[|x xs]|];
      simpl; try discriminate; intros _; repeat split; try lia;
      discriminate.
Qed.

(** X24.  With options that [validateBatchOptions] accepts, the batch
    never settles exactly when its scan never returns: once
    [scanRepository] has settled, so does [batchProcessFiles].  When
    [continueOnError] is not set to false it is then fulfilled, unless the
    scan was rejected, and then it is rejected with the error of the scan
    after the words [Failed to scan repository]. *)
Theorem validated_batch_settles_when_the_scan_does :
  forall (scan : jsstring -> jsstring -> list jsstring * list jsstring)
         (env : Env) (options : BatchProcessingOptions.t),
    let scanned :=
      scanRepository env (BatchProcessingOptions.rootPath options)
        (orDefault (BatchProcessingOptions.extensions options)
                   [str ".ts"; str ".tsx"])
        (orDefault (BatchProcessingOptions.excludePatterns options) []) in
    validateBatchOptions options = Ok tt ->
    (batchProcessFiles scan env options = Pending <-> scanned = Pending) /\
    (scanned <> Pending ->
     BatchProcessingOptions.continueOnError options <> Some false ->
     (exists result, batchProcessFiles scan env options = Fulfilled result)
     \/ (exists error,
           scanned = Rejected error /\
           batchProcessFiles scan env options
           = Rejected (mkExn PlainError
                         (str "Failed to scan repository: "
                          ++ exnMessage error)))).
Proof.
  intros scan env options scanned Hv.
  apply validateBatchOptions_Ok in Hv as (_ & _ & _ & Hc & _). split.
  - unfold batchProcessFiles. fold scanned.
    destruct scanned as [filePaths|e|]; split; try discriminate;
      try reflexivity.
    destruct (Z.of_nat (List.length filePaths) =? 0); [discriminate|].
    rewrite processFilesWithConcurrency_repeats_the_first_result_aux
      by assumption.
    destruct (sequenceResults _) as [rs|e]; [|discriminate].
    destruct (aggregate _ [] [] 0) as [[allChunks errors] n]. discriminate.
  - intros Hret Hcont. destruct scanned as [filePaths|error|] eqn:Hscan.
    + left. eapply batchProcessFiles_continue; eassumption.
    + right. exists error. split; [reflexivity|].
      unfold batchProcessFiles. fold scanned. now rewrite Hscan.
    + contradiction.
Qed.

Lemma validated_batch_settles_when_the_scan_does_witness :
  (exists result,
     batchProcessFiles noScan plainEnv
       (BatchProcessingOptions.mk (str ".") 100 (str "gpt-4") (Some 2) None
                                  None None)
     = Fulfilled result) /\
  batchProcessFiles noScan
    (mkEnv (fun _ => Ok plainFile) (fun _ _ => Ok plainTree)
           strict_get_encoding (fun _ => Ok true) (fun _ _ _ => None))
    (BatchProcessingOptions.mk (str ".") 100 (str "gpt-4") (Some 2) None
                               None None)
  = Pending.
Proof.
  split.
  - destruct (validated_batch_settles_when_the_scan_does noScan plainEnv
                (BatchProcessingOptions.mk (str ".") 100 (str "gpt-4")
                                           (Some 2) None None None) eq_refl)
      as [_ H].
    destruct (H ltac:(discriminate) ltac:(discriminate))
      as [Hf | (error & Hs & _)].
    + exact Hf.
    + discriminate Hs.
  - apply (validated_batch_settles_when_the_scan_does noScan
             (mkEnv (fun _ => Ok plainFile) (fun _ _ => Ok plainTree)
                    strict_get_encoding (fun _ => Ok true)
                    (fun _ _ _ => None))
             (BatchProcessingOptions.mk (str ".") 100 (str "gpt-4")
                                        (Some 2) None None None) eq_refl).
    reflexivity.
Defined.

Lemma aggregate_counts rs :
  forall allChunks errors n,
    let '(chunks', errors', n') := aggregate rs allChunks errors n in
    n' + Z.of_nat (List.length errors')
    = n + Z.of_nat (List.length errors) + Z.of_nat (List.length rs).
Proof.
  induction rs as [|r rs IH]; intros allChunks errors n; simpl.
  - lia.
  - destruct (FileProcessingResult.error r) as [e|].
    + specialize (IH allChunks (errors ++ [e]) n).
      destruct (aggregate rs allChunks (errors ++ [e]) n) as [[c' e'] n'].
      rewrite IH, length_app. simpl. lia.
    + specialize (IH (allChunks ++ FileProcessingResult.chunks r) errors
                     (n + 1)).
      destruct (aggregate rs (allChunks ++ FileProcessingResult.chunks r)
                          errors (n + 1)) as [[c' e'] n'].
      rewrite IH. lia.
Qed.

Lemma sequenceResults_length {A} (rs : list (Result A)) out :
  sequenceResults rs = Ok out -> List.length out = List.length rs.
Proof.
  revert out. induction rs as [|r rs IH]; intros out; simpl.
  - now intros [= <-].
  - destruct r as [a|]; simpl; [|discriminate].
    destruct (sequenceResults rs) as [others|]; simpl; [|discriminate].
    intros [= <-]. simpl. now rewrite (IH others).
Qed.

(** X25.  The statistics of a batch count results, not files.  In a
    fulfilled batch [chunksCreated] is the number of chunks returned, and
    [filesProcessed] and the number of errors add up to the number of
    files found plus the number of files beyond the concurrency limit:
    with more files than the limit, the first file is counted again for
    each of them. *)
Theorem batchProcessFiles_statistics :
  forall (scan : jsstring -> jsstring -> list jsstring * list jsstring)
         (env : Env) (options : BatchProcessingOptions.t)
         (filePaths : list jsstring) (result : BatchProcessingResult.t),
    1 <= orDefault (BatchProcessingOptions.concurrency options) 4 ->
    scanRepository env (BatchProcessingOptions.rootPath options)
      (orDefault (BatchProcessingOptions.extensions options)
                 [str ".ts"; str ".tsx"])
      (orDefault (BatchProcessingOptions.excludePatterns options) [])
    = Fulfilled filePaths ->
    batchProcessFiles scan env options = Fulfilled result ->
    let stats := BatchProcessingResult.stats result in
    let files := Z.of_nat (List.length filePaths) in
    ProcessingStats.chunksCreated stats
    = Z.of_nat (List.length (BatchProcessingResult.chunks result)) /\
    ProcessingStats.filesProcessed stats
    + Z.of_nat (List.length (ProcessingStats.errors stats))
    = files
      + Z.max 0 (files
                 - orDefault (BatchProcessingOptions.concurrency options) 4).
Proof.
  intros scan env options filePaths result Hc Hscan. unfold batchProcessFiles.
  rewrite Hscan.
  destruct (Z.of_nat (List.length filePaths) =? 0) eqn:E0.
  - apply Z.eqb_eq in E0. intros [= <-]. simpl. lia.
  - rewrite processFilesWithConcurrency_repeats_the_first_result_aux
      by assumption.
    destruct (sequenceResults _) as [rs|e] eqn:Es; [|discriminate].
    apply sequenceResults_length in Es. rewrite length_map in Es.
    match goal with |- context [aggregate ?l [] [] 0] =>
      pose proof (aggregate_counts l [] [] 0) as Hagg;
      assert (Hlen : Z.of_nat (List.length l)
                     = Z.of_nat (List.length filePaths)
                       + Z.max 0 (Z.of_nat (List.length filePaths)
                                  - orDefault
                                      (BatchProcessingOptions.concurrency
                                         options) 4));
      [|destruct (aggregate l [] [] 0) as [[allChunks errors] n]]
    end.
    + destruct rs as [|r1 rs']; [simpl in *; lia|].
      rewrite length_app, repeat_length, Es. lia.
    + intros [= <-]. simpl in *. split; [reflexivity | lia].
Qed.

Lemma batchProcessFiles_statistics_witness :
  exists result,
    batchProcessFiles noScan
      (mkEnv (fun _ => Ok plainFile) (fun _ _ => Ok plainTree)
             strict_get_encoding (fun _ => Ok true)
             (fun _ _ _ => Some [str "a.ts"; str "b.ts"; str "c.ts"]))
      (BatchProcessingOptions.mk (str ".") 100 (str "gpt-4") (Some 1) None
                                 None None)
    = Fulfilled result /\
    ProcessingStats.filesProcessed (BatchProcessingResult.stats result) = 5.
Proof.
  eexists. split; [vm_compute; reflexivity|].
  pose proof (batchProcessFiles_statistics noScan
                (mkEnv (fun _ => Ok plainFile) (fun _ _ => Ok plainTree)
                       strict_get_encoding (fun _ => Ok true)
                       (fun _ _ _ => Some [str "a.ts"; str "b.ts"; str "c.ts"]))
                (BatchProcessingOptions.mk (str ".") 100 (str "gpt-4")
                                           (Some 1) None None None)
                [str "a.ts"; str "b.ts"; str "c.ts"] _
                ltac:(simpl; lia) eq_refl eq_refl) as [_ H].
  simpl in H. simpl. lia.
Defined.

Lemma startsWith_app p s t :
  startsWith p s = true -> startsWith p (s ++ t) = true.
Proof.
  revert s. induction p as [|x p IH]; intros [|y s]; simpl; auto;
    try discriminate.
  intro H. apply andb_true_iff in H as [H1 H2]. rewrite H1. simpl. auto.
Qed.

Lemma includes_app_l s t p :
  includes s p = true -> includes (s ++ t) p = true.
Proof.
  induction s as [|c s IH]; simpl.
  - rewrite orb_false_r. intro H. destruct p; [|discriminate].
    destruct t; reflexivity.
  - intro H. apply orb_true_iff in H as [H | H].
    + apply (startsWith_app p (c :: s) t) in H. simpl in H. rewrite H.
      reflexivity.
    + rewrite (IH H). apply orb_true_r.
Qed.

(** X26.  A file that cannot be read does not stop a batch that continues
    on errors: its result holds no chunk and one error of type
    [file_system], which names the file and carries the message of
    [chunkFile], marked recoverable. *)
Theorem unreadable_file_is_recorded_as_file_system :
  forall (scan : jsstring -> jsstring -> list jsstring * list jsstring)
         (env : Env) (filePath : jsstring) (maxTokens : Z) (mdl : jsstring)
         (cfg : ChunkConfig.t) (cause : Exn),
    assoc (extname filePath) LANG_CONFIG = Some cfg ->
    readFileSync env filePath = Throw cause ->
    processFileWithErrorHandling scan env filePath maxTokens mdl true
    = Ok (FileProcessingResult.mk filePath []
            (Some (ProcessingError.mk file_system filePath
                     (str "Failed to read file " ++ filePath ++ str ": "
                      ++ exnMessage cause) true))).
Proof.
  intros scan env filePath maxTokens mdl cfg cause Hcfg Hread.
  unfold processFileWithErrorHandling.
  rewrite (chunkFile_unreadable scan env filePath maxTokens mdl cfg cause
             Hcfg Hread).
  unfold tryCatch. cbn [bind negb exnMessage]. do 3 f_equal.
  unfold determineErrorType. cbn [exnMessage].
  unfold toLowerCase. rewrite map_app.
  assert (H : includes (map toLowerChar (str "Failed to read file ")
                        ++ map toLowerChar (filePath ++ str ": "
                                            ++ exnMessage cause))
                       (str "file") = true)
    by (apply includes_app_l; reflexivity).
  rewrite H, !orb_true_r. reflexivity.
Qed.

Lemma unreadable_file_is_recorded_as_file_system_witness :
  processFileWithErrorHandling noScan
    (mkEnv (fun _ => Throw (mkExn PlainError (str "EISDIR")))
           (fun _ _ => Ok plainTree) strict_get_encoding (fun _ => Ok true)
           (fun _ _ _ => Some [])) (str "a.ts") 100 (str "gpt-4") true
  = Ok (FileProcessingResult.mk (str "a.ts") []
          (Some (ProcessingError.mk file_system (str "a.ts")
                   (str "Failed to read file a.ts: EISDIR") true))).
Proof.
  exact (unreadable_file_is_recorded_as_file_system noScan
           (mkEnv (fun _ => Throw (mkExn PlainError (str "EISDIR")))
                  (fun _ _ => Ok plainTree) strict_get_encoding
                  (fun _ => Ok true) (fun _ _ _ => Some []))
           (str "a.ts") 100 (str "gpt-4") tsConfig
           (mkExn PlainError (str "EISDIR")) eq_refl eq_refl).
Defined.

Lemma sequenceResults_first_error {A} (before : list (Result A))
    (e : Exn) (after : list (Result A)) :
  Forall (fun r => isOk r = true) before ->
  sequenceResults (before ++ Throw e :: after) = Throw e.
Proof.
  induction 1 as [|r before Hr _ IH]; simpl; [reflexivity|].
  destruct r as [a|]; [|discriminate]. simpl. now rewrite IH.
Qed.

(** X27.  A batch that does not continue on errors is rejected with the
    very error [chunkFile] threw for the first file that fails, without
    any wrapping, whatever the later files do. *)
Theorem batch_stops_at_the_first_failing_file :
  forall (scan : jsstring -> jsstring -> list jsstring * list jsstring)
         (env : Env) (options : BatchProcessingOptions.t)
         (before : list jsstring) (failing : jsstring)
         (after : list jsstring) (e : Exn),
    BatchProcessingOptions.continueOnError options = Some false ->
    1 <= orDefault (BatchProcessingOptions.concurrency options) 4 ->
    scanRepository env (BatchProcessingOptions.rootPath options)
      (orDefault (BatchProcessingOptions.extensions options)
                 [str ".ts"; str ".tsx"])
      (orDefault (BatchProcessingOptions.excludePatterns options) [])
    = Fulfilled (before ++ failing :: after) ->
    Forall (fun filePath =>
              isOk (chunkFile scan env filePath
                      (BatchProcessingOptions.maxTokens options)
                      (BatchProcessingOptions.modelName options)) = true)
           before ->
    chunkFile scan env failing (BatchProcessingOptions.maxTokens options)
              (BatchProcessingOptions.modelName options) = Throw e ->
    batchProcessFiles scan env options = Rejected e.
Proof.
  intros scan env options before failing after e Hcont Hc Hscan Hbefore
    Hfail.
  unfold batchProcessFiles. rewrite Hscan, Hcont. cbn [orDefault].
  destruct (Z.of_nat (List.length (before ++ failing :: after)) =? 0) eqn:E0.
  - apply Z.eqb_eq in E0. rewrite length_app in E0. simpl in E0. lia.
  - rewrite processFilesWithConcurrency_repeats_the_first_result_aux
      by assumption.
    rewrite map_app. cbn [map].
    unfold processFileWithErrorHandling at 2. rewrite Hfail.
    cbn [bind tryCatch negb].
    rewrite sequenceResults_first_error; [reflexivity|].
    apply Forall_map. eapply Forall_impl; [|exact Hbefore].
    intros f Hf. cbv beta in Hf. unfold processFileWithErrorHandling.
    destruct (chunkFile scan env f _ _);
      [reflexivity | simpl in Hf; discriminate].
Qed.

Lemma batch_stops_at_the_first_failing_file_witness :
  batchProcessFiles noScan classEnv
    (BatchProcessingOptions.mk (str ".") 0 (str "gpt-4") None None None
                               (Some false))
  = Rejected (mkExn ParsingError
                (str "Unexpected error processing a.ts: maxTokens must be greater than 0")).
Proof.
  apply (batch_stops_at_the_first_failing_file noScan classEnv
           (BatchProcessingOptions.mk (str ".") 0 (str "gpt-4") None None
                                      None (Some false))
           [] (str "a.ts") [str "b.ts"]).
  - reflexivity.
  - simpl. lia.
  - reflexivity.
  - constructor.
  - reflexivity.
Defined.

(* ================================================================== *)
(** * Further properties of the scan *)
(* ================================================================== *)

(** X28.  When [scanRepository] returns, the root is a directory, and the
    paths returned are the paths the traversal found, each as often as it
    was found, in the order [sort()] gives strings: code unit by code
    unit. *)
Theorem scanRepository_returns_the_files_sorted :
  forall (env : Env) (rootPath : jsstring)
         (extensions excludePatterns filePaths : list jsstring),
    scanRepository env rootPath extensions excludePatterns
    = Fulfilled filePaths ->
    statIsDirectory env rootPath = Ok true /\
    (exists found,
       discoveredFiles env rootPath extensions excludePatterns = Some found
       /\ Permutation filePaths found) /\
    StronglySorted (fun a b => jsstring_leb a b = true) filePaths.
Proof.
  intros env rootPath extensions excludePatterns filePaths H.
  destruct (scanRepository_Fulfilled _ _ _ _ _ H) as (found & Hfound & ->).
  split; [|split].
  - unfold scanRepository in H.
    destruct (statIsDirectory env rootPath) as [[|]|]; simpl in H;
      [reflexivity | discriminate | discriminate].
  - exists found. split; [assumption | apply sortBy_Permutation].
  - apply sort_strings_sorted.
Qed.

Lemma scanRepository_returns_the_files_sorted_witness :
  scanRepository classEnv (str ".") [str ".ts"] []
  = Fulfilled [str "a.ts"; str "b.ts"] /\
  Permutation [str "a.ts"; str "b.ts"] [str "b.ts"; str "a.ts"].
Proof.
  split; [reflexivity|].
  destruct (scanRepository_returns_the_files_sorted classEnv (str ".")
              [str ".ts"] [] _ eq_refl) as (_ & (found & Hf & Hp) & _).
  injection Hf as <-. exact Hp.
Defined.

Lemma aggregate_errors rs :
  forall allChunks errors n,
    Forall (fun e => ProcessingError.recoverable e = true) errors ->
    Forall (fun r => match FileProcessingResult.error r with
                     | Some e => ProcessingError.recoverable e = true
                     | None => True
                     end) rs ->
    Forall (fun e => ProcessingError.recoverable e = true)
           (snd (fst (aggregate rs allChunks errors n))).
Proof.
  induction rs as [|r rs IH]; intros allChunks errors n He Hrs; simpl.
  - assumption.
  - inversion Hrs as [|? ? Hr Hrs']; subst.
    destruct (FileProcessingResult.error r) as [e|]; apply IH;
      try assumption.
    apply Forall_app. split; [assumption | now repeat constructor].
Qed.

(** X30.  [processRepository] on a root that is a directory, when the
    traversal of the scan returns and the concurrency is at least 1, is
    fulfilled, whatever the budget and whatever happens to single files:
    it scans for [.ts] and [.tsx] and continues on errors, so a file that
    fails becomes an entry of [errors] and never a rejection. *)
Theorem processRepository_is_fulfilled :
  forall (scan : jsstring -> jsstring -> list jsstring * list jsstring)
         (env : Env) (rootPath : jsstring) (maxTokens : Z) (mdl : jsstring)
         (concurrency : Z) (found : list jsstring),
    statIsDirectory env rootPath = Ok true ->
    discoveredFiles env rootPath
      (ScanOptions.extensions (createDefaultScanOptions rootPath))
      (ScanOptions.excludePatterns (createDefaultScanOptions rootPath))
    = Some found ->
    1 <= concurrency ->
    exists result,
      processRepository scan env rootPath maxTokens mdl concurrency
      = Fulfilled result /\
      Forall (fun e => ProcessingError.recoverable e = true)
             (ProcessingStats.errors (BatchProcessingResult.stats result)).
Proof.
  intros scan env rootPath maxTokens mdl concurrency found Hdir Hfound Hc.
  unfold processRepository, batchProcessFiles. cbn [orDefault
    BatchProcessingOptions.rootPath BatchProcessingOptions.maxTokens
    BatchProcessingOptions.modelName BatchProcessingOptions.concurrency
    BatchProcessingOptions.extensions BatchProcessingOptions.excludePatterns
    BatchProcessingOptions.continueOnError].
  unfold scanRepository. rewrite Hdir. cbn [bind tryCatch negb].
  unfold discoverFiles. rewrite Hfound.
  destruct (Z.of_nat (List.length _) =? 0).
  - eexists. split; [reflexivity|]. constructor.
  - rewrite processFilesWithConcurrency_repeats_the_first_result_aux
      by assumption.
    match goal with |- context [sequenceResults (map ?h ?l)] =>
      assert (Hall : exists rs,
                sequenceResults (map h l) = Ok rs /\
                Forall (fun r => match FileProcessingResult.error r with
                                 | Some e => ProcessingError.recoverable e = true
                                 | None => True
                                 end) rs);
      [generalize l as files|]
    end.
    + induction files as [|f files [rs [IH1 IH2]]]; simpl.
      * exists []. split; [reflexivity | constructor].
      * unfold processFileWithErrorHandling at 1.
        destruct (chunkFile scan env f maxTokens mdl) as [chunks|e]; simpl;
          rewrite IH1; simpl; eexists; (split; [reflexivity|]);
          constructor; simpl; auto.
    + destruct Hall as (rs & -> & Hrs).
      match goal with |- context [aggregate ?l [] [] 0] =>
        assert (Hl : Forall (fun r => match FileProcessingResult.error r with
                                      | Some e =>
                                          ProcessingError.recoverable e = true
                                      | None => True
                                      end) l)
      end.
      { destruct rs as [|r1 rs']; [constructor|].
        apply Forall_app. split; [|assumption].
        inversion Hrs; subst. apply Forall_forall. intros x Hx.
        apply repeat_spec in Hx. now subst. }
      match goal with |- context [aggregate ?l [] [] 0] =>
        pose proof (aggregate_errors l [] [] 0 (Forall_nil _) Hl) as Hagg;
        destruct (aggregate l [] [] 0) as [[allChunks errors] n]
      end.
      eexists. split; [reflexivity|]. exact Hagg.
Qed.

Lemma processRepository_is_fulfilled_witness :
  exists result,
    processRepository noScan classEnv (str ".") 0 (str "gpt-4") 4
    = Fulfilled result /\
    Forall (fun e => ProcessingError.recoverable e = true)
           (ProcessingStats.errors (BatchProcessingResult.stats result)).
Proof.
  exact (processRepository_is_fulfilled noScan classEnv (str ".") 0
           (str "gpt-4") 4 [str "b.ts"; str "a.ts"] eq_refl eq_refl
           ltac:(lia)).
Defined.

(* ================================================================== *)
(** * The gaps of [extractGaps] and the count of
      [getCompleteFileCoverage] *)
(* ================================================================== *)

Lemma linesCounted_node passed node gaps :
  linesCounted (passed ++ [node]) gaps
  = linesCounted passed gaps + (nodeEndLine node - nodeStartLine node + 1).
Proof.
  unfold linesCounted, nodeEndLine, nodeStartLine.
  induction passed as [|p passed IH]; simpl in *; lia.
Qed.

Lemma linesCounted_gap passed gaps gap :
  linesCounted passed (gaps ++ [gap])
  = linesCounted passed gaps
    + (CodeGap.endLine gap - CodeGap.startLine gap + 1).
Proof.
  unfold linesCounted.
  induction gaps as [|g gaps IH]; simpl in *; lia.
Qed.

Lemma inRanges_givenRanges nodes gaps l :
  inRanges (givenRanges nodes gaps) l
  <-> (exists n, In n nodes /\ nodeStartLine n <= l <= nodeEndLine n)
      \/ (exists g, In g gaps
                    /\ CodeGap.startLine g <= l <= CodeGap.endLine g).
Proof.
  unfold givenRanges. rewrite inRanges_app. unfold inRanges.
  split; (intros [H|H]; [left|right]).
  - destruct H as (r & Hr & Hl). apply in_map_iff in Hr as (n & <- & Hn).
    now exists n.
  - destruct H as (r & Hr & Hl). apply in_map_iff in Hr as (g & <- & Hg).
    now exists g.
  - destruct H as (n & Hn & Hl).
    exists (LineRange.mk (nodeStartLine n) (nodeEndLine n)).
    split; [|exact Hl]. apply in_map_iff. now exists n.
  - destruct H as (g & Hg & Hl).
    exists (LineRange.mk (CodeGap.startLine g) (CodeGap.endLine g)).
    split; [|exact Hl]. apply in_map_iff. now exists g.
Qed.

Lemma givenRanges_incl passed gaps passed' gaps' :
  incl passed passed' -> incl gaps gaps' ->
  forall l,
    inRanges (givenRanges passed gaps) l ->
    inRanges (givenRanges passed' gaps') l.
Proof.
  intros Hp Hg l. rewrite !inRanges_givenRanges.
  intros [(n & Hn & Hl)|(g & Hgin & Hl)]; [left|right]; eauto.
Qed.

Lemma gapOk_later sourceLines cursor cursor' gaps :
  cursor <= cursor' ->
  Forall (gapOk sourceLines cursor) gaps ->
  Forall (gapOk sourceLines cursor') gaps.
Proof.
  intros Hc. apply Forall_impl. unfold gapOk. intros g H.
  repeat split; try apply H. lia.
Qed.

(** One more stretch of lines, from the current line to [stop], is either
    kept as a gap or blank. *)
Lemma gapsInvariant_stretch sourceLines passed gaps cursor stop :
  1 <= cursor <= stop ->
  stop <= Z.of_nat (List.length sourceLines) ->
  gapsInvariant sourceLines passed gaps cursor ->
  gapsInvariant sourceLines passed
    (let gapContent := join NL (slice sourceLines (cursor - 1) stop) in
     if jslength (trim gapContent) >? 0
     then gaps ++ [CodeGap.mk gapContent cursor stop]
     else gaps)
    (stop + 1).
Proof.
  intros Hcur Hstop (Hgaps & Hcount & Hlines). cbv zeta.
  rewrite trim_length_positive.
  destruct (isBlank (join NL (slice sourceLines (cursor - 1) stop))) eqn:Eb;
    simpl negb; cbv iota.
  - split; [|split].
    + apply (gapOk_later _ cursor); [lia | assumption].
    + lia.
    + intros l Hl. destruct (Z.lt_ge_cases l cursor) as [Hlt|Hge].
      * apply Hlines. lia.
      * right. apply (blank_stretch sourceLines cursor stop); try lia.
        exact Eb.
  - split; [|split].
    + apply Forall_app. split.
      * apply (gapOk_later _ cursor); [lia | assumption].
      * constructor; [|constructor]. unfold gapOk. simpl.
        repeat split; try lia. exact Eb.
    + rewrite linesCounted_gap. simpl. lia.
    + intros l Hl. destruct (Z.lt_ge_cases l cursor) as [Hlt|Hge].
      * destruct (Hlines l) as [H|H]; [lia| |now right]. left.
        revert H. apply givenRanges_incl;
          [apply incl_refl | apply incl_appl, incl_refl].
      * left. apply inRanges_givenRanges. right.
        exists (CodeGap.mk (join NL (slice sourceLines (cursor - 1) stop))
                           cursor stop).
        split; [apply in_or_app; right; now left | simpl; lia].
Qed.

Lemma gapsInvariant_node sourceLines passed gaps node :
  nodeStartLine node <= nodeEndLine node ->
  gapsInvariant sourceLines passed gaps (nodeStartLine node) ->
  gapsInvariant sourceLines (passed ++ [node]) gaps (nodeEndLine node + 1).
Proof.
  intros Hn (Hgaps & Hcount & Hlines). split; [|split].
  - apply (gapOk_later _ (nodeStartLine node)); [lia | assumption].
  - rewrite linesCounted_node. lia.
  - intros l Hl. destruct (Z.lt_ge_cases l (nodeStartLine node)) as [Hlt|Hge].
    + destruct (Hlines l) as [H|H]; [lia| |now right]. left.
      revert H. apply givenRanges_incl;
        [apply incl_appl, incl_refl | apply incl_refl].
    + left. apply inRanges_givenRanges. left. exists node.
      split; [apply in_or_app; right; now left | lia].
Qed.

Lemma extractGaps_loop_invariant sourceLines nodes :
  forall passed gaps cursor,
    1 <= cursor ->
    nodesInOrder cursor (Z.of_nat (List.length sourceLines)) nodes ->
    gapsInvariant sourceLines passed gaps cursor ->
    gapsInvariant sourceLines (passed ++ nodes)
      (extractGaps_loop sourceLines nodes gaps cursor)
      (fold_left (fun _ node => nodeEndLine node + 1) nodes cursor).
Proof.
  induction nodes as [|node rest IH]; intros passed gaps cursor Hcur Hord Hinv.
  - simpl. now rewrite app_nil_r.
  - destruct Hord as (H1 & H2 & H3 & Hrest).
    cbn [extractGaps_loop fold_left].
    replace (passed ++ node :: rest) with ((passed ++ [node]) ++ rest)
      by now rewrite <- app_assoc.
    replace (row (ASTNode.endPosition node) + 2)
      with (nodeEndLine node + 1) by (unfold nodeEndLine; lia).
    fold (nodeStartLine node).
    apply IH; [unfold nodeStartLine in *; lia | assumption |].
    apply gapsInvariant_node; [assumption|].
    destruct (cursor <? nodeStartLine node) eqn:E.
    + apply Z.ltb_lt in E.
      pose proof (gapsInvariant_stretch sourceLines passed gaps cursor
                    (nodeStartLine node - 1)) as H.
      cbv zeta in H.
      replace (nodeStartLine node - 1 + 1) with (nodeStartLine node) in H
        by lia.
      apply H; [lia | lia | assumption].
    + apply Z.ltb_ge in E. replace (nodeStartLine node) with cursor by lia.
      assumption.
Qed.

Lemma nodesInOrder_In nodes :
  forall cursor total n,
    nodesInOrder cursor total nodes -> In n nodes ->
    cursor <= nodeStartLine n <= nodeEndLine n /\ nodeEndLine n <= total.
Proof.
  induction nodes as [|m rest IH]; intros cursor total n Hord Hn;
    [destruct Hn|].
  destruct Hord as (H1 & H2 & H3 & Hrest). destruct Hn as [<- | Hn].
  - lia.
  - apply (IH _ _ _ Hrest) in Hn. lia.
Qed.

(** The last node of a list that is not empty, as [extractGaps] reads it,
    is where the loop has left its current line. *)
Lemma last_node_cursor (nodes : list ASTNode.t) :
  nodes <> [] ->
  exists lastNode,
    In lastNode nodes
    /\ nth_error nodes (List.length nodes - 1) = Some lastNode
    /\ forall cursor,
         fold_left (fun _ node => nodeEndLine node + 1) nodes cursor
         = nodeEndLine lastNode + 1.
Proof.
  intro Hne. destruct (exists_last Hne) as (init & lastNode & ->).
  exists lastNode. split; [|split].
  - apply in_or_app. right. now left.
  - rewrite length_app. simpl.
    rewrite nth_error_app2 by lia.
    replace (List.length init + 1 - 1 - List.length init)%nat with 0%nat
      by lia.
    reflexivity.
  - intro cursor. now rewrite fold_left_app.
Qed.

Lemma gapsInvariant_start sourceLines : gapsInvariant sourceLines [] [] 1.
Proof.
  split; [constructor|]. split; [unfold linesCounted; simpl; lia|].
  intros l Hl. lia.
Qed.

(** The gaps of [extractGaps], for nodes in order inside the file. *)
Lemma extractGaps_invariant sourceCode nodes :
  nodesInOrder 1 (totalLines sourceCode) nodes ->
  gapsInvariant (split_on newline sourceCode) nodes
    (extractGaps nodes sourceCode) (totalLines sourceCode + 1).
Proof.
  intro Hord. unfold extractGaps. fold (totalLines sourceCode).
  pose proof (totalLines_positive sourceCode) as Hpos.
  destruct nodes as [|node rest].
  - simpl Z.eqb. cbv iota.
    pose proof (gapsInvariant_stretch (split_on newline sourceCode) [] [] 1
                  (totalLines sourceCode)) as H.
    cbv zeta in H. change (1 - 1) with 0 in H.
    unfold totalLines in H at 3 4.
    rewrite slice_0, Nat2Z.id, firstn_all in H by lia.
    unfold NL in H. rewrite join_split_on in H.
    apply H; [lia | unfold totalLines; lia | apply gapsInvariant_start].
  - replace (Z.of_nat (List.length (node :: rest)) =? 0) with false
      by (symmetry; apply Z.eqb_neq; simpl List.length; lia).
    destruct (last_node_cursor (node :: rest)) as (lastNode & Hin & -> & Hcur);
      [discriminate|].
    pose proof (extractGaps_loop_invariant (split_on newline sourceCode)
                  (node :: rest) [] [] 1 (Z.le_refl 1) Hord
                  (gapsInvariant_start _)) as Hinv.
    rewrite Hcur in Hinv. rewrite app_nil_l in Hinv.
    apply (nodesInOrder_In _ _ _ _ Hord) in Hin.
    fold (nodeEndLine lastNode).
    destruct (nodeEndLine lastNode <? totalLines sourceCode) eqn:E.
    + apply Z.ltb_lt in E.
      apply (gapsInvariant_stretch _ _ _ (nodeEndLine lastNode + 1));
        [lia | unfold totalLines; lia | assumption].
    + apply Z.ltb_ge in E.
      replace (totalLines sourceCode) with (nodeEndLine lastNode) by lia.
      assumption.
Qed.

Lemma fold_left_counts {A} (size : A -> Z) (l : list A) :
  forall n,
    fold_left (fun coveredLines x => coveredLines + size x) l n
    = n + fold_right (fun x m => size x + m) 0 l.
Proof.
  induction l as [|x l IH]; intro n; simpl; [lia|].
  rewrite IH. lia.
Qed.

Lemma getCompleteFileCoverage_coveredLines sourceCode nodes :
  FileCoverage.coveredLines (getCompleteFileCoverage sourceCode nodes)
  = linesCounted nodes (extractGaps nodes sourceCode).
Proof.
  unfold getCompleteFileCoverage, linesCounted. simpl.
  rewrite (fold_left_counts
             (fun gap => CodeGap.endLine gap - CodeGap.startLine gap + 1)).
  rewrite (fold_left_counts
             (fun node => row (ASTNode.endPosition node)
                          - row (ASTNode.startPosition node) + 1)).
  reflexivity.
Qed.

(** X29.  For nodes that follow one another inside the file without
    sharing a line, [getCompleteFileCoverage] counts no more lines than
    the file has; each of its gaps is not blank and holds exactly the
    lines of its span, which lies in the file; and every line of the file
    that is in no node and no gap is blank. *)
Theorem getCompleteFileCoverage_leaves_only_blank_lines :
  forall (sourceCode : jsstring) (nodes : list ASTNode.t),
    nodesInOrder 1 (totalLines sourceCode) nodes ->
    let coverage := getCompleteFileCoverage sourceCode nodes in
    FileCoverage.gaps coverage = extractGaps nodes sourceCode /\
    0 <= FileCoverage.coveredLines coverage
      <= FileCoverage.totalLines coverage /\
    (forall gap,
       In gap (FileCoverage.gaps coverage) ->
       isBlank (CodeGap.content gap) = false /\
       1 <= CodeGap.startLine gap <= CodeGap.endLine gap /\
       CodeGap.endLine gap <= totalLines sourceCode /\
       CodeGap.content gap
       = join NL (slice (split_on newline sourceCode)
                        (CodeGap.startLine gap - 1) (CodeGap.endLine gap))) /\
    (forall l,
       1 <= l <= totalLines sourceCode ->
       inRanges (givenRanges nodes (FileCoverage.gaps coverage)) l
       \/ isBlank (lineAt sourceCode l) = true).
Proof.
  intros sourceCode nodes Hord coverage.
  destruct (extractGaps_invariant sourceCode nodes Hord)
    as (Hgaps & Hcount & Hlines).
  split; [reflexivity|]. split; [|split].
  - unfold coverage. rewrite getCompleteFileCoverage_coveredLines.
    simpl. fold (totalLines sourceCode). lia.
  - intros gap Hgap. rewrite Forall_forall in Hgaps.
    destruct (Hgaps gap Hgap) as (H1 & H2 & H3 & H4).
    repeat split; try assumption; lia.
  - intros l Hl. apply Hlines. lia.
Qed.

Lemma getCompleteFileCoverage_leaves_only_blank_lines_witness :
  nodesInOrder 1
    (totalLines (NL ++ NL ++ str "function f() {}" ++ NL ++ str "// end"))
    functionNodes /\
  FileCoverage.coveredLines
    (getCompleteFileCoverage
       (NL ++ NL ++ str "function f() {}" ++ NL ++ str "// end")
       functionNodes) = 2 /\
  isBlank (lineAt (NL ++ NL ++ str "function f() {}" ++ NL ++ str "// end")
                  1) = true.
Proof.
  assert (Hord : nodesInOrder 1
            (totalLines
               (NL ++ NL ++ str "function f() {}" ++ NL ++ str "// end"))
            functionNodes) by (vm_compute; intuition discriminate).
  split; [exact Hord|]. split; [reflexivity|].
  pose proof (getCompleteFileCoverage_leaves_only_blank_lines _ _ Hord) as T.
  cbv zeta in T. destruct T as (_ & _ & _ & H).
  destruct (H 1) as [Hin | Hb];
    [vm_compute; split; discriminate | | exact Hb].
  exfalso. destruct Hin as (r & Hr & Hl). vm_compute in Hr.
  destruct Hr as [<- | [<- | []]]; simpl in Hl; lia.
Defined.

(* ================================================================== *)
(** * Where a budget that is not positive is met *)
(* ================================================================== *)

Section BudgetMet.

Variable scan : jsstring -> jsstring -> list jsstring * list jsstring.
Variables filePath language : jsstring.
Variable maxTokens : Z.
Variable tk : Tokenizer.

Hypothesis budget_not_positive : maxTokens <= 0.
Hypothesis counts_positive :
  forall s, isBlank s = false -> exists c, countTokens tk s = Ok c /\ 0 < c.

Lemma processGapContent_budget content startLine endLine :
  isBlank content = false ->
  processGapContent scan content startLine endLine filePath language
                    maxTokens tk = Throw budgetError.
Proof.
  intro Hb. unfold processGapContent.
  destruct (scan content (str "gap")) as [im ex].
  destruct (counts_positive content Hb) as (c & -> & Hc). simpl.
  replace (c <=? maxTokens) with false by (symmetry; apply Z.leb_gt; lia).
  rewrite splitCode_throw; [reflexivity| |assumption].
  now apply isBlank_false_iff.
Qed.

Lemma processASTNodeContent_budget node :
  isBlank (ASTNode.text node) = false ->
  processASTNodeContent scan node filePath language maxTokens tk
  = Throw budgetError.
Proof.
  intro Hb. unfold processASTNodeContent.
  destruct (scan (ASTNode.text node) (ASTNode.type node)) as [im ex].
  destruct (counts_positive _ Hb) as (c & -> & Hc). simpl.
  replace (c <=? maxTokens) with false by (symmetry; apply Z.leb_gt; lia).
  rewrite splitCode_throw; [reflexivity| |assumption].
  now apply isBlank_false_iff.
Qed.

Lemma processNodes_budget sourceLines node rest chunks cursor :
  isBlank (ASTNode.text node) = false ->
  processNodes scan sourceLines filePath language maxTokens tk
               (node :: rest) chunks cursor = Throw budgetError.
Proof.
  intro Hb. cbn [processNodes].
  destruct (cursor <? row (ASTNode.startPosition node) + 1).
  - rewrite trim_length_positive.
    destruct (isBlank (join NL _)) eqn:Egap; simpl negb; cbv iota.
    + cbn [bind]. now rewrite processASTNodeContent_budget.
    + now rewrite processGapContent_budget.
  - cbn [bind]. now rewrite processASTNodeContent_budget.
Qed.

Lemma processFileWithCursor_budget fileContent astNodes :
  isBlank fileContent = false ->
  Forall (fun node => isBlank (ASTNode.text node) = false) astNodes ->
  processFileWithCursor scan fileContent astNodes filePath language
                        maxTokens tk = Throw budgetError.
Proof.
  intros Hfile Hnodes. unfold processFileWithCursor.
  apply (sortBy_Forall compareNodes) in Hnodes.
  destruct (sortBy compareNodes astNodes) as [|node rest].
  - cbn [processNodes bind].
    pose proof (totalLines_positive fileContent) as Hpos.
    unfold totalLines in Hpos.
    replace (1 <=? Z.of_nat (List.length (split_on newline fileContent)))
      with true by (symmetry; apply Z.leb_le; lia).
    change (1 - 1) with 0. rewrite sliceFrom_0. unfold NL.
    rewrite join_split_on, trim_length_positive, Hfile. simpl negb. cbv iota.
    now rewrite processGapContent_budget.
  - inversion Hnodes as [|? ? Hnode _]; subst.
    now rewrite processNodes_budget.
Qed.

End BudgetMet.

(** The encoder that gives one token for each character counts at least
    one token on a text that is not blank. *)
Lemma charEncoding_counts_positive mdl s :
  isBlank s = false ->
  exists c, countTokens (mkTokenizer charEncoding mdl) s = Ok c /\ 0 < c.
Proof.
  intro Hb. unfold countTokens. simpl. rewrite Hb.
  destruct (falsy s) eqn:F; [apply falsy_isBlank in F; congruence|].
  simpl. eexists. split; [reflexivity|].
  unfold charEncoding. rewrite length_map.
  destruct s; [discriminate | simpl; lia].
Qed.

(** C5 as stated fails.  With [maxTokens = 0], [chunkFile] returns the
    empty list without any error for a file whose extension is not
    configured; for a configured one it reads and parses the file first and
    fails only from inside the assembly, and not with a
    [TokenProcessingError]; the batch is fulfilled, not rejected. *)
Lemma chunkFile_zero_budget_not_rejected :
  chunkFile noScan plainEnv (str "a.py") 0 (str "gpt-4") = Ok [] /\
  chunkFile noScan plainEnv (str "a.ts") 0 (str "gpt-4")
  = Throw (mkExn ParsingError
             (str "Unexpected error processing a.ts: maxTokens must be greater than 0"))
  /\
  exists result,
    batchProcessFiles noScan plainEnv
      (BatchProcessingOptions.mk (str "/repo") 0 (str "gpt-4")
                                 None None None None)
    = Fulfilled result.
Proof.
  split; [reflexivity|]. split; [reflexivity|]. eexists. reflexivity.
Qed.

(** C5, amended.  A budget [maxTokens <= 0] is not checked when
    [chunkFile] or [batchProcessFiles] is entered.  [chunkFile] first looks
    up the extension (none configured: the empty list, no error), reads the
    file (on failure: the [FileSystemError] of the read) and parses it (on
    failure: the [ParsingError] of the parse).  The budget is met only
    when units are assembled: for a file that is read and parsed, is not
    blank and has no node of blank text, with an encoder that gives a text
    that is not blank at least one token, [chunkFile] throws an error whose
    message ends with the message of [splitCode], [maxTokens must be
    greater than 0]; and whenever it returns, no chunk has tokens.
    [batchProcessFiles], continuing on errors with a concurrency of at
    least 1, is fulfilled whenever its scan is. *)
Theorem invalid_budget_is_met_late :
  forall (scan : jsstring -> jsstring -> list jsstring * list jsstring)
         (env : Env) (filePath : jsstring) (maxTokens : Z)
         (modelName : jsstring),
    maxTokens <= 0 ->
    (assoc (extname filePath) LANG_CONFIG = None ->
     chunkFile scan env filePath maxTokens modelName = Ok []) /\
    (forall cfg e,
       assoc (extname filePath) LANG_CONFIG = Some cfg ->
       readFileSync env filePath = Throw e ->
       chunkFile scan env filePath maxTokens modelName
       = Throw (mkExn FileSystemError
                  (str "Failed to read file " ++ filePath ++ str ": "
                   ++ exnMessage e))) /\
    (forall cfg content e,
       assoc (extname filePath) LANG_CONFIG = Some cfg ->
       readFileSync env filePath = Ok content ->
       parse env (ChunkConfig.language cfg) content = Throw e ->
       chunkFile scan env filePath maxTokens modelName
       = Throw (mkExn ParsingError
                  (str "Failed to parse " ++ filePath ++ str ": "
                   ++ exnMessage e))) /\
    (forall cfg content tree tk,
       assoc (extname filePath) LANG_CONFIG = Some cfg ->
       readFileSync env filePath = Ok content ->
       parse env (ChunkConfig.language cfg) content = Ok tree ->
       createTokenizer (get_encoding env) modelName = Ok tk ->
       (forall s, isBlank s = false ->
                  exists c, countTokens tk s = Ok c /\ 0 < c) ->
       isBlank content = false ->
       Forall (fun node => isBlank (ASTNode.text node) = false)
              (collectTreeNodesWithSymbols tree
                 (ChunkConfig.wantedNodes cfg) []) ->
       exists error,
         chunkFile scan env filePath maxTokens modelName = Throw error /\
         exnMessage error
         = str "Unexpected error processing " ++ filePath
           ++ str ": maxTokens must be greater than 0") /\
    (forall chunks,
       chunkFile scan env filePath maxTokens modelName = Ok chunks ->
       Forall (fun c => FileChunk.tokenCount c = 0) chunks) /\
    (forall rootPath concurrency extensions excludePatterns continueOnError
            filePaths,
       continueOnError <> Some false ->
       1 <= orDefault concurrency 4 ->
       scanRepository env rootPath
         (orDefault extensions [str ".ts"; str ".tsx"])
         (orDefault excludePatterns []) = Fulfilled filePaths ->
       exists result,
         batchProcessFiles scan env
           (BatchProcessingOptions.mk rootPath maxTokens modelName concurrency
              extensions excludePatterns continueOnError)
         = Fulfilled result).
Proof.
  intros scan env filePath maxTokens modelName Hmax.
  split; [apply chunkFile_unsupported|].
  split; [intros; eapply chunkFile_unreadable; eassumption|].
  split; [intros; eapply chunkFile_unparsable; eassumption|].
  split; [|split].
  - intros cfg content tree tk Hcfg Hread Hparse Htk Hcount Hfile Hnodes.
    unfold chunkFile. rewrite Hcfg, Hread. cbn [tryCatch bind].
    rewrite Hparse. cbn [tryCatch bind]. rewrite Htk. cbn [bind].
    rewrite (processFileWithCursor_budget scan filePath
               (ChunkConfig.name cfg) maxTokens tk Hmax Hcount)
      by assumption.
    eexists. split; reflexivity.
  - intros chunks H.
    apply chunkFile_Ok in H as [-> | (content & nodes & l & tk & H)].
    + constructor.
    + eapply processFileWithCursor_nonpositive; eassumption.
  - intros rootPath concurrency extensions excludePatterns continueOnError
           filePaths Hc Hn Hs.
    eapply batchProcessFiles_continue; simpl; eassumption.
Qed.

Lemma invalid_budget_is_met_late_witness :
  chunkFile noScan plainEnv (str "a.py") (-1) (str "gpt-4") = Ok [] /\
  (exists error,
     chunkFile noScan classEnv (str "a.ts") (-1) (str "gpt-4") = Throw error
     /\ exnMessage error
        = str "Unexpected error processing a.ts: maxTokens must be greater than 0")
  /\
  exists result,
    batchProcessFiles noScan plainEnv
      (BatchProcessingOptions.mk (str "/repo") (-1) (str "gpt-4")
                                 (Some 2) None None (Some true))
    = Fulfilled result.
Proof.
  destruct (invalid_budget_is_met_late noScan plainEnv (str "a.py") (-1)
              (str "gpt-4")) as (H1 & _ & _ & _ & _ & _); [lia|].
  destruct (invalid_budget_is_met_late noScan classEnv (str "a.ts") (-1)
              (str "gpt-4")) as (_ & _ & _ & H4 & _ & _); [lia|].
  destruct (invalid_budget_is_met_late noScan plainEnv (str "a.ts") (-1)
              (str "gpt-4")) as (_ & _ & _ & _ & _ & H6); [lia|].
  split; [|split].
  - apply H1. reflexivity.
  - apply (H4 tsConfig classFile classTree
              (mkTokenizer charEncoding (str "gpt-4")));
      try reflexivity.
    + apply charEncoding_counts_positive.
    + vm_compute. repeat constructor.
  - apply (H6 (str "/repo") (Some 2) None None (Some true) [str "a.ts"]).
    + discriminate.
    + simpl. lia.
    + reflexivity.
Defined.

(* ================================================================== *)
(** * The coverage of a file by its chunks *)
(* ================================================================== *)










Section ChunksOfUnits.

Variable scan : jsstring -> jsstring -> list jsstring * list jsstring.
Variables filePath language : jsstring.
Variable maxTokens : Z.
Variable tk : Tokenizer.





End ChunksOfUnits.





